(** * GeminiDesigner: the generation service ([services/geminiService.ts])

    A shallow embedding of the service module of the repository and of the
    consumer loop of [components/AlbumView.tsx], with the properties of the
    specification that concern them.

    Conventions.
    - A JavaScript string is the list of its UTF-16 code units ([jstring]).
    - A value that comes out of [JSON.parse] is a [JSValue]; numbers are
      kept as far as the program looks at them (truthiness and rendering).
    - Effects (the memoised client, the remote calls, the events a generator
      yields, the clock and the random source) are threaded through a state
      and exception monad [M]; a [throw] keeps the state reached so far.
    - What lies outside the module is a record [Env]: the process
      environment, [JSON.parse], the remote model, the clock, the random
      source.  The remote model answers a call knowing the calls before it.
    - An [await] is sequential composition: the module never starts two
      calls at once.  The pacing timers of the web-search path take time
      and have no other effect; [console.error] prints and has no other
      effect (the evaluation of its arguments is kept); neither appears.

    Layout: strings and the fence pattern, values, [extractJson], the
    remote interface, the monad, the service, the consumer, a sample world;
    then the vocabulary of the properties; then the facts and the
    properties themselves (C1 to C10), and further properties of the same
    code (X1 to X19). *)

From Stdlib Require Import String Ascii DecimalString.
From Stdlib Require Import List NArith ZArith Bool Lia.
Import ListNotations.

Set Implicit Arguments.

(* ================================================================== *)
(** * JavaScript strings *)
(* ================================================================== *)

Module JSString.

(** One UTF-16 code unit. *)
Definition char := N.
Definition jstring := list char.

(** An ASCII literal of the source as a [jstring]. *)
Definition lit (s : string) : jstring :=
  map N_of_ascii (list_ascii_of_string s).

(** The double quote, which a literal of this file cannot hold. *)
Definition dquote : jstring := [34%N].

Definition char_eqb (a b : char) : bool := N.eqb a b.

Fixpoint str_eqb (a b : jstring) : bool :=
  match a, b with
  | [], [] => true
  | x :: a', y :: b' => char_eqb x y && str_eqb a' b'
  | _, _ => false
  end.

(** [WhiteSpace] and [LineTerminator] of ECMAScript: what [\s] matches and
    what [String.prototype.trim] removes. *)
Definition is_space (c : char) : bool :=
  ((9 <=? c) && (c <=? 13) || (c =? 32) || (c =? 160) || (c =? 5760)
   || (8192 <=? c) && (c <=? 8202)
   || (c =? 8232) || (c =? 8233) || (c =? 8239) || (c =? 8287)
   || (c =? 12288) || (c =? 65279))%N.

Fixpoint trimStart (s : jstring) : jstring :=
  match s with
  | c :: s' => if is_space c then trimStart s' else s
  | [] => []
  end.

Definition trimEnd (s : jstring) : jstring := rev (trimStart (rev s)).

(** [s.trim()] *)
Definition trim (s : jstring) : jstring := trimEnd (trimStart s).

(** [s.indexOf(c)] for a one-character needle: -1 when absent. *)
Fixpoint indexOf (c : char) (s : jstring) : Z :=
  match s with
  | [] => (-1)%Z
  | x :: s' =>
      if char_eqb x c then 0%Z
      else let i := indexOf c s' in
           if (i =? -1)%Z then (-1)%Z else (i + 1)%Z
  end.

(** [s.lastIndexOf(c)] for a one-character needle: -1 when absent. *)
Fixpoint lastIndexOf (c : char) (s : jstring) : Z :=
  match s with
  | [] => (-1)%Z
  | x :: s' =>
      let i := lastIndexOf c s' in
      if (i =? -1)%Z then (if char_eqb x c then 0%Z else (-1)%Z)
      else (i + 1)%Z
  end.

(** [s.substring(a, b)]: both ends clamped to [0, length], swapped when
    out of order. *)
Definition substring (s : jstring) (a b : Z) : jstring :=
  let len := Z.of_nat (length s) in
  let clamp i := Z.min (Z.max i 0) len in
  let lo := Z.min (clamp a) (clamp b) in
  let hi := Z.max (clamp a) (clamp b) in
  firstn (Z.to_nat (hi - lo)) (skipn (Z.to_nat lo) s).

(** [needle] occurs in [s] at offset 0. *)
Fixpoint starts_with (needle s : jstring) : bool :=
  match needle, s with
  | [], _ => true
  | x :: n', y :: s' => char_eqb x y && starts_with n' s'
  | _ :: _, [] => false
  end.

(** [s.includes(needle)] *)
Fixpoint includes (needle s : jstring) : bool :=
  starts_with needle s ||
  match s with
  | [] => false
  | _ :: s' => includes needle s'
  end.

End JSString.

Import JSString.

Arguments lit s%_string.

(* ================================================================== *)
(** * The regular expression of [extractJson] *)
(* ================================================================== *)

Module Regex.

(** What one position of the pattern accepts. *)
Inductive atom :=
| Exactly (c : char)   (* a literal character *)
| Space                (* \s *)
| AnyChar.             (* [\s\S] *)

Definition accepts (a : atom) (c : char) : bool :=
  match a with
  | Exactly x => char_eqb x c
  | Space => is_space c
  | AnyChar => true
  end.

(** The pieces the pattern is a sequence of.  [GroupLazy a] is a capture
    group around a lazy star: [(a*?)]. *)
Inductive node :=
| One (a : atom)
| StarGreedy (a : atom)
| GroupLazy (a : atom).

(** Backtracking match of a sequence of nodes at the start of [s], in the
    order of ECMAScript: a greedy star first tries one more character, a
    lazy star first tries the rest of the pattern.  [cap] is what the
    group holds so far, last character first.  The answer is the text of
    the group. *)
Fixpoint run (s : jstring) : list node -> jstring -> option jstring :=
  fix nodes (ns : list node) (cap : jstring) : option jstring :=
    match ns with
    | [] => Some (rev cap)
    | One a :: ns' =>
        match s with
        | c :: s' => if accepts a c then run s' ns' cap else None
        | [] => None
        end
    | StarGreedy a :: ns' =>
        match s with
        | c :: s' =>
            if accepts a c then
              match run s' ns cap with
              | Some r => Some r
              | None => nodes ns' cap
              end
            else nodes ns' cap
        | [] => nodes ns' cap
        end
    | GroupLazy a :: ns' =>
        match nodes ns' cap with
        | Some r => Some r
        | None =>
            match s with
            | c :: s' => if accepts a c then run s' ns (c :: cap) else None
            | [] => None
            end
        end
    end.

(** [s.match(re)] without the global flag: the leftmost start that
    matches; [Some g] is the text of group 1, [None] is [null]. *)
Fixpoint search (re : list node) (s : jstring) : option jstring :=
  match run s re [] with
  | Some g => Some g
  | None =>
      match s with
      | [] => None
      | _ :: s' => search re s'
      end
  end.

Definition literal (s : jstring) : list node := map (fun c => One (Exactly c)) s.

(** [/```json\s*([\s\S]*?)\s*```/] *)
Definition fence_re : list node :=
  literal (lit "```json")
    ++ [StarGreedy Space; GroupLazy AnyChar; StarGreedy Space]
    ++ literal (lit "```").

End Regex.

(* ================================================================== *)
(** * Values, exceptions *)
(* ================================================================== *)

(** A number, as far as this program observes one: whether it is truthy and
    how it prints. *)
Record JSNumber := { num_truthy : bool; num_text : jstring }.

#[warnings="-register-all"]
Inductive JSValue :=
| JUndefined
| JNull
| JBool (b : bool)
| JNum (n : JSNumber)
| JStr (s : jstring)
| JArr (items : list JSValue)
| JObj (fields : list (jstring * JSValue)).

(** What a [throw] carries: an [Error] (or a subclass of it) with its
    message, or any other value. *)
Inductive Thrown :=
| JsError (message : jstring)
| JsThrown (v : JSValue).

Inductive Result (A : Type) :=
| Ok (a : A)
| Throw (t : Thrown).
Arguments Ok {A} a.
Arguments Throw {A} t.

(* ================================================================== *)
(** * [extractJson] *)
(* ================================================================== *)

Definition no_json_message (text : jstring) : jstring :=
  lit "Could not find a valid JSON object or array in the response. Model returned: "
    ++ dquote ++ text ++ dquote.

(** The part of [extractJson] after the fence test. *)
Definition bracket_search (text : jstring) : Result jstring :=
  let firstBracket := indexOf 91%N text in
  let firstBrace := indexOf 123%N text in
  let start :=
    if (firstBracket =? -1)%Z then firstBrace
    else if (firstBrace =? -1)%Z then firstBracket
    else Z.min firstBracket firstBrace in
  if (start =? -1)%Z then Throw (JsError (no_json_message text))
  else
    let lastBracket := lastIndexOf 93%N text in
    let lastBrace := lastIndexOf 125%N text in
    let end_ := Z.max lastBracket lastBrace in
    if ((end_ =? -1) || (end_ <? start))%Z
    then Throw (JsError (no_json_message text))
    else Ok (substring text start (end_ + 1)).

Definition nonempty (s : jstring) : bool :=
  match s with [] => false | _ :: _ => true end.

Definition extractJson (text : jstring) : Result jstring :=
  match Regex.search Regex.fence_re text with
  | Some g => if nonempty g then Ok (trim g) else bracket_search text
  | None => bracket_search text
  end.

(* ================================================================== *)
(** * Dynamic operations on values *)
(* ================================================================== *)

(** [!!v] *)
Definition truthy (v : JSValue) : bool :=
  match v with
  | JUndefined | JNull => false
  | JBool b => b
  | JNum n => num_truthy n
  | JStr s => nonempty s
  | JArr _ | JObj _ => true
  end.

(** Truthiness of an optional string field of a typed object of the SDK. *)
Definition some_nonempty (o : option jstring) : bool :=
  match o with Some s => nonempty s | None => false end.

Fixpoint lookup (k : jstring) (fields : list (jstring * JSValue)) : option JSValue :=
  match fields with
  | [] => None
  | (k', v) :: rest => if str_eqb k' k then Some v else lookup k rest
  end.

(** Where the engine itself raises a [TypeError]; the wording of the message
    is the engine's. *)
Inductive TypeErrorSite :=
| ReadOfNullish (base : JSValue) (prop : jstring)  (* [null.p], [undefined.p] *)
| NotAFunction (prop : jstring)                    (* [v.p()] where [v.p] is no function *)
| NotPrimitive.                                    (* an object with no usable [toString] *)

(** The images of a turn, as the caller hands them over. *)
Record SourceImage := { base64Data : jstring; mimeType : jstring }.

(* ------------------------------------------------------------------ *)
(** ** The remote interface ([@google/genai]) *)

Record Blob := { data : option jstring; blob_mimeType : option jstring }.
Record Part := { inlineData : option Blob; part_text : option jstring }.
Record Content := { parts : option (list Part) }.
Record Candidate := { content : option Content; groundingMetadata : option JSValue }.
Record PromptFeedback := { blockReason : option jstring }.

(** The answer of [models.generateContent]; [text] is the accessor the
    program reads. *)
Record GenerateContentResponse := {
  text : option jstring;
  candidates : option (list Candidate);
  promptFeedback : option PromptFeedback
}.

Record Image := { imageBytes : option jstring }.
Record GeneratedImage := { image : option Image }.

(** The answer of [models.generateImages]. *)
Record GenerateImagesResponse := {
  generatedImages : option (list GeneratedImage);
  images_promptFeedback : option PromptFeedback
}.

Inductive RequestPart :=
| InlineDataPart (data mimeType : jstring)
| TextPart (t : jstring).

Inductive Schema := generationPlanSchema | objectDetectionSchema.
Inductive Modality := IMAGE.
Inductive Tool := googleSearch.

Record GenerateContentConfig := {
  responseMimeType : option jstring;
  responseSchema : option Schema;
  tools : list Tool;
  responseModalities : list Modality
}.

(** One call to the remote model. *)
Inductive Request :=
| GenerateContentRequest (model : jstring) (contents : list RequestPart)
    (config : GenerateContentConfig)
| GenerateImagesRequest (model : jstring) (prompt : JSValue)
    (numberOfImages : N) (aspectRatio : jstring).

Record Client := { apiKey : jstring }.

(* ------------------------------------------------------------------ *)
(** ** What a generator yields *)

Record RetryPayload := {
  payload_images : option (list SourceImage);
  payload_prompt : JSValue;
  payload_aspectRatio : option jstring
}.

(** [isError = false] stands for the absent field as well. *)
Record ImageVariation := {
  id : jstring;
  title : JSValue;
  description : JSValue;
  imageUrl : jstring;
  createdAt : JSNumber;
  isError : bool;
  errorMessage : option jstring;
  retryPayload : option RetryPayload
}.

Inductive GeneratorYield :=
| Progress (message : jstring)
| PlanReady (plan : JSValue) (grounding : option JSValue)
| Variation (v : ImageVariation).

(* ------------------------------------------------------------------ *)
(** ** The environment of a run *)

(** Everything outside the module: the process environment, the language
    setting, the engine's [JSON.parse] and error wording, the remote model
    (which sees the calls made before the current one), the clock and the
    random source (indexed by the number of earlier reads). *)
Record Env := {
  API_KEY : option jstring;
  getCurrentLanguage : jstring;
  JSON_parse : jstring -> Result JSValue;
  typeErrorMessage : TypeErrorSite -> jstring;
  models_generateContent : list Request -> Request -> Result GenerateContentResponse;
  models_generateImages : list Request -> Request -> Result GenerateImagesResponse;
  Date_now : nat -> JSNumber;
  Math_random : nat -> JSNumber
}.

(** The mutable state: the memoised client [ai], the calls made so far
    (oldest first), the events yielded so far (oldest first), and how often
    the clock and the random source were read. *)
Record State := {
  ai : option Client;
  requests : list Request;
  emitted : list GeneratorYield;
  clock_reads : nat;
  random_draws : nat
}.

Definition initial : State :=
  {| ai := None; requests := []; emitted := []; clock_reads := 0; random_draws := 0 |}.

(* ================================================================== *)
(** * The monad of effects *)
(* ================================================================== *)

Definition M (A : Type) : Type := State -> Result A * State.

Definition ret {A} (a : A) : M A := fun s => (Ok a, s).

Definition bind {A B} (m : M A) (k : A -> M B) : M B :=
  fun s => match m s with
           | (Ok a, s') => k a s'
           | (Throw t, s') => (Throw t, s')
           end.

Definition throw {A} (t : Thrown) : M A := fun s => (Throw t, s).

(** [try { m } catch (error) { handler error }] *)
Definition try_catch {A} (m : M A) (handler : Thrown -> M A) : M A :=
  fun s => match m s with
           | (Ok a, s') => (Ok a, s')
           | (Throw t, s') => handler t s'
           end.

(** A pure computation that may throw. *)
Definition lift {A} (r : Result A) : M A := fun s => (r, s).

Declare Scope js_scope.
Delimit Scope js_scope with js.
Notation "x <- m ;; k" := (bind m (fun x => k))
  (at level 61, m at next level, right associativity) : js_scope.
Notation "m ;; k" := (bind m (fun _ => k))
  (at level 61, right associativity) : js_scope.
Open Scope js_scope.

(** [for (const x of l) body] *)
Fixpoint for_of {A} (l : list A) (body : A -> M unit) : M unit :=
  match l with
  | [] => ret tt
  | x :: l' => body x ;; for_of l' body
  end.

(** [yield ev] *)
Definition yield (ev : GeneratorYield) : M unit :=
  fun s => (Ok tt, {| ai := ai s; requests := requests s;
                      emitted := emitted s ++ [ev];
                      clock_reads := clock_reads s;
                      random_draws := random_draws s |}).

Definition quoted (s : jstring) : jstring := dquote ++ s ++ dquote.

(** A length, as a template literal prints it. *)
Definition length_text {A} (l : list A) : jstring :=
  lit (NilEmpty.string_of_uint (Nat.to_uint (length l))).

(** The instruction of the planner, new-image turn. *)
Definition newImagePlanPrompt (userPrompt lang aspectRatio : jstring) : jstring :=
  lit "You are a world-class creative director and prompt engineer acting as a planner. A user wants to generate a new image with the prompt: "
  ++ quoted userPrompt ++ lit ". The user's language is " ++ quoted lang
  ++ lit ".
      
      Your task is to conceptualize 3 distinct, high-quality artistic variations based on their prompt.
      1.  Write a brief, encouraging, conversational response in the USER'S LANGUAGE ("
  ++ lang
  ++ lit ").
      2.  For each variation, create a short title and a one-sentence description, also in the USER'S LANGUAGE.
      3.  For each variation's 'modifiedPrompt' (which must be in ENGLISH), write a descriptive, multi-sentence paragraph for an image generation AI. Do NOT use simple keywords. Instead, describe a complete photorealistic scene. Incorporate professional photographic terms like camera angles (e.g., "
  ++ quoted (lit "low-angle shot") ++ lit ", " ++ quoted (lit "close-up")
  ++ lit "), lens types (e.g., " ++ quoted (lit "85mm portrait lens")
  ++ lit ", " ++ quoted (lit "wide-angle")
  ++ lit "), and lighting conditions (e.g., "
  ++ quoted (lit "golden hour light") ++ lit ", "
  ++ quoted (lit "softbox setup") ++ lit ", "
  ++ quoted (lit "cinematic lighting")
  ++ lit ").
      4.  Generate 4 short, actionable follow-up prompts in the USER'S LANGUAGE.
      5.  The prompt MUST be designed to generate an image with a '"
  ++ aspectRatio
  ++ lit "' aspect ratio.
      
      Return this plan in the specified JSON format.".

(** The instruction of the planner, edit turn with web search. *)
Definition webSearchPlanPrompt (images : list SourceImage) (userPrompt lang aspectRatio : jstring) : jstring :=
  lit "You are a creative AI assistant. A user has provided "
  ++ length_text images ++ lit " image(s) and a prompt in " ++ quoted lang
  ++ lit ": " ++ quoted userPrompt
  ++ lit ".

        Your task is to create a superior generation plan using multilingual web search.
        1.  Analyze ALL provided images' content, style, and composition. If there are people in the images, pay close attention to their faces.
        2.  Take the user's prompt and perform Google searches for advanced "
  ++ quoted (lit "nano banana")
  ++ lit " (a generative AI model) techniques. Search in MULTIPLE LANGUAGES, including English, Japanese, and Korean, to find diverse ideas.
        3.  Synthesize your findings from the multilingual search and the original request to create a generation plan.
        4.  Write a brief, encouraging, conversational response to the user. YOU MUST RESPOND IN THE USER'S LANGUAGE ("
  ++ lang
  ++ lit ").
        5.  Come up with 3 distinct, creative variations based on your findings. For each, create a title and description in the user's language.
        6.  The 'modifiedPrompt' field MUST be a non-empty, highly detailed string written in ENGLISH for the image model. CRITICAL: If the original image contains people, add this instruction at the end of the prompt: "
  ++ quoted (lit "--no-face-swap, preserve facial identity from original image")
  ++ lit ".
        7.  Generate 4 actionable follow-up prompts in the user's language.
        8. The final generated image MUST have a '"
  ++ aspectRatio
  ++ lit "' aspect ratio. This is a critical instruction that must be reflected in the 'modifiedPrompt'.
        
        EXTREMELY IMPORTANT: Your entire response must be a single, valid JSON object. It MUST start with '{' and end with '}'. Do NOT include any text, greetings, or markdown formatting like ```json before or after the JSON object.".

(** The instruction of the planner, edit turn without web search. *)
Definition editPlanPrompt (images : list SourceImage) (userPrompt lang aspectRatio : jstring) : jstring :=
  lit "You are a world-class creative director and prompt engineer acting as a planner. A user wants to edit/combine "
  ++ length_text images ++ lit " image(s) with the prompt: "
  ++ quoted userPrompt ++ lit ". The user's language is " ++ quoted lang
  ++ lit ".
        
        Your task is to analyze ALL provided images and conceptualize 3 distinct, high-quality artistic variations.
        1.  Write a brief, encouraging, conversational response in the USER'S LANGUAGE ("
  ++ lang
  ++ lit ").
        2.  For each variation, create a short title and a one-sentence description, also in the USER'S LANGUAGE.
        3.  For each variation's 'modifiedPrompt' (which must be in ENGLISH), write a descriptive, multi-sentence paragraph. Do NOT use simple keywords. Instead, describe a complete photorealistic scene. Incorporate professional photographic terms like camera angles (e.g., "
  ++ quoted (lit "low-angle shot") ++ lit ", " ++ quoted (lit "close-up")
  ++ lit "), lens types (e.g., " ++ quoted (lit "85mm portrait lens")
  ++ lit ", " ++ quoted (lit "wide-angle")
  ++ lit "), and lighting conditions (e.g., "
  ++ quoted (lit "golden hour light") ++ lit ", "
  ++ quoted (lit "softbox setup") ++ lit ", "
  ++ quoted (lit "cinematic lighting")
  ++ lit "). CRITICAL: If the original image contains people, you must add this instruction at the end of the prompt: "
  ++ quoted (lit "--no-face-swap, preserve facial identity from original image")
  ++ lit ".
        4.  Generate 4 short, actionable follow-up prompts in the USER'S LANGUAGE.
        5.  Ensure the final image is rendered with a '"
  ++ aspectRatio
  ++ lit "' aspect ratio. This is a strict constraint that must be reflected in the 'modifiedPrompt'.
        
        Return this plan in the specified JSON format.".

(** The instruction of [segmentObjectsInImage]. *)
Definition segmentPrompt  : jstring :=
  lit "Analyze the provided image and perform hierarchical object detection. Identify all distinct objects and their sub-components. For each detected object, provide:
1.  A unique 'id'.
2.  The 'id' of its parent object ('parentId'), or null if it's a top-level object.
3.  A descriptive 'label'.
4.  A normalized bounding 'box_2d' as [yMin, xMin, yMax, xMax].
Return this information in the specified JSON format.".

(** The text part of [editImageWithMask]. *)
Definition maskEditPrompt (prompt : jstring) : jstring :=
  lit "User request: " ++ quoted prompt
  ++ lit ". You are a professional photo editor. Your task is to edit an image based on the user's request, but you MUST ONLY modify the white masked area. The rest of the image (the black area) must remain completely unchanged. Do not alter the original image's style, lighting, or composition. Apply the change seamlessly and realistically to the masked region.".

(* ================================================================== *)
(** * The service *)
(* ================================================================== *)

Definition planner_model : jstring := lit "gemini-2.5-flash".
Definition edit_model : jstring := lit "gemini-2.5-flash-image".
Definition imagen_model : jstring := lit "imagen-4.0-generate-001".

Definition missing_key_message : jstring :=
  lit "API_KEY environment variable not set. Please configure it to use the AI features.".
Definition invalid_prompt_message : jstring :=
  lit "A valid, non-empty prompt is required for image editing.".
Definition no_image_input_message : jstring :=
  lit "At least one image is required for editing.".
Definition blocked_message (reason : jstring) : jstring :=
  lit "Image generation was blocked. Reason: " ++ reason.
Definition no_candidates_message : jstring :=
  lit "The API did not return any candidates. The request may have been blocked or failed.".
Definition no_parts_message : jstring :=
  lit "The API returned a candidate with no content parts.".
Definition no_image_message : jstring :=
  lit "The API did not return an image. The response may have been blocked.".
Definition text_instead_message (returnedText : jstring) : jstring :=
  lit "The AI failed to generate an image and returned this message: "
    ++ quoted returnedText.
Definition could_not_edit_message : jstring := lit "Could not edit the image.".
Definition invalid_plan_message : jstring :=
  lit "Failed to create a valid generation plan.".
Definition unknown_error_message : jstring := lit "Unknown generation error.".
Definition no_images_message : jstring :=
  lit "The API did not return any images. The request may have been blocked or failed.".
Definition mask_no_candidates_message : jstring :=
  lit "The API did not return any candidates for the masked edit.".
Definition mask_no_image_message : jstring :=
  lit "The API did not return an image for the masked edit.".
Definition reposition_no_candidates_message : jstring :=
  lit "The API did not return any candidates for the reposition edit.".
Definition reposition_no_image_message : jstring :=
  lit "The API did not return an image for the reposition edit.".

(** [error instanceof Error ? error.message : 'Unknown generation error.'] *)
Definition error_message (error : Thrown) : jstring :=
  match error with
  | JsError message => message
  | JsThrown _ => unknown_error_message
  end.

(** [part.inlineData && part.inlineData.data], when truthy. *)
Definition image_data (part : Part) : option jstring :=
  match inlineData part with
  | Some blob => if some_nonempty (data blob) then data blob else None
  | None => None
  end.

(** The scan of [editImageInternal] over the returned parts: the last image
    and the last text seen. *)
Definition scan_part (acc : option jstring * option jstring) (part : Part)
  : option jstring * option jstring :=
  let (returnedImage, returnedText) := acc in
  match image_data part with
  | Some d => (Some d, returnedText)
  | None =>
      if some_nonempty (part_text part) then (returnedImage, part_text part)
      else (returnedImage, returnedText)
  end.

(** The scan of the two array-returning calls: every image, in order. *)
Definition collect_images (ps : list Part) : list jstring :=
  flat_map (fun part => match image_data part with Some d => [d] | None => [] end) ps.

(** [response.promptFeedback?.blockReason], when truthy. *)
Definition block_reason (feedback : option PromptFeedback) : option jstring :=
  match feedback with
  | Some f => if some_nonempty (blockReason f) then blockReason f else None
  | None => None
  end.

(** [`${x}`] for a string that may be [undefined]. *)
Definition template_opt (o : option jstring) : jstring :=
  match o with Some s => s | None => lit "undefined" end.

Definition image_parts (images : list SourceImage) : list RequestPart :=
  map (fun img => InlineDataPart (base64Data img) (mimeType img)) images.

Definition image_only_config : GenerateContentConfig :=
  {| responseMimeType := None; responseSchema := None; tools := [];
     responseModalities := [IMAGE] |}.

Definition schema_config (schema : Schema) : GenerateContentConfig :=
  {| responseMimeType := Some (lit "application/json");
     responseSchema := Some schema; tools := []; responseModalities := [] |}.

Definition web_search_config : GenerateContentConfig :=
  {| responseMimeType := None; responseSchema := None; tools := [googleSearch];
     responseModalities := [] |}.

Section Service.

Variable env : Env.

Definition TypeError {A} (site : TypeErrorSite) : Result A :=
  Throw (JsError (typeErrorMessage env site)).

(** [v.k], for the keys this program reads (no prototype defines them). *)
Definition get (v : JSValue) (k : jstring) : Result JSValue :=
  match v with
  | JUndefined | JNull => TypeError (ReadOfNullish v k)
  | JObj fields =>
      Ok (match lookup k fields with Some x => x | None => JUndefined end)
  | _ => Ok JUndefined
  end.

(** [`${v}`]: an object prints as [[object Object]] unless it has a field
    [toString] of its own, which is data and cannot be called; an array
    joins its items with commas, [null] and [undefined] printing empty. *)
Fixpoint toStr (v : JSValue) : Result jstring :=
  match v with
  | JUndefined => Ok (lit "undefined")
  | JNull => Ok (lit "null")
  | JBool b => Ok (if b then lit "true" else lit "false")
  | JNum n => Ok (num_text n)
  | JStr s => Ok s
  | JArr items =>
      (fix join (l : list JSValue) : Result jstring :=
         match l with
         | [] => Ok []
         | x :: rest =>
             let piece :=
               match x with
               | JUndefined | JNull => Ok []
               | _ => toStr x
               end in
             match piece with
             | Throw t => Throw t
             | Ok p =>
                 match rest with
                 | [] => Ok p
                 | _ :: _ =>
                     match join rest with
                     | Throw t => Throw t
                     | Ok r => Ok (p ++ lit "," ++ r)
                     end
                 end
             end
         end) items
  | JObj fields =>
      match lookup (lit "toString") fields with
      | Some _ => TypeError NotPrimitive
      | None => Ok (lit "[object Object]")
      end
  end.

(** [v.trim()] *)
Definition call_trim (v : JSValue) : Result jstring :=
  match v with
  | JStr s => Ok (trim s)
  | JUndefined | JNull => TypeError (ReadOfNullish v (lit "trim"))
  | _ => TypeError (NotAFunction (lit "trim"))
  end.

(* ---------------------------------------------------------------- *)
(** ** Primitive effects *)

Definition getAiClient : M Client :=
  fun s =>
    match ai s with
    | Some client => (Ok client, s)
    | None =>
        match API_KEY env with
        | Some key =>
            if nonempty key then
              let client := {| apiKey := key |} in
              (Ok client,
               {| ai := Some client; requests := requests s;
                  emitted := emitted s; clock_reads := clock_reads s;
                  random_draws := random_draws s |})
            else (Throw (JsError missing_key_message), s)
        | None => (Throw (JsError missing_key_message), s)
        end
    end.

Definition log (req : Request) (s : State) : State :=
  {| ai := ai s; requests := requests s ++ [req]; emitted := emitted s;
     clock_reads := clock_reads s; random_draws := random_draws s |}.

(** [await client.models.generateContent({model, contents: {parts}, config})] *)
Definition generateContent (client : Client) (model : jstring)
    (contents : list RequestPart) (config : GenerateContentConfig)
  : M GenerateContentResponse :=
  fun s =>
    let req := GenerateContentRequest model contents config in
    (models_generateContent env (requests s) req, log req s).

(** [await client.models.generateImages({model, prompt, config})] *)
Definition generateImages (client : Client) (model : jstring)
    (prompt : JSValue) (numberOfImages : N) (aspectRatio : jstring)
  : M GenerateImagesResponse :=
  fun s =>
    let req := GenerateImagesRequest model prompt numberOfImages aspectRatio in
    (models_generateImages env (requests s) req, log req s).

(** [Date.now()], [new Date()] *)
Definition now : M JSNumber :=
  fun s => (Ok (Date_now env (clock_reads s)),
            {| ai := ai s; requests := requests s; emitted := emitted s;
               clock_reads := S (clock_reads s);
               random_draws := random_draws s |}).

(** [Math.random()] *)
Definition random : M JSNumber :=
  fun s => (Ok (Math_random env (random_draws s)),
            {| ai := ai s; requests := requests s; emitted := emitted s;
               clock_reads := clock_reads s;
               random_draws := S (random_draws s) |}).

(** [Date.now().toString() + Math.random()] *)
Definition fresh_id : M jstring :=
  t <- now ;; r <- random ;; ret (num_text t ++ num_text r).

(* ---------------------------------------------------------------- *)
(** ** [editImageInternal] *)

(** What [editImageInternal] makes of the answer of the remote model. *)
Definition read_edited_image (response : GenerateContentResponse)
  : Result jstring :=
  match candidates response with
  | None | Some [] =>
      match block_reason (promptFeedback response) with
      | Some reason => Throw (JsError (blocked_message reason))
      | None => Throw (JsError no_candidates_message)
      end
  | Some (candidate :: _) =>
      match content candidate with
      | Some {| parts := Some ps |} =>
          let (returnedImage, returnedText) :=
            fold_left scan_part ps (None, None) in
          match returnedImage with
          | Some img => Ok img
          | None =>
              match returnedText with
              | Some t => Throw (JsError (text_instead_message t))
              | None => Throw (JsError no_image_message)
              end
          end
      | _ => Throw (JsError no_parts_message)
      end
  end.

(** The [catch] of [editImageInternal]: an [Error] is thrown again as it
    is, anything else is replaced. *)
Definition rethrow {A} (error : Thrown) : M A :=
  (* console.error('Error calling Gemini API for image editing:', error) *)
  match error with
  | JsError _ => throw error
  | JsThrown _ => throw (JsError could_not_edit_message)
  end.

Definition editImageInternal (images : option (list SourceImage))
    (prompt : JSValue) : M jstring :=
  try_catch
    (match prompt with
     | JStr p =>
         if negb (nonempty p) || negb (nonempty (trim p))
         then throw (JsError invalid_prompt_message)
         else
           match images with
           | None | Some [] => throw (JsError no_image_input_message)
           | Some imgs =>
               client <- getAiClient ;;
               response <- generateContent client edit_model
                             (image_parts imgs ++ [TextPart p])
                             image_only_config ;;
               lift (read_edited_image response)
           end
     | _ => throw (JsError invalid_prompt_message)
     end)
    rethrow.

Definition retryImageGeneration (images : option (list SourceImage))
    (prompt : JSValue) : M jstring :=
  editImageInternal images prompt.

(* ---------------------------------------------------------------- *)
(** ** [retryNewImageGeneration] *)

(** What [retryNewImageGeneration] makes of the answer of the remote
    model: [response.generatedImages[0].image.imageBytes]. *)
Definition first_image_bytes (response : GenerateImagesResponse)
  : Result (option jstring) :=
  match generatedImages response with
  | None | Some [] =>
      match block_reason (images_promptFeedback response) with
      | Some reason => Throw (JsError (blocked_message reason))
      | None => Throw (JsError no_images_message)
      end
  | Some (first :: _) =>
      match image first with
      | Some img => Ok (imageBytes img)
      | None => TypeError (ReadOfNullish JUndefined (lit "imageBytes"))
      end
  end.

Definition retryNewImageGeneration (prompt : JSValue) (aspectRatio : jstring)
  : M (option jstring) :=
  client <- getAiClient ;;
  response <- generateImages client imagen_model prompt 1 aspectRatio ;;
  lift (first_image_bytes response).

(* ---------------------------------------------------------------- *)
(** ** The planner's answer *)

(** [extractJson(planResponse.text)] followed by [JSON.parse]. *)
Definition parse_response (response : GenerateContentResponse) : M JSValue :=
  match text response with
  | None => lift (TypeError (ReadOfNullish JUndefined (lit "match")))
  | Some t => json <- lift (extractJson t) ;; lift (JSON_parse env json)
  end.

(** The validity test of both generators; the answer is [plan.variations]. *)
Definition check_plan (plan : JSValue) : M (list JSValue) :=
  textResponse <- lift (get plan (lit "textResponse")) ;;
  if negb (truthy textResponse) then throw (JsError invalid_plan_message)
  else
    variations <- lift (get plan (lit "variations")) ;;
    match variations with
    | JArr (v :: vs) => ret (v :: vs)
    | _ => throw (JsError invalid_plan_message)
    end.

(** [planResponse.candidates?.[0]?.groundingMetadata] *)
Definition grounding_of (response : GenerateContentResponse) : option JSValue :=
  match candidates response with
  | Some (candidate :: _) => groundingMetadata candidate
  | _ => None
  end.

(** [a || b] *)
Definition or_else (a b : JSValue) : JSValue := if truthy a then a else b.

(* ---------------------------------------------------------------- *)
(** ** [generateNewImages] *)

(** One turn of the loop of [generateNewImages]. *)
Definition new_image_turn (userPrompt aspectRatio : jstring)
    (variation : JSValue) : M unit :=
  try_catch
    (modifiedPrompt <- lift (get variation (lit "modifiedPrompt")) ;;
     let promptForGeneration := or_else modifiedPrompt (JStr userPrompt) in
     editedImageBase64 <- retryNewImageGeneration promptForGeneration aspectRatio ;;
     id_ <- fresh_id ;;
     title_ <- lift (get variation (lit "title")) ;;
     description_ <- lift (get variation (lit "description")) ;;
     createdAt_ <- now ;;
     yield (Variation
              {| id := id_; title := title_; description := description_;
                 imageUrl := lit "data:image/png;base64,"
                               ++ template_opt editedImageBase64;
                 createdAt := createdAt_; isError := false;
                 errorMessage := None; retryPayload := None |}))
    (fun error =>
       (* console.error(`Failed to generate new image variation "${variation.title}":`, error) *)
       logged <- lift (get variation (lit "title")) ;;
       _ <- lift (toStr logged) ;;
       id_ <- fresh_id ;;
       title_ <- lift (get variation (lit "title")) ;;
       description_ <- lift (get variation (lit "description")) ;;
       createdAt_ <- now ;;
       modifiedPrompt <- lift (get variation (lit "modifiedPrompt")) ;;
       yield (Variation
                {| id := id_; title := title_; description := description_;
                   imageUrl := []; createdAt := createdAt_; isError := true;
                   errorMessage := Some (error_message error);
                   retryPayload :=
                     Some {| payload_images := None;
                             payload_prompt := or_else modifiedPrompt (JStr userPrompt);
                             payload_aspectRatio := Some aspectRatio |} |})).

Definition default {A} (d : A) (o : option A) : A :=
  match o with Some a => a | None => d end.

Definition generateNewImages (userPrompt : jstring)
    (useWebSearch : option bool) (aspectRatio : option jstring) : M unit :=
  let useWebSearch := default false useWebSearch in
  let aspectRatio := default (lit "1:1") aspectRatio in
  client <- getAiClient ;;
  let lang := getCurrentLanguage env in
  let config := schema_config generationPlanSchema in
  let planPrompt := newImagePlanPrompt userPrompt lang aspectRatio in
  planResponse <- generateContent client planner_model [TextPart planPrompt] config ;;
  plan <- parse_response planResponse ;;
  variations <- check_plan plan ;;
  yield (PlanReady plan None) ;;
  yield (Progress (lit "Generating your new images...")) ;;
  for_of variations (new_image_turn userPrompt aspectRatio).

(* ---------------------------------------------------------------- *)
(** ** [generateImageEdits] *)

(** The prompt of one variation of an edit turn, with its fallback. *)
Definition edit_prompt (userPrompt : jstring) (variation : JSValue) : M JSValue :=
  modifiedPrompt <- lift (get variation (lit "modifiedPrompt")) ;;
  trimmed <- lift (call_trim (or_else modifiedPrompt (JStr []))) ;;
  if nonempty trimmed then lift (get variation (lit "modifiedPrompt"))
  else
    title_ <- lift (get variation (lit "title")) ;;
    shown <- lift (toStr title_) ;;
    ret (JStr (userPrompt ++ lit ", in the style of: " ++ shown)).

(** [images[0].mimeType] *)
Definition first_mimeType (images : list SourceImage) : Result jstring :=
  match images with
  | img :: _ => Ok (mimeType img)
  | [] => TypeError (ReadOfNullish JUndefined (lit "mimeType"))
  end.

(** One turn of the loop of [generateImageEdits]. *)
Definition edit_turn (images : list SourceImage) (userPrompt : jstring)
    (variation : JSValue) : M unit :=
  try_catch
    (promptForGeneration <- edit_prompt userPrompt variation ;;
     editedImageBase64 <- editImageInternal (Some images) promptForGeneration ;;
     id_ <- fresh_id ;;
     title_ <- lift (get variation (lit "title")) ;;
     description_ <- lift (get variation (lit "description")) ;;
     mime <- lift (first_mimeType images) ;;
     createdAt_ <- now ;;
     yield (Variation
              {| id := id_; title := title_; description := description_;
                 imageUrl := lit "data:" ++ mime ++ lit ";base64,"
                               ++ editedImageBase64;
                 createdAt := createdAt_; isError := false;
                 errorMessage := None; retryPayload := None |}))
    (fun error =>
       (* console.error(`Failed to generate variation "${variation.title}":`, error) *)
       logged <- lift (get variation (lit "title")) ;;
       _ <- lift (toStr logged) ;;
       promptForRetry <- edit_prompt userPrompt variation ;;
       id_ <- fresh_id ;;
       title_ <- lift (get variation (lit "title")) ;;
       description_ <- lift (get variation (lit "description")) ;;
       createdAt_ <- now ;;
       yield (Variation
                {| id := id_; title := title_; description := description_;
                   imageUrl := []; createdAt := createdAt_; isError := true;
                   errorMessage := Some (error_message error);
                   retryPayload :=
                     Some {| payload_images := Some images;
                             payload_prompt := promptForRetry;
                             payload_aspectRatio := None |} |})).

Definition generateImageEdits (images : list SourceImage) (userPrompt : jstring)
    (useWebSearch : option bool) (aspectRatio : option jstring) : M unit :=
  let useWebSearch := default false useWebSearch in
  let aspectRatio := default (lit "1:1") aspectRatio in
  client <- getAiClient ;;
  let lang := getCurrentLanguage env in
  let imageParts := image_parts images in
  request <-
    (if useWebSearch then
       yield (Progress (lit "Searching the web for inspiration...")) ;;
       yield (Progress (lit "Analyzing results to craft prompts...")) ;;
       ret (web_search_config,
            webSearchPlanPrompt images userPrompt lang aspectRatio)
     else
       ret (schema_config generationPlanSchema,
            editPlanPrompt images userPrompt lang aspectRatio)) ;;
  let (config, planPrompt) := request in
  planResponse <- generateContent client planner_model
                    (imageParts ++ [TextPart planPrompt]) config ;;
  plan <- parse_response planResponse ;;
  let groundingMetadata_ := grounding_of planResponse in
  variations <- check_plan plan ;;
  yield (PlanReady plan groundingMetadata_) ;;
  yield (Progress (lit "Remixing your image with new ideas...")) ;;
  for_of variations (edit_turn images userPrompt).

(* ---------------------------------------------------------------- *)
(** ** The auxiliary calls *)

(** The answer is [result.objects || []]. *)
Definition segmentObjectsInImage (base64Data mimeType : jstring) : M JSValue :=
  client <- getAiClient ;;
  response <- generateContent client planner_model
                [InlineDataPart base64Data mimeType; TextPart segmentPrompt]
                (schema_config objectDetectionSchema) ;;
  result <- parse_response response ;;
  objects <- lift (get result (lit "objects")) ;;
  ret (or_else objects (JArr [])).

(** What [editImageWithMask] and [applyRepositionEdit] make of the answer. *)
Definition returned_images (no_candidates no_image : jstring)
    (response : GenerateContentResponse) : Result (list jstring) :=
  match candidates response with
  | None | Some [] => Throw (JsError no_candidates)
  | Some (candidate :: _) =>
      match content candidate with
      | Some {| parts := Some ps |} =>
          match collect_images ps with
          | [] => Throw (JsError no_image)
          | returnedImages => Ok returnedImages
          end
      | _ => Throw (JsError no_parts_message)
      end
  end.

Definition editImageWithMask (base64Data mimeType prompt maskBase64 : jstring)
  : M (list jstring) :=
  client <- getAiClient ;;
  response <- generateContent client edit_model
                [InlineDataPart base64Data mimeType;
                 InlineDataPart maskBase64 (lit "image/png");
                 TextPart (maskEditPrompt prompt)]
                image_only_config ;;
  lift (returned_images mask_no_candidates_message mask_no_image_message response).

Definition applyRepositionEdit
    (instructionImageBase64 mimeType generatedPrompt : jstring)
  : M (list jstring) :=
  client <- getAiClient ;;
  response <- generateContent client edit_model
                [InlineDataPart instructionImageBase64 mimeType;
                 TextPart generatedPrompt]
                image_only_config ;;
  lift (returned_images reposition_no_candidates_message
          reposition_no_image_message response).

End Service.

(* ================================================================== *)
(** * The consumer ([handleSendPrompt] of [AlbumView]) *)
(* ================================================================== *)

(** What the [for await] loop accumulates: the status messages shown, the
    plan and its grounding data, the variations received. *)
Record Turn := {
  statusMessages : list jstring;
  planData : JSValue;
  groundingData : option JSValue;
  finalVariations : list ImageVariation
}.

Definition turn_start : Turn :=
  {| statusMessages := []; planData := JNull; groundingData := None;
     finalVariations := [] |}.

(** The body of the loop, for one received event. *)
Definition receive (t : Turn) (result : GeneratorYield) : Turn :=
  match result with
  | Progress message =>
      {| statusMessages := statusMessages t ++ [message];
         planData := planData t; groundingData := groundingData t;
         finalVariations := finalVariations t |}
  | PlanReady plan grounding =>
      {| statusMessages := statusMessages t; planData := plan;
         groundingData := grounding; finalVariations := finalVariations t |}
  | Variation v =>
      {| statusMessages := statusMessages t; planData := planData t;
         groundingData := groundingData t;
         finalVariations := finalVariations t ++ [v] |}
  end.

(** [for await (const result of generator)]: events are taken one by one,
    oldest first. *)
Definition for_await (events : list GeneratorYield) : Turn :=
  fold_left receive events turn_start.

(* ================================================================== *)
(** * A concrete environment *)
(* ================================================================== *)

(** A small world in which the definitions run: three planned variations,
    the second without a prompt, and a remote model whose third call of a
    run (the second render) fails. *)
Module Sample.

Definition decimal (n : N) : jstring :=
  lit (NilEmpty.string_of_uint (N.to_uint n)).

Definition number (n : N) : JSNumber :=
  {| num_truthy := negb (n =? 0)%N; num_text := decimal n |}.

(** A printer of JSON text (strings without escapes), to write answers of
    the remote model down. *)
Fixpoint json_text (v : JSValue) : jstring :=
  match v with
  | JUndefined => lit "undefined"
  | JNull => lit "null"
  | JBool b => if b then lit "true" else lit "false"
  | JNum n => num_text n
  | JStr s => quoted s
  | JArr items =>
      lit "[" ++
      (fix go (l : list JSValue) : jstring :=
         match l with
         | [] => []
         | [x] => json_text x
         | x :: rest => json_text x ++ lit "," ++ go rest
         end) items
      ++ lit "]"
  | JObj fields =>
      lit "{" ++
      (fix go (l : list (jstring * JSValue)) : jstring :=
         match l with
         | [] => []
         | [(k, x)] => quoted k ++ lit ":" ++ json_text x
         | (k, x) :: rest => quoted k ++ lit ":" ++ json_text x ++ lit "," ++ go rest
         end) fields
      ++ lit "}"
  end.

Definition variation_spec (t d p : string) : JSValue :=
  JObj [(lit "title", JStr (lit t)); (lit "description", JStr (lit d));
        (lit "modifiedPrompt", JStr (lit p))].

Definition red : JSValue :=
  variation_spec "Vibrant Red" "A bold red take."
    "A low-angle shot of a red bicycle on a beach, 85mm lens, golden hour light.".
Definition studio : JSValue :=
  variation_spec "Studio Shot" "A clean studio look." "".
Definition dusk : JSValue :=
  variation_spec "Dusk" "Soft evening colours."
    "A wide-angle view of a bicycle on a beach at dusk, cinematic lighting.".

Definition plan3 : JSValue :=
  JObj [(lit "textResponse", JStr (lit "Here are three ideas!"));
        (lit "variations", JArr [red; studio; dusk]);
        (lit "followUpSuggestions", JArr [JStr (lit "Add a sunset")])].

(** A plan without variations, and one without text. *)
Definition plan_empty : JSValue :=
  JObj [(lit "textResponse", JStr (lit "Nothing to show."));
        (lit "variations", JArr [])].
Definition plan_mute : JSValue :=
  JObj [(lit "variations", JArr [red])].

(** A plan one of whose entries is [null]. *)
Definition plan_null : JSValue :=
  JObj [(lit "textResponse", JStr (lit "Two ideas."));
        (lit "variations", JArr [JNull; red])].

Definition objects_answer : JSValue :=
  JObj [(lit "objects", JArr [JObj [(lit "id", JStr (lit "1"));
                                    (lit "label", JStr (lit "bicycle"))]])].

(** [JSON.parse] on the texts above. *)
Definition parse (known : list JSValue) (s : jstring) : Result JSValue :=
  match find (fun v => str_eqb (json_text v) s) known with
  | Some v => Ok v
  | None => Throw (JsError (lit "Unexpected token in JSON"))
  end.

Definition type_error_text (site : TypeErrorSite) : jstring :=
  match site with
  | ReadOfNullish base prop =>
      lit "Cannot read properties of "
        ++ (match base with JNull => lit "null" | _ => lit "undefined" end)
        ++ lit " (reading '" ++ prop ++ lit "')"
  | NotAFunction prop => prop ++ lit " is not a function"
  | NotPrimitive => lit "Cannot convert object to primitive value"
  end.

Definition png : SourceImage :=
  {| base64Data := lit "iVBORw0KGgo="; mimeType := lit "image/png" |}.

Definition image_part (bytes : string) : Part :=
  {| inlineData := Some {| data := Some (lit bytes);
                           blob_mimeType := Some (lit "image/png") |};
     part_text := None |}.

Definition text_part (t : jstring) : Part :=
  {| inlineData := None; part_text := Some t |}.

Definition answer (t : option jstring) (ps : list Part)
  : GenerateContentResponse :=
  {| text := t;
     candidates := Some [{| content := Some {| parts := Some ps |};
                            groundingMetadata := None |}];
     promptFeedback := None |}.

(** The text of the planner: [planned] inside a fenced block. *)
Definition planner_text (planned : JSValue) : jstring :=
  lit "Sure! ```json
" ++ json_text planned ++ lit "
``` Enjoy.".

Definition planner_answer (planned : JSValue) : GenerateContentResponse :=
  answer (Some (planner_text planned)) [text_part (planner_text planned)].

(** The planner answers with [planned]; a render answers with one image,
    except that the third call of a run fails. *)
Definition content_model (planned : JSValue) (history : list Request)
    (req : Request) : Result GenerateContentResponse :=
  match req with
  | GenerateContentRequest model _ _ =>
      if str_eqb model planner_model then Ok (planner_answer planned)
      else if (length history =? 2)%nat then
        Throw (JsError (lit "429: quota exceeded"))
      else Ok (answer None [image_part "RURJVA=="])
  | _ => Throw (JsThrown JUndefined)
  end.

Definition images_model (history : list Request) (req : Request)
  : Result GenerateImagesResponse :=
  if (length history =? 2)%nat then
    Throw (JsError (lit "429: quota exceeded"))
  else
    Ok {| generatedImages :=
            Some [{| image := Some {| imageBytes := Some (lit "TkVX") |} |}];
          images_promptFeedback := None |}.

Definition world (planned : JSValue) : Env :=
  {| API_KEY := Some (lit "secret");
     getCurrentLanguage := lit "en";
     JSON_parse := parse [plan3; plan_empty; plan_mute; plan_null; objects_answer];
     typeErrorMessage := type_error_text;
     models_generateContent := content_model planned;
     models_generateImages := images_model;
     Date_now := fun n => number (1700000000000 + N.of_nat n);
     Math_random := fun n =>
       {| num_truthy := true; num_text := lit "0." ++ decimal (N.of_nat n + 1) |} |}.

(** A world whose remote model gives one and the same answer to every
    call for content. *)
Definition fixed_world (response : GenerateContentResponse) : Env :=
  {| API_KEY := Some (lit "secret");
     getCurrentLanguage := lit "en";
     JSON_parse := parse [plan3; plan_empty; plan_mute; plan_null; objects_answer];
     typeErrorMessage := type_error_text;
     models_generateContent := fun _ _ => Ok response;
     models_generateImages := images_model;
     Date_now := fun n => number (1700000000000 + N.of_nat n);
     Math_random := fun n =>
       {| num_truthy := true; num_text := lit "0." ++ decimal (N.of_nat n + 1) |} |}.

Definition empty_answer : GenerateContentResponse :=
  {| text := None; candidates := Some []; promptFeedback := None |}.

End Sample.

(* ================================================================== *)
(** * Vocabulary of the properties of [extractJson] *)
(* ================================================================== *)

Definition open_fence : jstring := lit "```json".
Definition close_fence : jstring := lit "```".

(** The offset of the first occurrence of [needle] in [s]. *)
Fixpoint find_sub (needle s : jstring) : option nat :=
  if starts_with needle s then Some 0%nat
  else match s with
       | [] => None
       | _ :: s' => option_map S (find_sub needle s')
       end.

Definition is_opening (c : char) : bool := ((c =? 91) || (c =? 123))%N.
Definition is_closing (c : char) : bool := ((c =? 93) || (c =? 125))%N.

(** Index of the first character that satisfies [p], -1 when there is none. *)
Fixpoint first_index (p : char -> bool) (s : jstring) : Z :=
  match s with
  | [] => (-1)%Z
  | c :: s' =>
      if p c then 0%Z
      else let i := first_index p s' in
           if (i =? -1)%Z then (-1)%Z else (i + 1)%Z
  end.

(** Index of the last character that satisfies [p], -1 when there is none. *)
Fixpoint last_index (p : char -> bool) (s : jstring) : Z :=
  match s with
  | [] => (-1)%Z
  | c :: s' =>
      let i := last_index p s' in
      if (i =? -1)%Z then (if p c then 0%Z else (-1)%Z) else (i + 1)%Z
  end.

(** Index of the first [[] or [{], and of the last []] or [}]. *)
Definition first_opening (text : jstring) : Z := first_index is_opening text.
Definition last_closing (text : jstring) : Z := last_index is_closing text.

(** What the fence pattern captures, when it captures something. *)
Definition fenced_group (text : jstring) : option jstring :=
  match Regex.search Regex.fence_re text with
  | Some g => if nonempty g then Some g else None
  | None => None
  end.

(** Whether white space and then the closing fence come next. *)
Definition closes (s : jstring) : bool := starts_with close_fence (trimStart s).

(** The end of the pattern: [\s*```]. *)
Definition closing : list Regex.node :=
  Regex.StarGreedy Regex.Space :: Regex.literal close_fence.

(* ================================================================== *)
(** * Vocabulary of the properties of the generators *)
(* ================================================================== *)

Definition nullish (v : JSValue) : bool :=
  match v with JUndefined | JNull => true | _ => false end.

Definition is_string (v : JSValue) : bool :=
  match v with JStr _ => true | _ => false end.

Definition is_object (v : JSValue) : bool :=
  match v with JObj _ => true | _ => false end.

Definition nonempty_array (v : JSValue) : bool :=
  match v with JArr (_ :: _) => true | _ => false end.

(** The field [k] of [v], [undefined] when [v] has none. *)
Definition field (v : JSValue) (k : jstring) : JSValue :=
  match v with
  | JObj fields => match lookup k fields with Some x => x | None => JUndefined end
  | _ => JUndefined
  end.

Definition string_of (v : JSValue) : jstring :=
  match v with JStr s => s | _ => [] end.

(** A variation as [generationPlanSchema] describes one: an object whose
    [title], [description] and [modifiedPrompt] are strings. *)
Definition is_variation_spec (v : JSValue) : bool :=
  is_object v && is_string (field v (lit "title"))
    && is_string (field v (lit "description"))
    && is_string (field v (lit "modifiedPrompt")).

(** The plan has text and at least one variation; [vs] are its variations. *)
Definition accepted (plan : JSValue) (vs : list JSValue) : Prop :=
  truthy (field plan (lit "textResponse")) = true
  /\ field plan (lit "variations") = JArr vs /\ vs <> [].

(** The text of the plan is empty or missing, or its variations are not a
    non-empty array. *)
Definition rejected (plan : JSValue) : Prop :=
  truthy (field plan (lit "textResponse")) = false
  \/ nonempty_array (field plan (lit "variations")) = false.

(** A client exists already or can be built. *)
Definition client_ready (env : Env) (s : State) : Prop :=
  ai s <> None \/ some_nonempty (API_KEY env) = true.

(** The remote model answers the request [req], made in state [s], with a
    text in which [extractJson] and [JSON.parse] find [plan]. *)
Definition plan_arrives (env : Env) (s : State) (req : Request)
    (plan : JSValue) : Prop :=
  exists response t json,
    models_generateContent env (requests s) req = Ok response
    /\ text response = Some t
    /\ extractJson t = Ok json
    /\ JSON_parse env json = Ok plan.

Definition default_ratio (aspectRatio : option jstring) : jstring :=
  default (lit "1:1") aspectRatio.

(** The calls the module makes. *)
Definition new_plan_request (env : Env) (userPrompt : jstring)
    (aspectRatio : option jstring) : Request :=
  GenerateContentRequest planner_model
    [TextPart (newImagePlanPrompt userPrompt (getCurrentLanguage env)
                 (default_ratio aspectRatio))]
    (schema_config generationPlanSchema).

Definition edit_plan_request (env : Env) (images : list SourceImage)
    (userPrompt : jstring) (useWebSearch : option bool)
    (aspectRatio : option jstring) : Request :=
  if default false useWebSearch then
    GenerateContentRequest planner_model
      (image_parts images ++
       [TextPart (webSearchPlanPrompt images userPrompt (getCurrentLanguage env)
                    (default_ratio aspectRatio))])
      web_search_config
  else
    GenerateContentRequest planner_model
      (image_parts images ++
       [TextPart (editPlanPrompt images userPrompt (getCurrentLanguage env)
                    (default_ratio aspectRatio))])
      (schema_config generationPlanSchema).

Definition imagen_request (prompt : JSValue) (aspectRatio : jstring) : Request :=
  GenerateImagesRequest imagen_model prompt 1 aspectRatio.

Definition edit_request (images : list SourceImage) (prompt : jstring) : Request :=
  GenerateContentRequest edit_model (image_parts images ++ [TextPart prompt])
    image_only_config.

(** The progress events that precede the plan of an edit turn. *)
Definition search_notices (useWebSearch : option bool) : list GeneratorYield :=
  if default false useWebSearch then
    [Progress (lit "Searching the web for inspiration...");
     Progress (lit "Analyzing results to craft prompts...")]
  else [].

(** ** Renders, seen from outside *)

(** The outcome of the render of a new image, after the calls [history]. *)
Definition new_render (env : Env) (history : list Request) (prompt : JSValue)
    (aspectRatio : jstring) : Result (option jstring) :=
  match models_generateImages env history (imagen_request prompt aspectRatio) with
  | Ok response => first_image_bytes env response
  | Throw t => Throw t
  end.

(** The calls an edit render makes: none without images. *)
Definition edit_calls (images : list SourceImage) (prompt : jstring)
  : list Request :=
  match images with
  | [] => []
  | _ :: _ => [edit_request images prompt]
  end.

(** The outcome of an edit render with a prompt that is not blank, after the
    calls [history]. *)
Definition edit_render (env : Env) (history : list Request)
    (images : list SourceImage) (prompt : jstring) : Result jstring :=
  match images with
  | [] => Throw (JsError no_image_input_message)
  | _ :: _ =>
      match models_generateContent env history (edit_request images prompt) with
      | Ok response => read_edited_image response
      | Throw (JsError message) => Throw (JsError message)
      | Throw (JsThrown _) => Throw (JsError could_not_edit_message)
      end
  end.

(** The prompt of a planned variation in a new-image turn and in an edit
    turn. *)
Definition new_prompt (userPrompt : jstring) (v : JSValue) : JSValue :=
  or_else (field v (lit "modifiedPrompt")) (JStr userPrompt).

Definition style_fallback (userPrompt : jstring) (v : JSValue) : jstring :=
  userPrompt ++ lit ", in the style of: " ++ string_of (field v (lit "title")).

Definition planned_prompt (userPrompt : jstring) (v : JSValue) : jstring :=
  let p := string_of (field v (lit "modifiedPrompt")) in
  if nonempty (trim p) then p else style_fallback userPrompt v.

(** ** What a variation event must look like *)

Definition new_payload (userPrompt aspectRatio : jstring) (v : JSValue)
  : RetryPayload :=
  {| payload_images := None; payload_prompt := new_prompt userPrompt v;
     payload_aspectRatio := Some aspectRatio |}.

Definition edit_payload (images : list SourceImage) (userPrompt : jstring)
    (v : JSValue) : RetryPayload :=
  {| payload_images := Some images;
     payload_prompt := JStr (planned_prompt userPrompt v);
     payload_aspectRatio := None |}.

(** [iv] reports the render of [v] that ended in [outcome]: a success with
    the image at [url], or an error state with the message of what was
    thrown and the payload [payload]. *)
Definition reports {A} (v : JSValue) (outcome : Result A) (url : A -> jstring)
    (payload : RetryPayload) (iv : ImageVariation) : Prop :=
  title iv = field v (lit "title")
  /\ description iv = field v (lit "description")
  /\ match outcome with
     | Ok image =>
         isError iv = false /\ imageUrl iv = url image
         /\ errorMessage iv = None /\ retryPayload iv = None
     | Throw t =>
         isError iv = true /\ imageUrl iv = []
         /\ errorMessage iv = Some (error_message t)
         /\ retryPayload iv = Some payload
     end.

(** Every event of [ivs] reports the render of the variation at the same
    position of the plan; [outcome i v] is how the render at position [i]
    ended. *)
Definition each_reports {A} (vs : list JSValue) (ivs : list ImageVariation)
    (outcome : nat -> JSValue -> Result A) (url : A -> jstring)
    (payload : JSValue -> RetryPayload) : Prop :=
  length ivs = length vs
  /\ forall i v iv,
       nth_error vs i = Some v -> nth_error ivs i = Some iv ->
       reports v (outcome i v) url (payload v) iv.

(** Every planned variation is one of the schema. *)
Definition all_specs (vs : list JSValue) : Prop :=
  Forall (fun v => is_variation_spec v = true) vs.

(** The state a generator is in once the planner has been called: [s0] is
    the state with the client, [req] the call, [notices] what was yielded
    before it. *)
Definition after_planning (s0 : State) (req : Request)
    (notices : list GeneratorYield) : State :=
  {| ai := ai s0; requests := requests s0 ++ [req];
     emitted := emitted s0 ++ notices; clock_reads := clock_reads s0;
     random_draws := random_draws s0 |}.

Definition png_url (bytes : option jstring) : jstring :=
  lit "data:image/png;base64," ++ template_opt bytes.

Definition edited_url (images : list SourceImage) (bytes : jstring) : jstring :=
  lit "data:" ++ match images with img :: _ => mimeType img | [] => [] end
    ++ lit ";base64," ++ bytes.

(** The events of the loop of [generateNewImages] over [vs], started after
    the calls [history] with the clock read [clock] times and the random
    source [draws] times. *)
Definition new_image_event (env : Env) (userPrompt aspectRatio : jstring)
    (v : JSValue) (outcome : Result (option jstring)) (clock draws : nat)
  : ImageVariation :=
  {| id := num_text (Date_now env clock) ++ num_text (Math_random env draws);
     title := field v (lit "title");
     description := field v (lit "description");
     imageUrl := match outcome with Ok bytes => png_url bytes | Throw _ => [] end;
     createdAt := Date_now env (S clock);
     isError := match outcome with Ok _ => false | Throw _ => true end;
     errorMessage :=
       match outcome with Ok _ => None | Throw t => Some (error_message t) end;
     retryPayload :=
       match outcome with
       | Ok _ => None
       | Throw _ => Some (new_payload userPrompt aspectRatio v)
       end |}.

Fixpoint new_image_events (env : Env) (userPrompt aspectRatio : jstring)
    (history : list Request) (clock draws : nat) (vs : list JSValue)
  : list ImageVariation :=
  match vs with
  | [] => []
  | v :: vs' =>
      let prompt := new_prompt userPrompt v in
      new_image_event env userPrompt aspectRatio v
        (new_render env history prompt aspectRatio) clock draws
      :: new_image_events env userPrompt aspectRatio
           (history ++ [imagen_request prompt aspectRatio])
           (2 + clock) (1 + draws) vs'
  end.

(** The same for the loop of [generateImageEdits]. *)
Definition edit_event (env : Env) (images : list SourceImage)
    (userPrompt : jstring) (v : JSValue) (outcome : Result jstring)
    (clock draws : nat) : ImageVariation :=
  {| id := num_text (Date_now env clock) ++ num_text (Math_random env draws);
     title := field v (lit "title");
     description := field v (lit "description");
     imageUrl :=
       match outcome with Ok bytes => edited_url images bytes | Throw _ => [] end;
     createdAt := Date_now env (S clock);
     isError := match outcome with Ok _ => false | Throw _ => true end;
     errorMessage :=
       match outcome with Ok _ => None | Throw t => Some (error_message t) end;
     retryPayload :=
       match outcome with
       | Ok _ => None
       | Throw _ => Some (edit_payload images userPrompt v)
       end |}.

Fixpoint edit_events (env : Env) (images : list SourceImage)
    (userPrompt : jstring) (history : list Request) (clock draws : nat)
    (vs : list JSValue) : list ImageVariation :=
  match vs with
  | [] => []
  | v :: vs' =>
      let prompt := planned_prompt userPrompt v in
      edit_event env images userPrompt v
        (edit_render env history images prompt) clock draws
      :: edit_events env images userPrompt
           (history ++ edit_calls images prompt) (2 + clock) (1 + draws) vs'
  end.

(** ** Counting events *)

Definition is_progress (ev : GeneratorYield) : bool :=
  match ev with Progress _ => true | _ => false end.
Definition is_plan (ev : GeneratorYield) : bool :=
  match ev with PlanReady _ _ => true | _ => false end.
Definition is_variation (ev : GeneratorYield) : bool :=
  match ev with Variation _ => true | _ => false end.

Definition count (p : GeneratorYield -> bool) (evs : list GeneratorYield) : nat :=
  length (filter p evs).

(** The variations among the events, in order. *)
Definition variations_of (evs : list GeneratorYield) : list ImageVariation :=
  flat_map (fun ev => match ev with Variation v => [v] | _ => [] end) evs.

(** ** Runs in which no render failure reaches beyond its variation *)

(** The new-image generator, started in [s] with the accepted plan [plan] of
    variations [vs], ends normally; it has called the planner and then made
    one render call per variation, in the order of the plan; it has yielded
    the plan, one progress notice and then one variation event per
    variation, in the order of the plan, each reporting how the render of
    its own variation ended. *)
Definition new_run_isolated (env : Env) (userPrompt : jstring)
    (useWebSearch : option bool) (aspectRatio : option jstring) (s : State)
    (plan : JSValue) (vs : list JSValue) : Prop :=
  let ratio := default_ratio aspectRatio in
  let planning := new_plan_request env userPrompt aspectRatio in
  let render v := imagen_request (new_prompt userPrompt v) ratio in
  exists s' ivs,
    generateNewImages env userPrompt useWebSearch aspectRatio s = (Ok tt, s')
    /\ requests s' = requests s ++ planning :: map render vs
    /\ emitted s'
       = emitted s ++ PlanReady plan None
           :: Progress (lit "Generating your new images...")
           :: map Variation ivs
    /\ each_reports vs ivs
         (fun i v =>
            new_render env (requests s ++ planning :: map render (firstn i vs))
              (new_prompt userPrompt v) ratio)
         png_url (new_payload userPrompt ratio).

(** The same for the edit generator; an edit render makes its call when
    there are images, and fails before calling when there are none. *)
Definition edit_run_isolated (env : Env) (images : list SourceImage)
    (userPrompt : jstring) (useWebSearch : option bool)
    (aspectRatio : option jstring) (s : State) (plan : JSValue)
    (vs : list JSValue) : Prop :=
  let planning :=
    edit_plan_request env images userPrompt useWebSearch aspectRatio in
  let render v := edit_calls images (planned_prompt userPrompt v) in
  exists s' ivs grounding,
    generateImageEdits env images userPrompt useWebSearch aspectRatio s = (Ok tt, s')
    /\ requests s' = requests s ++ planning :: flat_map render vs
    /\ emitted s'
       = emitted s ++ search_notices useWebSearch
           ++ PlanReady plan grounding
           :: Progress (lit "Remixing your image with new ideas...")
           :: map Variation ivs
    /\ each_reports vs ivs
         (fun i v =>
            edit_render env
              (requests s ++ planning :: flat_map render (firstn i vs))
              images (planned_prompt userPrompt v))
         (edited_url images) (edit_payload images userPrompt).

(** ** Runs that stop at the plan *)

(** The new-image generator, started in [s], throws after the single call to
    the planner and without having yielded anything; what it throws is the
    planning error (for a plan that is [null] the read of its text fails
    first). *)
Definition new_run_rejected (env : Env) (userPrompt : jstring)
    (useWebSearch : option bool) (aspectRatio : option jstring) (s : State)
    (plan : JSValue) : Prop :=
  exists t s',
    generateNewImages env userPrompt useWebSearch aspectRatio s = (Throw t, s')
    /\ (nullish plan = false -> t = JsError invalid_plan_message)
    /\ requests s' = requests s ++ [new_plan_request env userPrompt aspectRatio]
    /\ emitted s' = emitted s.

(** The same for the edit generator, which has yielded at most the two
    progress notices of the web search. *)
Definition edit_run_rejected (env : Env) (images : list SourceImage)
    (userPrompt : jstring) (useWebSearch : option bool)
    (aspectRatio : option jstring) (s : State) (plan : JSValue) : Prop :=
  exists t s',
    generateImageEdits env images userPrompt useWebSearch aspectRatio s = (Throw t, s')
    /\ (nullish plan = false -> t = JsError invalid_plan_message)
    /\ requests s'
       = requests s
           ++ [edit_plan_request env images userPrompt useWebSearch aspectRatio]
    /\ emitted s' = emitted s ++ search_notices useWebSearch
    /\ Forall (fun ev => is_progress ev = true) (search_notices useWebSearch).

(** ** The stream of a new-image turn *)

(** The new-image generator ends normally having yielded [evs]: one plan
    event, one progress event and [n] variation events, one per planned
    variation in the order of the plan, which the consumer receives in that
    order. *)
Definition new_stream (env : Env) (userPrompt : jstring)
    (useWebSearch : option bool) (aspectRatio : option jstring) (s : State)
    (plan : JSValue) (vs : list JSValue) (n : nat) : Prop :=
  exists s' evs ivs,
    generateNewImages env userPrompt useWebSearch aspectRatio s = (Ok tt, s')
    /\ emitted s' = emitted s ++ evs
    /\ count is_progress evs = 1%nat /\ count is_plan evs = 1%nat
    /\ count is_variation evs = n
    /\ length evs = (1 + 1 + n)%nat
    /\ variations_of evs = ivs
    /\ map title ivs = map (fun v => field v (lit "title")) vs
    /\ map description ivs = map (fun v => field v (lit "description")) vs
    /\ for_await evs
       = {| statusMessages := [lit "Generating your new images..."];
            planData := plan; groundingData := None;
            finalVariations := ivs |}.

(** ** The prompt of a variation that has none *)

(** In a new-image turn the variation at position [i] is rendered with the
    prompt of the user as it is, and that prompt is what the retry payload
    of its error state holds. *)
Definition new_fallback_used (env : Env) (userPrompt : jstring)
    (useWebSearch : option bool) (aspectRatio : option jstring) (s : State)
    (plan : JSValue) (i : nat) : Prop :=
  let ratio := default_ratio aspectRatio in
  exists s' ivs iv,
    generateNewImages env userPrompt useWebSearch aspectRatio s = (Ok tt, s')
    /\ emitted s'
       = emitted s ++ PlanReady plan None
           :: Progress (lit "Generating your new images...")
           :: map Variation ivs
    /\ nth_error ivs i = Some iv
    /\ nth_error (requests s') (length (requests s) + 1 + i)
       = Some (imagen_request (JStr userPrompt) ratio)
    /\ (isError iv = true ->
        retryPayload iv
        = Some {| payload_images := None; payload_prompt := JStr userPrompt;
                  payload_aspectRatio := Some ratio |}).

(** In an edit turn the variation [v] at position [i] is rendered with the
    prompt of the user followed by the title of [v], and that prompt is what
    the retry payload of its error state holds. *)
Definition edit_fallback_used (env : Env) (images : list SourceImage)
    (userPrompt : jstring) (useWebSearch : option bool)
    (aspectRatio : option jstring) (s : State) (plan v : JSValue) (i : nat)
  : Prop :=
  let fallback :=
    userPrompt ++ lit ", in the style of: " ++ string_of (field v (lit "title")) in
  exists s' ivs iv grounding,
    generateImageEdits env images userPrompt useWebSearch aspectRatio s = (Ok tt, s')
    /\ emitted s'
       = emitted s ++ search_notices useWebSearch
           ++ PlanReady plan grounding
           :: Progress (lit "Remixing your image with new ideas...")
           :: map Variation ivs
    /\ nth_error ivs i = Some iv
    /\ (images <> [] ->
        nth_error (requests s') (length (requests s) + 1 + i)
        = Some (edit_request images fallback))
    /\ (isError iv = true ->
        retryPayload iv
        = Some {| payload_images := Some images; payload_prompt := JStr fallback;
                  payload_aspectRatio := None |}).

(** ** Invariants of the events of a computation *)

(** Whatever [m] yields satisfies [P]. *)
Definition emits {A} (P : GeneratorYield -> Prop) (m : M A) : Prop :=
  forall s, exists evs,
    emitted (snd (m s)) = emitted s ++ evs /\ Forall P evs.

(** An event that is an error-state variation has a retry payload with
    exactly these images and this aspect ratio. *)
Definition carries_payload (images : option (list SourceImage))
    (aspectRatio : option jstring) (ev : GeneratorYield) : Prop :=
  match ev with
  | Variation iv =>
      isError iv = true ->
      exists prompt,
        retryPayload iv
        = Some {| payload_images := images; payload_prompt := prompt;
                  payload_aspectRatio := aspectRatio |}
  | _ => True
  end.

(** ** The auxiliary calls and the edit render *)

Definition segment_request (base64Data mimeType : jstring) : Request :=
  GenerateContentRequest planner_model
    [InlineDataPart base64Data mimeType; TextPart segmentPrompt]
    (schema_config objectDetectionSchema).

Definition mask_request (base64Data mimeType prompt maskBase64 : jstring) : Request :=
  GenerateContentRequest edit_model
    [InlineDataPart base64Data mimeType;
     InlineDataPart maskBase64 (lit "image/png");
     TextPart (maskEditPrompt prompt)]
    image_only_config.

Definition reposition_request
    (instructionImageBase64 mimeType generatedPrompt : jstring) : Request :=
  GenerateContentRequest edit_model
    [InlineDataPart instructionImageBase64 mimeType; TextPart generatedPrompt]
    image_only_config.

(** The answer has no candidates. *)
Definition no_candidates (response : GenerateContentResponse) : Prop :=
  candidates response = None \/ candidates response = Some [].

(** The parts of the first candidate hold no image data. *)
Definition no_image_data (response : GenerateContentResponse) : Prop :=
  exists candidate rest ps,
    candidates response = Some (candidate :: rest)
    /\ content candidate = Some {| parts := Some ps |}
    /\ Forall (fun part => image_data part = None) ps.

(** The prompt is no string, or an empty or white-space-only one. *)
Definition blank_or_not_string (prompt : JSValue) : bool :=
  match prompt with
  | JStr p => negb (nonempty (trim p))
  | _ => true
  end.

(** The image list is missing or empty. *)
Definition no_images (images : option (list SourceImage)) : bool :=
  match images with
  | Some (_ :: _) => false
  | _ => true
  end.

(* ================================================================== *)
(** * The rest of the service: [generateRepositionPrompt] *)
(* ================================================================== *)

(** The instruction of [generateRepositionPrompt]; [data] is the text of
    [JSON.stringify(movedObjectData, null, 2)]. *)
Definition repositionPrompt (data : jstring) : jstring :=
  lit "You are a VFX compositor prompt generator. An image with visual instructions (red arrows indicating movement) is provided. Based on the image and the structured data below, generate a concise, clear, and unambiguous instruction prompt for an image generation AI. The goal is to move objects from their original positions to the new positions indicated by the arrows and bounding boxes. The AI should realistically recompose the scene, filling in the background where objects used to be (in-painting) and ensuring the moved objects blend seamlessly in their new locations with correct lighting and shadows.

Moved Objects Data: "
  ++ data
  ++ lit "

The generated prompt must be a single, imperative command. For example: "
  ++ quoted (lit "Move the 'blue sedan' to the new position shown by the arrow, in-painting the original location.").

(** The call of [generateRepositionPrompt] passes no [config]: every field
    of it is absent. *)
Definition no_config : GenerateContentConfig :=
  {| responseMimeType := None; responseSchema := None; tools := [];
     responseModalities := [] |}.

Section Reposition.

Variable env : Env.

(** [JSON.stringify(v, null, 2)], of the engine. *)
Variable JSON_stringify : JSValue -> jstring.

Definition generateRepositionPrompt (instructionImageBase64 : jstring)
    (movedObjectData : JSValue) : M jstring :=
  client <- getAiClient env ;;
  let prompt := repositionPrompt (JSON_stringify movedObjectData) in
  response <- generateContent env client planner_model
                [InlineDataPart instructionImageBase64 (lit "image/png");
                 TextPart prompt]
                no_config ;;
  match text response with
  | Some t => ret (trim t)
  | None => lift (TypeError env (ReadOfNullish JUndefined (lit "trim")))
  end.

End Reposition.

(* ================================================================== *)
(** * The rest of the consumer: gallery and retry ([AlbumView]) *)
(* ================================================================== *)

(** An image of the gallery or of a chat message: an [ImageVariation] with
    its optional [isLoading] ([false] stands for the absent field too). *)
Record AlbumImage := { variation_of : ImageVariation; isLoading : bool }.

Definition image_id (img : AlbumImage) : jstring := id (variation_of img).

(** A result of a generator, as the loop stores it. *)
Definition received_image (result : ImageVariation) : AlbumImage :=
  {| variation_of := result; isLoading := false |}.

(** [l.findIndex(p)]: -1 when no element satisfies [p]. *)
Fixpoint findIndex {A} (p : A -> bool) (l : list A) : Z :=
  match l with
  | [] => (-1)%Z
  | x :: l' =>
      if p x then 0%Z
      else let i := findIndex p l' in
           if (i =? -1)%Z then (-1)%Z else (i + 1)%Z
  end.

(** [l[i] = x] for an index inside the array (the loop only assigns at an
    index that [findIndex] returned). *)
Fixpoint assign {A} (l : list A) (i : nat) (x : A) : list A :=
  match l, i with
  | [], _ => []
  | _ :: l', O => x :: l'
  | y :: l', S i' => y :: assign l' i' x
  end.

(** What the loop does to the gallery on a variation: the first image that
    is loading gives its place to the result; without one the gallery
    stays. *)
Definition place (gallery : list AlbumImage) (result : ImageVariation)
  : list AlbumImage :=
  let updatedGallery := gallery in
  let placeholderIndex := findIndex isLoading updatedGallery in
  if (placeholderIndex =? -1)%Z then gallery
  else assign updatedGallery (Z.to_nat placeholderIndex) (received_image result).

(** The state of the loop of [handleSendPrompt]: what [receive] keeps, and
    [currentAlbumState.galleryImages]. *)
Record Receiving := { received : Turn; currentGallery : list AlbumImage }.

Definition receive_in_album (r : Receiving) (result : GeneratorYield)
  : Receiving :=
  {| received := receive (received r) result;
     currentGallery :=
       match result with
       | Variation v => place (currentGallery r) v
       | _ => currentGallery r
       end |}.

(** The loop, started on the gallery with its placeholders. *)
Definition for_await_in_album (gallery : list AlbumImage)
    (events : list GeneratorYield) : Receiving :=
  fold_left receive_in_album events
    {| received := turn_start; currentGallery := gallery |}.

(** [galleryImages.filter(img => !img.isLoading)], published when the loop
    is over, whether the generator ended or threw. *)
Definition finalGallery (r : Receiving) : list AlbumImage :=
  filter (fun img => negb (isLoading img)) (currentGallery r).

(** [aspectRatio || '1:1'] *)
Definition ratio_or_square (aspectRatio : option jstring) : jstring :=
  match aspectRatio with
  | Some a => if nonempty a then a else lit "1:1"
  | None => lit "1:1"
  end.

Definition retry_failed_message : jstring := lit "Retry failed.".

Section Consumer.

Variable env : Env.

(** The three placeholders of a turn. *)
Definition placeholder (i : nat) : M AlbumImage :=
  t <- now env ;;
  created <- now env ;;
  ret {| variation_of :=
           {| id := lit "placeholder-" ++ num_text t ++ lit "-"
                      ++ lit (NilEmpty.string_of_uint (Nat.to_uint i));
              title := JStr (lit "Loading...");
              description := JStr (lit "...");
              imageUrl := []; createdAt := created; isError := false;
              errorMessage := None; retryPayload := None |};
         isLoading := true |}.

Definition placeholderVariations : M (list AlbumImage) :=
  p0 <- placeholder 0 ;; p1 <- placeholder 1 ;; p2 <- placeholder 2 ;;
  ret [p0; p1; p2].

(** The fields of a chat message and of an album that the retry does not
    look at are carried along. *)
Variables MessageRest AlbumRest : Type.

Record ChatMessage := {
  variations : option (list AlbumImage);
  message_rest : MessageRest
}.

Record Album := {
  galleryImages : list AlbumImage;
  chatHistory : list ChatMessage;
  album_rest : AlbumRest
}.

(** [updateVariationState]: the images with the identifier of the failed
    one are replaced, in the gallery and in the chat. *)
Definition swap (failedVariation updatedVariation img : AlbumImage) : AlbumImage :=
  if str_eqb (image_id img) (image_id failedVariation) then updatedVariation
  else img.

Definition updateVariationState (album : Album)
    (failedVariation updatedVariation : AlbumImage) : Album :=
  {| galleryImages :=
       map (swap failedVariation updatedVariation) (galleryImages album);
     chatHistory :=
       map (fun msg =>
              {| variations :=
                   option_map (map (swap failedVariation updatedVariation))
                     (variations msg);
                 message_rest := message_rest msg |})
           (chatHistory album);
     album_rest := album_rest album |}.

(** [{ ...failedVariation, isLoading: true, isError: false,
       errorMessage: undefined }] *)
Definition loadingVariation (failedVariation : AlbumImage) : AlbumImage :=
  let failed := variation_of failedVariation in
  {| variation_of :=
       {| id := id failed; title := title failed;
          description := description failed; imageUrl := imageUrl failed;
          createdAt := createdAt failed; isError := false;
          errorMessage := None; retryPayload := retryPayload failed |};
     isLoading := true |}.

(** [{ ...failedVariation, imageUrl, isLoading: false, isError: false,
       retryPayload: undefined, createdAt: new Date() }] *)
Definition newVariation (failedVariation : AlbumImage) (url : jstring)
    (created : JSNumber) : AlbumImage :=
  let failed := variation_of failedVariation in
  {| variation_of :=
       {| id := id failed; title := title failed;
          description := description failed; imageUrl := url;
          createdAt := created; isError := false;
          errorMessage := errorMessage failed; retryPayload := None |};
     isLoading := false |}.

(** [{ ...failedVariation, isLoading: false, isError: true, errorMessage }] *)
Definition newErrorVariation (failedVariation : AlbumImage) (error : Thrown)
  : AlbumImage :=
  let failed := variation_of failedVariation in
  {| variation_of :=
       {| id := id failed; title := title failed;
          description := description failed; imageUrl := imageUrl failed;
          createdAt := createdAt failed; isError := true;
          errorMessage :=
            Some (match error with
                  | JsError message => message
                  | JsThrown _ => retry_failed_message
                  end);
          retryPayload := retryPayload failed |};
     isLoading := false |}.

(** The render of a retry: the edit path when the payload has images, the
    new-image path otherwise; the answer is the data and its type. *)
Definition retry_render (payload : RetryPayload) : M (option jstring * jstring) :=
  match payload_images payload with
  | Some (img :: imgs) =>
      newImageBase64 <- retryImageGeneration env (Some (img :: imgs))
                          (payload_prompt payload) ;;
      ret (Some newImageBase64, mimeType img)
  | _ =>
      newImageBase64 <- retryNewImageGeneration env (payload_prompt payload)
                          (ratio_or_square (payload_aspectRatio payload)) ;;
      ret (newImageBase64, lit "image/png")
  end.

(** [handleRetryVariation]; the answer is the albums handed to
    [onUpdateAlbum], in order. *)
Definition handleRetryVariation (album : Album) (failedVariation : AlbumImage)
  : M (list Album) :=
  match retryPayload (variation_of failedVariation) with
  | None => ret []
  | Some payload =>
      let loading :=
        updateVariationState album failedVariation
          (loadingVariation failedVariation) in
      try_catch
        (rendered <- retry_render payload ;;
         let (newImageBase64, mime) := rendered in
         created <- now env ;;
         ret [loading;
              updateVariationState album failedVariation
                (newVariation failedVariation
                   (lit "data:" ++ mime ++ lit ";base64,"
                      ++ template_opt newImageBase64)
                   created)])
        (fun error =>
           (* console.error('Retry failed:', error) *)
           ret [loading;
                updateVariationState album failedVariation
                  (newErrorVariation failedVariation error)])
  end.

End Consumer.

(* ================================================================== *)
(** * Vocabulary of the further properties *)
(* ================================================================== *)

(** No client has been built and the environment holds no usable key. *)
Definition no_key (env : Env) (s : State) : Prop :=
  ai s = None /\ some_nonempty (API_KEY env) = false.

(** A computation that leaves the memoised client in place. *)
Definition keeps_client {A} (m : M A) : Prop :=
  forall s c, ai s = Some c -> ai (snd (m s)) = Some c.

(** The render calls of the two paths. *)
Definition is_new_render (aspectRatio : jstring) (req : Request) : Prop :=
  exists prompt, req = imagen_request prompt aspectRatio.

Definition is_edit_render (images : list SourceImage) (req : Request) : Prop :=
  exists prompt, req = edit_request images prompt.

(** What up to [n] turns of the loop of a generator have done when they
    end in [out], started in [s]: the client is the same, at most [n] calls
    were made, all of them renders, and at most [n] events were yielded,
    all of them variations; exactly [n] when the turns ended normally. *)
Definition turns_effect (is_render : Request -> Prop) (n : nat) (s : State)
    (out : Result unit * State) : Prop :=
  ai (snd out) = ai s
  /\ exists reqs ivs,
       requests (snd out) = requests s ++ reqs
       /\ emitted (snd out) = emitted s ++ map Variation ivs
       /\ (length reqs <= n)%nat /\ (length ivs <= n)%nat
       /\ Forall is_render reqs
       /\ (fst out = Ok tt -> length ivs = n).

(** [edit_prompt] touches no state: this is what it answers. *)
Definition edit_prompt_result (env : Env) (userPrompt : jstring)
    (variation : JSValue) : Result JSValue :=
  fst (edit_prompt env userPrompt variation initial).

(** How a run of a generator went that ended in [outcome], made the calls
    [reqs] and yielded the events [evs] (after the notices of the web
    search): either it stopped before the plan was accepted, with no event
    and at most the call to the planner, or it yielded the accepted plan,
    one progress notice and then variations only, and made the call to the
    planner and then renders only, no more of either than the plan has
    variations. *)
Definition run_shape (is_render : Request -> Prop) (planning : Request)
    (outcome : Result unit) (reqs : list Request) (evs : list GeneratorYield)
  : Prop :=
  (evs = [] /\ (reqs = [] \/ reqs = [planning]) /\ outcome <> Ok tt)
  \/ exists plan grounding message vs ivs renders,
       accepted plan vs
       /\ evs = PlanReady plan grounding :: Progress message :: map Variation ivs
       /\ reqs = planning :: renders
       /\ (length ivs <= length vs)%nat /\ (length renders <= length vs)%nat
       /\ Forall is_render renders
       /\ (outcome = Ok tt -> length ivs = length vs).

(** The call of [generateRepositionPrompt]; [data] is the text of the moved
    objects. *)
Definition reposition_prompt_request (instructionImageBase64 data : jstring)
  : Request :=
  GenerateContentRequest planner_model
    [InlineDataPart instructionImageBase64 (lit "image/png");
     TextPart (repositionPrompt data)]
    no_config.




(** The computation stops in [s] on the missing key: it throws and leaves
    the state as it was. *)
Definition stops_without_key {A} (s : State) (m : M A) : Prop :=
  m s = (Throw (JsError missing_key_message), s).



(* ================================================================== *)
(** * More of the concrete environment *)
(* ================================================================== *)

Module Cases.

(** The sample world without a key. *)
Definition keyless : Env :=
  {| API_KEY := None;
     getCurrentLanguage := lit "en";
     JSON_parse := Sample.parse [Sample.plan3];
     typeErrorMessage := Sample.type_error_text;
     models_generateContent := Sample.content_model Sample.plan3;
     models_generateImages := Sample.images_model;
     Date_now := fun n => Sample.number (1700000000000 + N.of_nat n);
     Math_random := fun n => Sample.number (N.of_nat n) |}.

(** A state in which two calls have been made: the next one fails in the
    sample world. *)
Definition busy : State :=
  {| ai := Some {| apiKey := lit "secret" |};
     requests := [imagen_request (JStr (lit "one")) (lit "1:1");
                  imagen_request (JStr (lit "two")) (lit "1:1")];
     emitted := []; clock_reads := 0; random_draws := 0 |}.

(** A state with a client and no call made yet. *)
Definition ready : State :=
  {| ai := Some {| apiKey := lit "secret" |}; requests := []; emitted := [];
     clock_reads := 0; random_draws := 0 |}.

(** An answer with one generated image that holds no bytes, and a world
    whose image model gives it. *)
Definition hollow_answer : GenerateImagesResponse :=
  {| generatedImages := Some [{| image := Some {| imageBytes := None |} |}];
     images_promptFeedback := None |}.

Definition hollow : Env :=
  {| API_KEY := Some (lit "secret");
     getCurrentLanguage := lit "en";
     JSON_parse := Sample.parse [Sample.plan3];
     typeErrorMessage := Sample.type_error_text;
     models_generateContent := Sample.content_model Sample.plan3;
     models_generateImages := fun _ _ => Ok hollow_answer;
     Date_now := fun n => Sample.number (1700000000000 + N.of_nat n);
     Math_random := fun n => Sample.number (N.of_nat n) |}.

Definition shown (name : string) : ImageVariation :=
  {| id := lit name; title := JStr (lit "Dusk"); description := JStr (lit "Soft.");
     imageUrl := lit "data:image/png;base64,T0xE";
     createdAt := Sample.number 1700000000000; isError := false;
     errorMessage := None; retryPayload := None |}.

(** A variation whose render failed. *)
Definition broken (payload : RetryPayload) : AlbumImage :=
  {| variation_of :=
       {| id := lit "17000000000050.3"; title := JStr (lit "Studio Shot");
          description := JStr (lit "A clean studio look."); imageUrl := [];
          createdAt := Sample.number 1700000000005; isError := true;
          errorMessage := Some (lit "429: quota exceeded");
          retryPayload := Some payload |};
     isLoading := false |}.

Definition new_again : RetryPayload :=
  {| payload_images := None; payload_prompt := JStr (lit "a red bicycle");
     payload_aspectRatio := Some (lit "16:9") |}.

Definition edit_again : RetryPayload :=
  {| payload_images := Some [Sample.png];
     payload_prompt := JStr (lit "a red bicycle, in the style of: Studio Shot");
     payload_aspectRatio := None |}.

(** An album that shows the failed variation in the gallery and in the
    chat, next to one that succeeded. *)
Definition album (payload : RetryPayload) : Album unit unit :=
  {| galleryImages := [received_image (shown "a"); broken payload];
     chatHistory :=
       [{| variations := None; message_rest := tt |};
        {| variations := Some [received_image (shown "a"); broken payload];
           message_rest := tt |}];
     album_rest := tt |}.

End Cases.

(** An event that is a variation is the error state of a render that was
    given no image. *)
Definition fails_for_no_image (ev : GeneratorYield) : Prop :=
  match ev with
  | Variation iv =>
      isError iv = true
      /\ errorMessage iv = Some no_image_input_message
      /\ exists prompt,
           retryPayload iv
           = Some {| payload_images := Some []; payload_prompt := prompt;
                     payload_aspectRatio := None |}
  | _ => True
  end.

(* ================================================================== *)
(** * Vocabulary of the plans a loop can work on *)
(* ================================================================== *)

(** [`${v}`] can be evaluated. *)
Definition printable (env : Env) (v : JSValue) : Prop :=
  exists shown, toStr env v = Ok shown.

(** An entry of a plan that the loops of both generators can work on: it
    is neither [null] nor [undefined], its title can be printed (the
    handlers print it), and its [modifiedPrompt] is a string or is falsy
    (it may be missing).  The entries of [generationPlanSchema] are of this
    kind. *)
Definition renderable (env : Env) (v : JSValue) : Prop :=
  nullish v = false
  /\ printable env (field v (lit "title"))
  /\ (is_string (field v (lit "modifiedPrompt")) = true
      \/ truthy (field v (lit "modifiedPrompt")) = false).








(** ** The payload of an error state, in any run *)




(** A plan of four entries, the third of which is [null], and a world in
    which the planner answers with it. *)
Module Loose.

Definition plan_gap : JSValue :=
  JObj [(lit "textResponse", JStr (lit "Four ideas."));
        (lit "variations", JArr [Sample.red; Sample.studio; JNull; Sample.dusk])].

Definition world : Env :=
  {| API_KEY := Some (lit "secret");
     getCurrentLanguage := lit "en";
     JSON_parse := Sample.parse [plan_gap];
     typeErrorMessage := Sample.type_error_text;
     models_generateContent := Sample.content_model plan_gap;
     models_generateImages := Sample.images_model;
     Date_now := fun n => Sample.number (1700000000000 + N.of_nat n);
     Math_random := fun n => Sample.number (N.of_nat n) |}.

(** An entry with no prompt of its own and a number for a title. *)
Definition bare : JSValue :=
  JObj [(lit "title", JNum (Sample.number 2));
        (lit "description", JStr (lit "No prompt."))].

Definition plan_bare : JSValue :=
  JObj [(lit "textResponse", JStr (lit "Three ideas."));
        (lit "variations", JArr [Sample.red; bare; Sample.dusk])].

Definition bare_world : Env :=
  {| API_KEY := Some (lit "secret");
     getCurrentLanguage := lit "en";
     JSON_parse := Sample.parse [plan_bare];
     typeErrorMessage := Sample.type_error_text;
     models_generateContent := Sample.content_model plan_bare;
     models_generateImages := Sample.images_model;
     Date_now := fun n => Sample.number (1700000000000 + N.of_nat n);
     Math_random := fun n => Sample.number (N.of_nat n) |}.

End Loose.

(* ================================================================== *)
(** * Facts about strings *)
(* ================================================================== *)

Unset Implicit Arguments.

Section StringFacts.

Lemma char_eqb_eq a b : char_eqb a b = true <-> a = b.
Proof. apply N.eqb_eq. Qed.

Lemma starts_with_app needle rest : starts_with needle (needle ++ rest) = true.
Proof.
  induction needle as [|c needle IH]; simpl; [reflexivity|].
  unfold char_eqb. rewrite N.eqb_refl. exact IH.
Qed.

Lemma includes_app_l needle pre s :
  includes needle s = true -> includes needle (pre ++ s) = true.
Proof.
  intros H. induction pre as [|c pre IH]; simpl; [exact H|].
  rewrite IH. apply orb_true_r.
Qed.

Lemma includes_middle needle pre post : includes needle (pre ++ needle ++ post) = true.
Proof.
  apply includes_app_l.
  assert (E : forall s, includes needle s = starts_with needle s ||
              match s with [] => false | _ :: s' => includes needle s' end)
    by (intros [|? ?]; reflexivity).
  rewrite E, starts_with_app. reflexivity.
Qed.

Lemma first_index_range p s :
  (-1 <= first_index p s < Z.of_nat (length s))%Z \/ (s = [] /\ first_index p s = (-1)%Z).
Proof.
  induction s as [|c s IH]; [right; auto|left].
  cbn [first_index length]. destruct (p c); [lia|].
  destruct (Z.eqb_spec (first_index p s) (-1)); [lia|].
  destruct IH as [IH|[-> IH]]; [lia|]. cbn in n. congruence.
Qed.

Lemma indexOf_first_index c s : indexOf c s = first_index (fun x => char_eqb x c) s.
Proof. induction s as [|x s IH]; simpl; [reflexivity|]. rewrite IH. reflexivity. Qed.

Lemma lastIndexOf_last_index c s : lastIndexOf c s = last_index (fun x => char_eqb x c) s.
Proof. induction s as [|x s IH]; simpl; [reflexivity|]. rewrite IH. reflexivity. Qed.

Lemma first_index_ge p s : (-1 <= first_index p s)%Z.
Proof.
  induction s as [|c s IH]; simpl; [lia|].
  destruct (p c); [lia|]. destruct (Z.eqb_spec (first_index p s) (-1)); lia.
Qed.

Lemma last_index_ge p s : (-1 <= last_index p s)%Z.
Proof.
  induction s as [|c s IH]; simpl; [lia|].
  destruct (Z.eqb_spec (last_index p s) (-1)); [destruct (p c); lia|lia].
Qed.

(** The start index computed by [extractJson] is the index of the first
    opening character of either kind. *)
Lemma start_is_first_opening text :
  (let firstBracket := indexOf 91%N text in
   let firstBrace := indexOf 123%N text in
   if (firstBracket =? -1)%Z then firstBrace
   else if (firstBrace =? -1)%Z then firstBracket
   else Z.min firstBracket firstBrace) = first_opening text.
Proof.
  cbv zeta. rewrite !indexOf_first_index. unfold first_opening.
  induction text as [|c text IH]; [reflexivity|].
  cbn [first_index]. unfold is_opening, char_eqb in *.
  pose proof (first_index_ge (fun x => (x =? 91)%N) text) as G1.
  pose proof (first_index_ge (fun x => (x =? 123)%N) text) as G2.
  pose proof (first_index_ge (fun c => ((c =? 91) || (c =? 123))%N) text) as G3.
  revert IH G1 G2 G3.
  generalize (first_index (fun x => (x =? 91)%N) text) as a.
  generalize (first_index (fun x => (x =? 123)%N) text) as b.
  generalize (first_index (fun c => ((c =? 91) || (c =? 123))%N) text) as d.
  intros d b a.
  destruct (N.eqb_spec c 91); destruct (N.eqb_spec c 123); cbn [orb];
    repeat match goal with
           | |- context [(?x =? ?y)%Z] => destruct (Z.eqb_spec x y)
           end; lia.
Qed.

(** The end index computed by [extractJson] is the index of the last
    closing character of either kind. *)
Lemma end_is_last_closing text :
  Z.max (lastIndexOf 93%N text) (lastIndexOf 125%N text) = last_closing text.
Proof.
  rewrite !lastIndexOf_last_index. unfold last_closing.
  induction text as [|c text IH]; [reflexivity|].
  cbn [last_index]. unfold is_closing, char_eqb in *.
  pose proof (last_index_ge (fun x => (x =? 93)%N) text) as G1.
  pose proof (last_index_ge (fun x => (x =? 125)%N) text) as G2.
  revert IH G1 G2.
  generalize (last_index (fun x => (x =? 93)%N) text) as a.
  generalize (last_index (fun x => (x =? 125)%N) text) as b.
  generalize (last_index (fun c => ((c =? 93) || (c =? 125))%N) text) as d.
  intros d b a.
  destruct (N.eqb_spec c 93); destruct (N.eqb_spec c 125); cbn [orb];
    repeat match goal with
           | |- context [(?x =? ?y)%Z] => destruct (Z.eqb_spec x y)
           end; lia.
Qed.

(** [bracket_search] in terms of the two indices. *)
Lemma bracket_search_spec text :
  bracket_search text =
  if ((first_opening text =? -1) || (last_closing text <? first_opening text))%Z
  then Throw (JsError (no_json_message text))
  else Ok (substring text (first_opening text) (last_closing text + 1)).
Proof.
  unfold bracket_search. cbv zeta.
  rewrite start_is_first_opening, end_is_last_closing.
  pose proof (first_index_ge is_opening text) as G. fold (first_opening text) in G.
  destruct (Z.eqb_spec (first_opening text) (-1)); [reflexivity|]. cbn [orb].
  destruct (Z.eqb_spec (last_closing text) (-1)) as [E|E]; [|reflexivity].
  cbn [orb]. destruct (Z.ltb_spec (last_closing text) (first_opening text)); [reflexivity|lia].
Qed.

Lemma extractJson_spec text :
  extractJson text =
  match fenced_group text with
  | Some g => Ok (trim g)
  | None => bracket_search text
  end.
Proof.
  unfold extractJson, fenced_group.
  destruct (Regex.search Regex.fence_re text) as [g|]; [|reflexivity].
  destruct (nonempty g); reflexivity.
Qed.

End StringFacts.

(* ================================================================== *)
(** * Facts about the fence pattern *)
(* ================================================================== *)

Section TrimFacts.

Lemma trimStart_split s :
  exists ws, s = ws ++ trimStart s /\ forallb is_space ws = true.
Proof.
  induction s as [|c s [ws [E F]]]; [exists []; auto|].
  cbn [trimStart]. destruct (is_space c) eqn:Hc.
  - exists (c :: ws). cbn. rewrite Hc, F, <- E. auto.
  - exists []. auto.
Qed.

Lemma trimStart_head s c r : trimStart s = c :: r -> is_space c = false.
Proof.
  induction s as [|x s IH]; cbn; [discriminate|].
  destruct (is_space x) eqn:Hx; [exact IH|]. intros E. injection E as -> _. exact Hx.
Qed.

Lemma trimStart_spaces ws s :
  forallb is_space ws = true -> trimStart (ws ++ s) = trimStart s.
Proof.
  induction ws as [|c ws IH]; cbn; [reflexivity|].
  intros H. apply andb_true_iff in H as [-> H]. auto.
Qed.

(** White space is skipped no further than the first other character. *)
Lemma trimStart_stops a c b :
  is_space c = false ->
  exists k, (k <= length a)%nat /\ trimStart (a ++ c :: b) = skipn k (a ++ c :: b).
Proof.
  intros Hc. induction a as [|x a [k [Hk E]]]; cbn.
  - exists 0%nat. rewrite Hc. auto.
  - destruct (is_space x).
    + exists (S k). split; [lia|exact E].
    + exists 0%nat. split; [lia|reflexivity].
Qed.

Lemma trimStart_trim s :
  exists ws2, trimStart s = trim s ++ ws2 /\ forallb is_space ws2 = true.
Proof.
  destruct (trimStart_split (rev (trimStart s))) as [w [E F]].
  exists (rev w). split.
  - unfold trim, trimEnd. rewrite <- rev_app_distr, <- E, rev_involutive. reflexivity.
  - rewrite forallb_forall in *. intros x Hx. apply F. now apply in_rev.
Qed.

(** A string is white space, its trimmed text, white space. *)
Lemma trim_split s :
  exists ws1 ws2, s = ws1 ++ trim s ++ ws2
                  /\ forallb is_space ws1 = true /\ forallb is_space ws2 = true.
Proof.
  destruct (trimStart_split s) as [ws1 [E1 F1]].
  destruct (trimStart_trim s) as [ws2 [E2 F2]].
  exists ws1, ws2. rewrite <- E2. auto.
Qed.

(** The trimmed text, when there is some, ends on a character that is not
    white space. *)
Lemma trim_last s :
  trim s <> [] -> exists a c, trim s = a ++ [c] /\ is_space c = false.
Proof.
  unfold trim, trimEnd. destruct (trimStart (rev (trimStart s))) as [|c r] eqn:E.
  - intros H. now destruct H.
  - intros _. exists (rev r), c. split; [reflexivity|]. eapply trimStart_head; eauto.
Qed.

(** ... and begins on one. *)
Lemma trim_first s c r : trim s = c :: r -> is_space c = false.
Proof.
  intros E. destruct (trimStart_trim s) as [ws2 [T _]].
  rewrite E in T. eapply trimStart_head. exact T.
Qed.

Lemma trimStart_fixed c r : is_space c = false -> trimStart (c :: r) = c :: r.
Proof. intros H. cbn. now rewrite H. Qed.

(** Trimming a second time changes nothing. *)
Lemma trim_trim s : trim (trim s) = trim s.
Proof.
  destruct (trim s) as [|c r] eqn:E; [reflexivity|].
  pose proof (trim_first s c r E) as Hc.
  assert (N : trim s <> []) by (rewrite E; discriminate).
  destruct (trim_last s N) as [a [z [Ez Hz]]]. rewrite E in Ez.
  unfold trim at 1. rewrite trimStart_fixed by exact Hc.
  unfold trimEnd. rewrite Ez, rev_app_distr. cbn [rev app].
  rewrite trimStart_fixed by exact Hz. cbn [rev]. now rewrite rev_involutive.
Qed.

End TrimFacts.

Section FenceFacts.

Import Regex.

Lemma fence_re_eq :
  fence_re = literal open_fence ++ StarGreedy Space :: GroupLazy AnyChar :: closing.
Proof. reflexivity. Qed.

Lemma run_nil s cap : run s [] cap = Some (rev cap).
Proof. destruct s; reflexivity. Qed.

Lemma run_one s a ns cap :
  run s (One a :: ns) cap =
  match s with
  | c :: s' => if accepts a c then run s' ns cap else None
  | [] => None
  end.
Proof. destruct s; reflexivity. Qed.

Lemma run_star s a ns cap :
  run s (StarGreedy a :: ns) cap =
  match s with
  | c :: s' =>
      if accepts a c then
        match run s' (StarGreedy a :: ns) cap with
        | Some r => Some r
        | None => run s ns cap
        end
      else run s ns cap
  | [] => run s ns cap
  end.
Proof. destruct s; reflexivity. Qed.

Lemma run_group s a ns cap :
  run s (GroupLazy a :: ns) cap =
  match run s ns cap with
  | Some r => Some r
  | None =>
      match s with
      | c :: s' => if accepts a c then run s' (GroupLazy a :: ns) (c :: cap) else None
      | [] => None
      end
  end.
Proof. destruct s; reflexivity. Qed.

Lemma search_eq re s :
  search re s =
  match run s re [] with
  | Some g => Some g
  | None => match s with [] => None | _ :: s' => search re s' end
  end.
Proof. destruct s; reflexivity. Qed.

(** A literal matches exactly where the text starts with it. *)
Lemma run_literal l : forall s rest cap,
  run s (literal l ++ rest) cap =
  if starts_with l s then run (skipn (length l) s) rest cap else None.
Proof.
  induction l as [|a l IH]; intros s rest cap.
  - destruct s; reflexivity.
  - cbn [literal map app]. rewrite run_one. destruct s as [|c s]; [reflexivity|].
    cbn [accepts starts_with length skipn]. destruct (char_eqb a c); [|reflexivity].
    apply IH.
Qed.

Lemma skipn_length_app {A} (l r : list A) : skipn (length l) (l ++ r) = r.
Proof. induction l; cbn; auto. Qed.

Lemma skipn_add_app {A} (l r : list A) n : skipn (length l + n) (l ++ r) = skipn n r.
Proof. induction l; cbn; auto. Qed.

Lemma space_not_backtick c : is_space c = true -> char_eqb 96%N c = false.
Proof.
  intros H. unfold char_eqb. destruct (N.eqb_spec 96 c) as [<-|]; [discriminate H|reflexivity].
Qed.

(** [\s*```] matches exactly where white space and then the fence come. *)
Lemma run_closing s : forall cap,
  run s closing cap = if closes s then Some (rev cap) else None.
Proof.
  assert (L : forall s cap, run s (literal close_fence) cap =
                            if starts_with close_fence s then Some (rev cap) else None).
  { intros x cap. rewrite <- (app_nil_r (literal close_fence)), run_literal.
    now rewrite run_nil. }
  unfold closing, closes.
  induction s as [|c s IH]; intros cap; rewrite run_star.
  - apply L.
  - cbn [accepts trimStart]. destruct (is_space c) eqn:Hc; [|apply L].
    rewrite IH. destruct (starts_with close_fence (trimStart s)); [reflexivity|].
    rewrite L. cbn [close_fence lit list_ascii_of_string map starts_with].
    change (N_of_ascii "`") with 96%N. now rewrite (space_not_backtick c Hc).
Qed.

Lemma run_capture s cap :
  run s (GroupLazy AnyChar :: closing) cap =
  if closes s then Some (rev cap)
  else match s with
       | c :: s' => run s' (GroupLazy AnyChar :: closing) (c :: cap)
       | [] => None
       end.
Proof.
  rewrite run_group, run_closing. destruct (closes s); [reflexivity|].
  destruct s; reflexivity.
Qed.

(** The lazy group takes the text up to the first place that closes. *)
Lemma lazy_capture core : forall rest cap,
  (forall i, (i < length core)%nat -> closes (skipn i (core ++ rest)) = false) ->
  closes rest = true ->
  run (core ++ rest) (GroupLazy AnyChar :: closing) cap = Some (rev cap ++ core).
Proof.
  induction core as [|c core IH]; intros rest cap Hin Hend; rewrite run_capture.
  - cbn [app]. rewrite Hend, app_nil_r. reflexivity.
  - assert (H0 : closes ((c :: core) ++ rest) = false)
      by (apply (Hin 0%nat); cbn; lia).
    rewrite H0. cbn [app].
    rewrite IH; [cbn [rev]; now rewrite <- app_assoc| |exact Hend].
    intros i Hi. apply (Hin (S i)). cbn. lia.
Qed.

(** The greedy star runs over leading white space. *)
Lemma star_skips ws : forall s ns cap r,
  forallb is_space ws = true ->
  run s (StarGreedy Space :: ns) cap = Some r ->
  run (ws ++ s) (StarGreedy Space :: ns) cap = Some r.
Proof.
  induction ws as [|c ws IH]; intros s ns cap r F H; [exact H|].
  cbn in F. apply andb_true_iff in F as [Hc F].
  cbn [app]. rewrite run_star. cbn [accepts]. rewrite Hc.
  now rewrite (IH s ns cap r F H).
Qed.

Lemma find_sub_before needle : forall s k,
  find_sub needle s = Some k ->
  forall i, (i < k)%nat -> starts_with needle (skipn i s) = false.
Proof.
  induction s as [|c s IH]; intros k H i Hi.
  - cbn in H. destruct (starts_with needle []); inversion H; subst; lia.
  - cbn [find_sub] in H. destruct (starts_with needle (c :: s)) eqn:E.
    + inversion H; subst; lia.
    + destruct (find_sub needle s) as [k'|] eqn:F; [|discriminate].
      cbn in H. inversion H; subst. destruct i as [|i]; [exact E|].
      cbn [skipn]. apply (IH k' eq_refl). lia.
Qed.

(** No start before the opening fence matches. *)
Lemma search_skips pre : forall s,
  (forall i, (i < length pre)%nat -> starts_with open_fence (skipn i (pre ++ s)) = false) ->
  search fence_re (pre ++ s) = search fence_re s.
Proof.
  induction pre as [|c pre IH]; intros s H; [reflexivity|].
  rewrite search_eq, fence_re_eq, run_literal.
  assert (H0 : starts_with open_fence ((c :: pre) ++ s) = false)
    by (apply (H 0%nat); cbn; lia).
  rewrite H0. cbn [app]. rewrite <- fence_re_eq. apply IH.
  intros i Hi. apply (H (S i)). cbn. lia.
Qed.

(** Inside the trimmed body nothing closes the block. *)
Lemma closes_inside a c rest :
  is_space c = false ->
  (forall j, (j < length (a ++ [c]))%nat ->
             starts_with close_fence (skipn j ((a ++ [c]) ++ rest)) = false) ->
  forall i, (i < length (a ++ [c]))%nat -> closes (skipn i ((a ++ [c]) ++ rest)) = false.
Proof.
  intros Hc H i Hi. rewrite length_app in *. cbn [length] in *.
  rewrite <- app_assoc. cbn [app].
  assert (E : skipn i (a ++ c :: rest) = skipn i a ++ c :: rest).
  { rewrite skipn_app. replace (i - length a)%nat with 0%nat by lia. reflexivity. }
  unfold closes. rewrite E.
  destruct (trimStart_stops (skipn i a) c rest Hc) as [k [Hk ->]].
  rewrite <- E, skipn_skipn. rewrite length_skipn in Hk.
  specialize (H (k + i)%nat). rewrite <- app_assoc in H. apply H. lia.
Qed.

(** The pattern on a fenced block: the group is the trimmed body. *)
Lemma search_fenced pre body post :
  find_sub open_fence (pre ++ open_fence ++ body ++ close_fence ++ post)
    = Some (length pre) ->
  find_sub close_fence (body ++ close_fence ++ post) = Some (length body) ->
  trim body <> [] ->
  search fence_re (pre ++ open_fence ++ body ++ close_fence ++ post)
    = Some (trim body).
Proof.
  intros Hopen Hclose Hbody.
  rewrite search_skips by (apply find_sub_before; exact Hopen).
  rewrite search_eq, fence_re_eq, run_literal, starts_with_app, skipn_length_app.
  destruct (trim_split body) as [ws1 [ws2 [Eb [F1 F2]]]].
  destruct (trim_last body Hbody) as [a [c [Ec Hc]]].
  pose proof (trim_first body) as Hfirst.
  pose proof (find_sub_before close_fence _ _ Hclose) as Hno.
  revert Hbody Eb Ec Hfirst Hno. generalize (trim body) as core.
  intros core Hbody Eb Ec Hfirst Hno.
  assert (R : run (body ++ close_fence ++ post)
                (StarGreedy Space :: GroupLazy AnyChar :: closing) []
              = Some core); [|now rewrite R].
  subst body. rewrite <- app_assoc. apply star_skips; [exact F1|].
  rewrite <- app_assoc.
  destruct core as [|c0 r0]; [now destruct Hbody|].
  rewrite run_star. cbn [app accepts]. rewrite (Hfirst c0 r0 eq_refl).
  change (c0 :: r0 ++ ws2 ++ close_fence ++ post)
    with ((c0 :: r0) ++ ws2 ++ close_fence ++ post).
  rewrite lazy_capture; [reflexivity| |].
  - rewrite Ec. apply closes_inside; [exact Hc|].
    intros j Hj. rewrite <- Ec. rewrite <- Ec in Hj.
    specialize (Hno (length ws1 + j)%nat).
    rewrite <- !app_assoc, skipn_add_app in Hno. apply Hno.
    rewrite !length_app. lia.
  - unfold closes. rewrite trimStart_spaces by exact F2.
    change (trimStart (close_fence ++ post)) with (close_fence ++ post).
    apply starts_with_app.
Qed.

End FenceFacts.

(* ================================================================== *)
(** * Facts about the service *)
(* ================================================================== *)

Arguments lit : simpl never.

Section ServiceFacts.

Variable env : Env.

Lemma get_field v k : nullish v = false -> get env v k = Ok (field v k).
Proof. destruct v; intros H; (discriminate H || reflexivity). Qed.

Lemma spec_fields v :
  is_variation_spec v = true ->
  nullish v = false
  /\ exists t d p,
       field v (lit "title") = JStr t
       /\ field v (lit "description") = JStr d
       /\ field v (lit "modifiedPrompt") = JStr p.
Proof.
  unfold is_variation_spec. intros H.
  apply andb_true_iff in H as [H Hp]. apply andb_true_iff in H as [H Hd].
  apply andb_true_iff in H as [Ho Ht]. split; [destruct v; (discriminate Ho || reflexivity)|].
  destruct (field v (lit "title")) as [| | | |t| |]; try discriminate Ht.
  destruct (field v (lit "description")) as [| | | |d| |]; try discriminate Hd.
  destruct (field v (lit "modifiedPrompt")) as [| | | |p| |]; try discriminate Hp.
  exists t, d, p. repeat split.
Qed.

Lemma trim_nonblank s c :
  In c s -> is_space c = false -> nonempty (trim s) = true.
Proof.
  intros Hin Hc. destruct (trim_split s) as [ws1 [ws2 [E [F1 F2]]]].
  rewrite forallb_forall in F1, F2.
  rewrite E in Hin. apply in_app_or in Hin as [H|H].
  - rewrite (F1 c H) in Hc. discriminate.
  - apply in_app_or in H as [H|H].
    + destruct (trim s); [destruct H|reflexivity].
    + rewrite (F2 c H) in Hc. discriminate.
Qed.

Lemma trim_nonempty s : nonempty (trim s) = true -> nonempty s = true.
Proof. destruct s; [discriminate|reflexivity]. Qed.

(** The prompt of an edit render is never blank. *)
Lemma planned_prompt_valid userPrompt v :
  nonempty (planned_prompt userPrompt v) = true
  /\ nonempty (trim (planned_prompt userPrompt v)) = true.
Proof.
  unfold planned_prompt. cbv zeta.
  destruct (nonempty (trim (string_of (field v (lit "modifiedPrompt"))))) eqn:E.
  - split; [apply trim_nonempty|]; exact E.
  - assert (T : nonempty (trim (style_fallback userPrompt v)) = true).
    { apply (trim_nonblank _ 44%N); [|reflexivity].
      unfold style_fallback. apply in_or_app. right. apply in_or_app. left.
      left. reflexivity. }
    split; [apply trim_nonempty|]; exact T.
Qed.

(* ---------------------------------------------------------------- *)
(** ** The client *)

Lemma getAiClient_cached s c : ai s = Some c -> getAiClient env s = (Ok c, s).
Proof. intros H. unfold getAiClient. now rewrite H. Qed.

Lemma getAiClient_ready s :
  client_ready env s ->
  exists c s1,
    getAiClient env s = (Ok c, s1) /\ ai s1 = Some c
    /\ requests s1 = requests s /\ emitted s1 = emitted s
    /\ clock_reads s1 = clock_reads s /\ random_draws s1 = random_draws s.
Proof.
  intros H. unfold getAiClient. destruct (ai s) as [c|] eqn:E.
  - exists c, s. repeat split; auto.
  - destruct H as [H|H]; [now destruct H|].
    destruct (API_KEY env) as [key|]; [|discriminate H]. cbn in H. rewrite H.
    eexists _, _. split; [reflexivity|]. cbn. repeat split; auto.
Qed.

(* ---------------------------------------------------------------- *)
(** ** The two renders *)

Lemma retryNewImageGeneration_run s c prompt aspectRatio :
  ai s = Some c ->
  retryNewImageGeneration env prompt aspectRatio s
  = (new_render env (requests s) prompt aspectRatio,
     log (imagen_request prompt aspectRatio) s).
Proof.
  intros H. unfold retryNewImageGeneration, bind.
  rewrite (getAiClient_cached s c H). unfold generateImages, new_render, imagen_request.
  destruct (models_generateImages env (requests s) _); reflexivity.
Qed.

Lemma read_edited_image_throws response t :
  read_edited_image response = Throw t -> exists message, t = JsError message.
Proof.
  unfold read_edited_image.
  destruct (candidates response) as [[|candidate ?]|];
    try (destruct (block_reason _); intros H; inversion H; eauto).
  destruct (content candidate) as [[[ps|]]|]; try (intros H; inversion H; eauto; fail).
  destruct (fold_left scan_part ps (None, None)) as [[img|] [t'|]];
    intros H; inversion H; eauto.
Qed.

Lemma editImageInternal_run s c images p :
  ai s = Some c ->
  nonempty p = true -> nonempty (trim p) = true ->
  editImageInternal env (Some images) (JStr p) s
  = (edit_render env (requests s) images p,
     {| ai := ai s; requests := requests s ++ edit_calls images p;
        emitted := emitted s; clock_reads := clock_reads s;
        random_draws := random_draws s |}).
Proof.
  intros H Hp Ht. unfold editImageInternal, try_catch. rewrite Hp, Ht. cbn [negb orb].
  destruct images as [|img images].
  - cbn. rewrite app_nil_r. destruct s; reflexivity.
  - unfold bind. rewrite (getAiClient_cached s c H).
    unfold generateContent, edit_render, edit_calls, edit_request, log.
    destruct (models_generateContent env (requests s) _) as [response|[message|x]];
      cbn; try reflexivity.
    destruct (read_edited_image response) as [bytes|t] eqn:E; [reflexivity|].
    destruct (read_edited_image_throws response t E) as [message ->]. reflexivity.
Qed.

(* ---------------------------------------------------------------- *)
(** ** One turn of each loop, for a variation of the schema *)

Lemma edit_prompt_run userPrompt v s :
  is_variation_spec v = true ->
  edit_prompt env userPrompt v s = (Ok (JStr (planned_prompt userPrompt v)), s).
Proof.
  intros H. destruct (spec_fields v H) as [Hn [t [d [p [Et [Ed Ep]]]]]].
  unfold edit_prompt, bind, lift, planned_prompt, style_fallback.
  rewrite !(get_field v _ Hn), Ep, Et. cbn [string_of].
  unfold or_else. cbn [truthy].
  destruct p as [|x p]; [reflexivity|]. cbn [nonempty call_trim].
  destruct (nonempty (trim (x :: p))); reflexivity.
Qed.

Lemma new_image_turn_run userPrompt aspectRatio v s c :
  ai s = Some c ->
  is_variation_spec v = true ->
  new_image_turn env userPrompt aspectRatio v s
  = (Ok tt,
     {| ai := ai s;
        requests := requests s
                      ++ [imagen_request (new_prompt userPrompt v) aspectRatio];
        emitted := emitted s
                     ++ [Variation
                           (new_image_event env userPrompt aspectRatio v
                              (new_render env (requests s)
                                 (new_prompt userPrompt v) aspectRatio)
                              (clock_reads s) (random_draws s))];
        clock_reads := 2 + clock_reads s;
        random_draws := 1 + random_draws s |}).
Proof.
  intros Hc H. destruct (spec_fields v H) as [Hn [t [d [p [Et [Ed Ep]]]]]].
  unfold new_image_turn, try_catch, bind, lift.
  rewrite !(get_field v _ Hn). fold (new_prompt userPrompt v).
  rewrite (retryNewImageGeneration_run s c _ _ Hc).
  unfold new_image_event, new_payload.
  destruct (new_render env (requests s) (new_prompt userPrompt v) aspectRatio).
  - reflexivity.
  - rewrite Et. reflexivity.
Qed.

Lemma edit_turn_run images userPrompt v s c :
  ai s = Some c ->
  is_variation_spec v = true ->
  edit_turn env images userPrompt v s
  = (Ok tt,
     {| ai := ai s;
        requests := requests s
                      ++ edit_calls images (planned_prompt userPrompt v);
        emitted := emitted s
                     ++ [Variation
                           (edit_event env images userPrompt v
                              (edit_render env (requests s) images
                                 (planned_prompt userPrompt v))
                              (clock_reads s) (random_draws s))];
        clock_reads := 2 + clock_reads s;
        random_draws := 1 + random_draws s |}).
Proof.
  intros Hc H. destruct (spec_fields v H) as [Hn [t [d [p [Et [Ed Ep]]]]]].
  destruct (planned_prompt_valid userPrompt v) as [V1 V2].
  unfold edit_turn, try_catch. unfold bind at 1.
  rewrite (edit_prompt_run userPrompt v s H). unfold bind at 1.
  rewrite (editImageInternal_run s c images _ Hc V1 V2).
  unfold edit_event, edit_payload.
  destruct (edit_render env (requests s) images (planned_prompt userPrompt v))
    as [bytes|e] eqn:E.
  - destruct images as [|img images]; [discriminate E|].
    unfold bind, lift. rewrite !(get_field v _ Hn). reflexivity.
  - unfold bind, lift. rewrite !(get_field v _ Hn), !Et. cbn [toStr].
    rewrite edit_prompt_run by exact H. reflexivity.
Qed.

End ServiceFacts.

(* ================================================================== *)
(** * Facts about the two generators *)
(* ================================================================== *)

Section GeneratorFacts.

Variable env : Env.

Lemma accepted_not_nullish plan vs : accepted plan vs -> nullish plan = false.
Proof. intros [H _]. destruct plan; (discriminate H || reflexivity). Qed.

Lemma check_plan_accepted plan vs s :
  accepted plan vs -> check_plan env plan s = (Ok vs, s).
Proof.
  intros A. pose proof (accepted_not_nullish plan vs A) as N.
  destruct A as [Ht [Ev Hv]]. unfold check_plan, bind, lift.
  rewrite !(get_field env plan _ N), Ht, Ev. destruct vs; [now destruct Hv|reflexivity].
Qed.

Lemma check_plan_rejected plan s :
  rejected plan ->
  exists t, check_plan env plan s = (Throw t, s)
            /\ (nullish plan = false -> t = JsError invalid_plan_message).
Proof.
  intros R. unfold check_plan, bind, lift. destruct (nullish plan) eqn:N.
  - destruct plan; try discriminate N; eexists; (split; [reflexivity|discriminate]).
  - rewrite !(get_field env plan _ N).
    destruct (truthy (field plan (lit "textResponse"))) eqn:T; cbn [negb].
    + destruct R as [R|R]; [congruence|].
      destruct (field plan (lit "variations")) as [| | | | |[|v vs]|];
        try discriminate R; eexists; (split; [reflexivity|reflexivity]).
    + eexists. split; reflexivity.
Qed.

Lemma parse_response_run response t json plan s :
  text response = Some t -> extractJson t = Ok json ->
  JSON_parse env json = Ok plan ->
  parse_response env response s = (Ok plan, s).
Proof.
  intros Ht Hj Hp. unfold parse_response, bind, lift. now rewrite Ht, Hj, Hp.
Qed.

(* ---------------------------------------------------------------- *)
(** ** The loops *)

Lemma new_loop_run userPrompt aspectRatio vs : forall s c,
  ai s = Some c -> all_specs vs ->
  for_of vs (new_image_turn env userPrompt aspectRatio) s
  = (Ok tt,
     {| ai := ai s;
        requests := requests s
          ++ map (fun v => imagen_request (new_prompt userPrompt v) aspectRatio) vs;
        emitted := emitted s
          ++ map Variation
               (new_image_events env userPrompt aspectRatio (requests s)
                  (clock_reads s) (random_draws s) vs);
        clock_reads := 2 * length vs + clock_reads s;
        random_draws := length vs + random_draws s |}).
Proof.
  induction vs as [|v vs IH]; intros s c Hc Hs.
  - cbn. rewrite !app_nil_r. destruct s; reflexivity.
  - inversion Hs as [|? ? Hv Hvs]; subst.
    cbn [for_of]. unfold bind. rewrite (new_image_turn_run env _ _ v s c Hc Hv).
    rewrite (IH _ c) by (try exact Hvs; exact Hc).
    cbn [ai requests emitted clock_reads random_draws map new_image_events length].
    rewrite <- !app_assoc. cbn [app]. do 2 f_equal; lia.
Qed.

Lemma edit_loop_run images userPrompt vs : forall s c,
  ai s = Some c -> all_specs vs ->
  for_of vs (edit_turn env images userPrompt) s
  = (Ok tt,
     {| ai := ai s;
        requests := requests s
          ++ flat_map (fun v => edit_calls images (planned_prompt userPrompt v)) vs;
        emitted := emitted s
          ++ map Variation
               (edit_events env images userPrompt (requests s)
                  (clock_reads s) (random_draws s) vs);
        clock_reads := 2 * length vs + clock_reads s;
        random_draws := length vs + random_draws s |}).
Proof.
  induction vs as [|v vs IH]; intros s c Hc Hs.
  - cbn. rewrite !app_nil_r. destruct s; reflexivity.
  - inversion Hs as [|? ? Hv Hvs]; subst.
    cbn [for_of]. unfold bind. rewrite (edit_turn_run env _ _ v s c Hc Hv).
    rewrite (IH _ c) by (try exact Hvs; exact Hc).
    cbn [ai requests emitted clock_reads random_draws map flat_map edit_events length].
    rewrite <- !app_assoc. cbn [app]. do 2 f_equal; lia.
Qed.

(* ---------------------------------------------------------------- *)
(** ** Up to the plan *)

Lemma generateNewImages_planned userPrompt useWebSearch aspectRatio s plan :
  client_ready env s ->
  plan_arrives env s (new_plan_request env userPrompt aspectRatio) plan ->
  exists c s0,
    ai s0 = Some c /\ requests s0 = requests s /\ emitted s0 = emitted s
    /\ clock_reads s0 = clock_reads s /\ random_draws s0 = random_draws s
    /\ generateNewImages env userPrompt useWebSearch aspectRatio s
       = (variations <- check_plan env plan ;;
          yield (PlanReady plan None) ;;
          yield (Progress (lit "Generating your new images...")) ;;
          for_of variations
            (new_image_turn env userPrompt (default_ratio aspectRatio)))
           (after_planning s0 (new_plan_request env userPrompt aspectRatio) []).
Proof.
  intros R [response [t [json [Hr [Ht [Hj Hp]]]]]].
  destruct (getAiClient_ready env s R) as [c [s0 [G [A [Q [E [C D]]]]]]].
  exists c, s0. repeat (split; [assumption|]).
  unfold generateNewImages. cbv zeta. unfold bind at 1. rewrite G.
  unfold bind at 1. unfold generateContent at 1. rewrite Q.
  unfold new_plan_request, default_ratio in Hr. rewrite Hr.
  unfold bind at 1. rewrite (parse_response_run response t json plan _ Ht Hj Hp).
  unfold after_planning, log, new_plan_request, default_ratio.
  rewrite app_nil_r, Q. reflexivity.
Qed.

Lemma generateImageEdits_planned images userPrompt useWebSearch aspectRatio s plan :
  client_ready env s ->
  plan_arrives env s
    (edit_plan_request env images userPrompt useWebSearch aspectRatio) plan ->
  exists c s0 grounding,
    ai s0 = Some c /\ requests s0 = requests s /\ emitted s0 = emitted s
    /\ clock_reads s0 = clock_reads s /\ random_draws s0 = random_draws s
    /\ generateImageEdits env images userPrompt useWebSearch aspectRatio s
       = (variations <- check_plan env plan ;;
          yield (PlanReady plan grounding) ;;
          yield (Progress (lit "Remixing your image with new ideas...")) ;;
          for_of variations (edit_turn env images userPrompt))
           (after_planning s0
              (edit_plan_request env images userPrompt useWebSearch aspectRatio)
              (search_notices useWebSearch)).
Proof.
  intros R [response [t [json [Hr [Ht [Hj Hp]]]]]].
  destruct (getAiClient_ready env s R) as [c [s0 [G [A [Q [E [C D]]]]]]].
  exists c, s0, (grounding_of response). repeat (split; [assumption|]).
  unfold generateImageEdits. cbv zeta. unfold bind at 1. rewrite G.
  unfold edit_plan_request, search_notices, default_ratio in *.
  destruct (default false useWebSearch).
  - unfold bind at 1. unfold bind at 1. unfold yield at 1.
    unfold bind at 1. unfold yield at 1. unfold ret at 1.
    unfold bind at 1. unfold generateContent at 1.
    cbn [requests]. rewrite Q, Hr.
    unfold bind at 1. rewrite (parse_response_run response t json plan _ Ht Hj Hp).
    unfold after_planning, log. cbn [ai requests emitted clock_reads random_draws].
    rewrite <- app_assoc, ?Q. reflexivity.
  - unfold bind at 1. unfold ret at 1.
    unfold bind at 1. unfold generateContent at 1. rewrite Q, Hr.
    unfold bind at 1. rewrite (parse_response_run response t json plan _ Ht Hj Hp).
    unfold after_planning, log. rewrite app_nil_r, ?Q. reflexivity.
Qed.

End GeneratorFacts.

Section AcceptedRuns.

Variable env : Env.

Lemma new_image_event_reports userPrompt aspectRatio v outcome clock draws :
  reports v outcome png_url (new_payload userPrompt aspectRatio v)
    (new_image_event env userPrompt aspectRatio v outcome clock draws).
Proof. unfold reports. destruct outcome; cbn; repeat split. Qed.

Lemma edit_event_reports images userPrompt v outcome clock draws :
  reports v outcome (edited_url images) (edit_payload images userPrompt v)
    (edit_event env images userPrompt v outcome clock draws).
Proof. unfold reports. destruct outcome; cbn; repeat split. Qed.

Lemma new_image_events_report userPrompt aspectRatio vs :
  forall history clock draws,
    each_reports vs
      (new_image_events env userPrompt aspectRatio history clock draws vs)
      (fun i v =>
         new_render env
           (history ++ map (fun v => imagen_request (new_prompt userPrompt v) aspectRatio)
                         (firstn i vs))
           (new_prompt userPrompt v) aspectRatio)
      png_url (new_payload userPrompt aspectRatio).
Proof.
  induction vs as [|x vs IH]; intros history clock draws; split.
  - reflexivity.
  - intros [|i] v iv H; discriminate H.
  - cbn [new_image_events length]. f_equal. apply IH.
  - intros [|i] v iv Hv Hiv; cbn in Hv, Hiv.
    + inversion Hv; inversion Hiv; subst. cbn [firstn map]. rewrite app_nil_r.
      apply new_image_event_reports.
    + cbn [firstn map]. destruct (IH (history ++ [imagen_request (new_prompt userPrompt x) aspectRatio])
                                     (2 + clock) (1 + draws)) as [_ R].
      specialize (R i v iv Hv Hiv). rewrite <- app_assoc in R. exact R.
Qed.

Lemma edit_events_report images userPrompt vs :
  forall history clock draws,
    each_reports vs
      (edit_events env images userPrompt history clock draws vs)
      (fun i v =>
         edit_render env
           (history ++ flat_map (fun v => edit_calls images (planned_prompt userPrompt v))
                         (firstn i vs))
           images (planned_prompt userPrompt v))
      (edited_url images) (edit_payload images userPrompt).
Proof.
  induction vs as [|x vs IH]; intros history clock draws; split.
  - reflexivity.
  - intros [|i] v iv H; discriminate H.
  - cbn [edit_events length]. f_equal. apply IH.
  - intros [|i] v iv Hv Hiv; cbn in Hv, Hiv.
    + inversion Hv; inversion Hiv; subst. cbn [firstn flat_map]. rewrite app_nil_r.
      apply edit_event_reports.
    + cbn [firstn flat_map]. destruct (IH (history ++ edit_calls images (planned_prompt userPrompt x))
                                     (2 + clock) (1 + draws)) as [_ R].
      specialize (R i v iv Hv Hiv). rewrite <- app_assoc in R. exact R.
Qed.

(** A new-image turn whose plan is accepted runs to its end. *)
Lemma generateNewImages_accepted userPrompt useWebSearch aspectRatio s plan vs :
  client_ready env s ->
  plan_arrives env s (new_plan_request env userPrompt aspectRatio) plan ->
  accepted plan vs -> all_specs vs ->
  new_run_isolated env userPrompt useWebSearch aspectRatio s plan vs.
Proof.
  intros R P A S. unfold new_run_isolated.
  destruct (generateNewImages_planned env userPrompt useWebSearch aspectRatio s plan R P)
    as [c [s0 [Hc [Q [E [C [D G]]]]]]].
  rewrite G. unfold bind at 1. rewrite (check_plan_accepted env plan vs _ A).
  unfold bind at 1. unfold yield at 1. unfold bind at 1. unfold yield at 1.
  rewrite (new_loop_run env userPrompt _ vs _ c) by (try exact S; exact Hc).
  cbn [after_planning ai requests emitted clock_reads random_draws].
  eexists _, _. split; [reflexivity|].
  cbn [requests emitted]. rewrite Q, E, app_nil_r, <- !app_assoc. cbn [app].
  split; [reflexivity|]. split; [reflexivity|].
  pose proof (new_image_events_report userPrompt (default_ratio aspectRatio) vs
                (requests s ++ [new_plan_request env userPrompt aspectRatio])
                (clock_reads s0) (random_draws s0)) as [L H].
  split; [exact L|]. intros i v iv Hv Hiv.
  specialize (H i v iv Hv Hiv). rewrite <- app_assoc in H. exact H.
Qed.

(** An edit turn whose plan is accepted runs to its end. *)
Lemma generateImageEdits_accepted images userPrompt useWebSearch aspectRatio
    s plan vs :
  client_ready env s ->
  plan_arrives env s
    (edit_plan_request env images userPrompt useWebSearch aspectRatio) plan ->
  accepted plan vs -> all_specs vs ->
  edit_run_isolated env images userPrompt useWebSearch aspectRatio s plan vs.
Proof.
  intros R P A S. unfold edit_run_isolated.
  destruct (generateImageEdits_planned env images userPrompt useWebSearch aspectRatio
              s plan R P) as [c [s0 [g [Hc [Q [E [C [D G]]]]]]]].
  rewrite G. unfold bind at 1. rewrite (check_plan_accepted env plan vs _ A).
  unfold bind at 1. unfold yield at 1. unfold bind at 1. unfold yield at 1.
  rewrite (edit_loop_run env images userPrompt vs _ c) by (try exact S; exact Hc).
  cbn [after_planning ai requests emitted clock_reads random_draws].
  eexists _, _, g. split; [reflexivity|].
  cbn [requests emitted]. rewrite Q, E, <- !app_assoc. cbn [app].
  split; [reflexivity|]. split; [reflexivity|].
  pose proof (edit_events_report images userPrompt vs
                (requests s ++ [edit_plan_request env images userPrompt useWebSearch aspectRatio])
                (clock_reads s0) (random_draws s0)) as [L H].
  split; [exact L|]. intros i v iv Hv Hiv.
  specialize (H i v iv Hv Hiv). rewrite <- app_assoc in H. exact H.
Qed.

End AcceptedRuns.

(* ================================================================== *)
(** * Invariants of what is yielded *)
(* ================================================================== *)

Section Emits.

Variable env : Env.
Variable P : GeneratorYield -> Prop.

Lemma emits_silent {A} (m : M A) :
  (forall s, emitted (snd (m s)) = emitted s) -> emits P m.
Proof. intros H s. exists []. rewrite app_nil_r. auto. Qed.

Lemma emits_ret {A} (a : A) : emits P (ret a).
Proof. apply emits_silent. reflexivity. Qed.

Lemma emits_throw {A} t : emits P (@throw A t).
Proof. apply emits_silent. reflexivity. Qed.

Lemma emits_lift {A} (r : Result A) : emits P (lift r).
Proof. apply emits_silent. reflexivity. Qed.

Lemma emits_bind {A B} (m : M A) (k : A -> M B) :
  emits P m -> (forall a, emits P (k a)) -> emits P (bind m k).
Proof.
  intros Hm Hk s. unfold bind. destruct (Hm s) as [e1 [E1 F1]].
  destruct (m s) as [[a|t] s1]; cbn [snd] in *.
  - destruct (Hk a s1) as [e2 [E2 F2]]. exists (e1 ++ e2).
    rewrite E2, E1, app_assoc. split; [reflexivity|]. apply Forall_app. auto.
  - exists e1. auto.
Qed.

Lemma emits_try {A} (m : M A) (handler : Thrown -> M A) :
  emits P m -> (forall t, emits P (handler t)) -> emits P (try_catch m handler).
Proof.
  intros Hm Hh s. unfold try_catch. destruct (Hm s) as [e1 [E1 F1]].
  destruct (m s) as [[a|t] s1]; cbn [snd] in *.
  - exists e1. auto.
  - destruct (Hh t s1) as [e2 [E2 F2]]. exists (e1 ++ e2).
    rewrite E2, E1, app_assoc. split; [reflexivity|]. apply Forall_app. auto.
Qed.

Lemma emits_yield ev : P ev -> emits P (yield ev).
Proof. intros H s. exists [ev]. cbn. auto. Qed.

Lemma emits_for_of {A} (l : list A) (body : A -> M unit) :
  (forall x, emits P (body x)) -> emits P (for_of l body).
Proof.
  intros H. induction l as [|x l IH]; cbn [for_of].
  - apply emits_ret.
  - apply emits_bind; auto.
Qed.

Lemma emits_getAiClient : emits P (getAiClient env).
Proof.
  apply emits_silent. intros s. unfold getAiClient.
  destruct (ai s); [reflexivity|].
  destruct (API_KEY env) as [key|]; [destruct (nonempty key)|]; reflexivity.
Qed.

Lemma emits_generateContent client model contents config :
  emits P (generateContent env client model contents config).
Proof. apply emits_silent. reflexivity. Qed.

Lemma emits_generateImages client model prompt n aspectRatio :
  emits P (generateImages env client model prompt n aspectRatio).
Proof. apply emits_silent. reflexivity. Qed.

Lemma emits_now : emits P (now env).
Proof. apply emits_silent. reflexivity. Qed.

Lemma emits_random : emits P (random env).
Proof. apply emits_silent. reflexivity. Qed.

End Emits.

Create HintDb emits.

#[local] Hint Resolve emits_ret emits_throw emits_lift emits_getAiClient
  emits_generateContent emits_generateImages emits_now emits_random : emits.

(** Goes through a computation along its binds, handlers, branches and
    loops; what remains is that each yielded event satisfies the invariant. *)
Ltac emits_step :=
  match goal with
  | |- emits _ (bind _ _) => apply emits_bind; [|intros]
  | |- emits _ (try_catch _ _) => apply emits_try; [|intros]
  | |- emits _ (for_of _ _) => apply emits_for_of; intros
  | |- emits _ (yield _) => apply emits_yield
  | |- emits _ (match ?x with _ => _ end) => destruct x
  | |- emits _ _ => solve [auto with emits]
  end.

Section EmitsService.

Variable env : Env.
Variable P : GeneratorYield -> Prop.

Lemma emits_fresh_id : emits P (fresh_id env).
Proof. unfold fresh_id. repeat emits_step. Qed.

Lemma emits_editImageInternal images prompt :
  emits P (editImageInternal env images prompt).
Proof. unfold editImageInternal, rethrow. repeat emits_step. Qed.

Lemma emits_retryNewImageGeneration prompt aspectRatio :
  emits P (retryNewImageGeneration env prompt aspectRatio).
Proof. unfold retryNewImageGeneration. repeat emits_step. Qed.

Lemma emits_parse_response response : emits P (parse_response env response).
Proof. unfold parse_response. repeat emits_step. Qed.

Lemma emits_check_plan plan : emits P (check_plan env plan).
Proof. unfold check_plan. repeat emits_step. Qed.

Lemma emits_edit_prompt userPrompt v : emits P (edit_prompt env userPrompt v).
Proof. unfold edit_prompt. repeat emits_step. Qed.

End EmitsService.

#[local] Hint Resolve emits_fresh_id emits_editImageInternal
  emits_retryNewImageGeneration emits_parse_response emits_check_plan
  emits_edit_prompt : emits.

Section EmitsGenerators.

Variable env : Env.

Lemma emits_generateNewImages userPrompt useWebSearch aspectRatio :
  emits (carries_payload None (Some (default_ratio aspectRatio)))
    (generateNewImages env userPrompt useWebSearch aspectRatio).
Proof.
  unfold generateNewImages, new_image_turn. cbv zeta.
  repeat emits_step; cbn; try exact I; try discriminate; eauto.
Qed.

Lemma emits_generateImageEdits images userPrompt useWebSearch aspectRatio :
  emits (carries_payload (Some images) None)
    (generateImageEdits env images userPrompt useWebSearch aspectRatio).
Proof.
  unfold generateImageEdits, edit_turn. cbv zeta.
  repeat emits_step; cbn; try exact I; try discriminate; eauto.
Qed.

End EmitsGenerators.

(* ================================================================== *)
(** * Properties of the generators *)
(* ================================================================== *)

Section StreamFacts.

Lemma count_variations p ivs :
  (forall iv, p (Variation iv) = false) -> count p (map Variation ivs) = 0%nat.
Proof.
  intros H. unfold count. induction ivs as [|iv ivs IH]; [reflexivity|].
  cbn [map filter]. now rewrite H.
Qed.

Lemma count_is_variation ivs : count is_variation (map Variation ivs) = length ivs.
Proof.
  unfold count. induction ivs as [|iv ivs IH]; [reflexivity|].
  cbn [map filter is_variation length]. now rewrite IH.
Qed.

Lemma variations_of_map ivs : variations_of (map Variation ivs) = ivs.
Proof.
  unfold variations_of. induction ivs as [|iv ivs IH]; [reflexivity|].
  cbn [map flat_map app]. now rewrite IH.
Qed.

Lemma receive_variations ivs : forall t,
  fold_left receive (map Variation ivs) t
  = {| statusMessages := statusMessages t; planData := planData t;
       groundingData := groundingData t;
       finalVariations := finalVariations t ++ ivs |}.
Proof.
  induction ivs as [|iv ivs IH]; intros t.
  - cbn. rewrite app_nil_r. destruct t; reflexivity.
  - cbn [map fold_left]. rewrite IH. cbn. now rewrite <- app_assoc.
Qed.

(** Events that report the variations of a plan carry their titles and
    descriptions, in the order of the plan. *)
Lemma each_reports_titles {A} vs : forall ivs (outcome : nat -> JSValue -> Result A)
    url payload,
  each_reports vs ivs outcome url payload ->
  map title ivs = map (fun v => field v (lit "title")) vs
  /\ map description ivs = map (fun v => field v (lit "description")) vs.
Proof.
  induction vs as [|v vs IH]; intros ivs outcome url payload [L H].
  - destruct ivs; [split; reflexivity|discriminate L].
  - destruct ivs as [|iv ivs]; [discriminate L|].
    destruct (H 0%nat v iv eq_refl eq_refl) as [Ht [Hd _]].
    destruct (IH ivs (fun i => outcome (S i)) url payload) as [T D].
    { split; [now inversion L|]. intros i x y Hx Hy. apply (H (S i) x y Hx Hy). }
    cbn [map]. rewrite Ht, Hd, T, D. split; reflexivity.
Qed.

End StreamFacts.

(* ================================================================== *)
(** * Every run of the generators *)
(* ================================================================== *)

Section TurnFacts.

Variable env : Env.

Lemma getAiClient_effect s :
  requests (snd (getAiClient env s)) = requests s
  /\ emitted (snd (getAiClient env s)) = emitted s
  /\ (forall c, fst (getAiClient env s) = Ok c -> ai (snd (getAiClient env s)) = Some c)
  /\ (forall t, fst (getAiClient env s) = Throw t ->
        snd (getAiClient env s) = s /\ t = JsError missing_key_message /\ no_key env s).
Proof.
  unfold getAiClient, no_key. destruct (ai s) as [c|] eqn:A.
  - cbn. repeat split; auto; try discriminate. intros c0 H. congruence.
  - destruct (API_KEY env) as [key|]; [destruct (nonempty key) eqn:K|]; cbn;
      repeat split; auto; try discriminate; try congruence.
Qed.

Lemma parse_response_state response s : snd (parse_response env response s) = s.
Proof.
  unfold parse_response, bind, lift. destruct (text response) as [t|]; [|reflexivity].
  destruct (extractJson t); reflexivity.
Qed.

Lemma check_plan_state plan s : snd (check_plan env plan s) = s.
Proof.
  unfold check_plan, bind, lift, throw, ret.
  destruct (get env plan (lit "textResponse")) as [x|]; [|reflexivity].
  destruct (truthy x); [|reflexivity]. cbn [negb].
  destruct (get env plan (lit "variations")) as [[| | | | |[|v vs]|]|]; reflexivity.
Qed.

Lemma check_plan_ok plan vs s :
  fst (check_plan env plan s) = Ok vs -> accepted plan vs.
Proof.
  unfold check_plan, bind, lift, throw, ret, accepted.
  destruct (nullish plan) eqn:N; [destruct plan; discriminate|].
  rewrite !(get_field env plan _ N).
  destruct (truthy (field plan (lit "textResponse"))); [|discriminate]. cbn [negb].
  destruct (field plan (lit "variations")) as [| | | | |[|v l]|]; try discriminate.
  cbn. intros H. inversion H. repeat split; auto. discriminate.
Qed.

Lemma fallback_valid userPrompt shown :
  nonempty (userPrompt ++ lit ", in the style of: " ++ shown) = true
  /\ nonempty (trim (userPrompt ++ lit ", in the style of: " ++ shown)) = true.
Proof.
  assert (T : nonempty (trim (userPrompt ++ lit ", in the style of: " ++ shown)) = true).
  { apply (trim_nonblank _ 44%N); [|reflexivity].
    apply in_or_app. right. apply in_or_app. left. left. reflexivity. }
  split; [apply trim_nonempty|]; exact T.
Qed.

Lemma edit_prompt_pure userPrompt v s :
  edit_prompt env userPrompt v s = (edit_prompt_result env userPrompt v, s).
Proof.
  unfold edit_prompt_result, edit_prompt, bind, lift, ret.
  destruct (get env v (lit "modifiedPrompt")) as [mp|]; [|reflexivity].
  destruct (call_trim env (or_else mp (JStr []))) as [trimmed|]; [|reflexivity].
  destruct (nonempty trimmed); [reflexivity|].
  destruct (get env v (lit "title")) as [title_|]; [|reflexivity].
  destruct (toStr env title_); reflexivity.
Qed.

(** When [edit_prompt] answers, the variation is an object and the prompt
    a string that is not blank. *)
Lemma edit_prompt_ok userPrompt v p :
  edit_prompt_result env userPrompt v = Ok p ->
  nullish v = false
  /\ exists q, p = JStr q /\ nonempty q = true /\ nonempty (trim q) = true.
Proof.
  destruct (nullish v) eqn:N; [destruct v; discriminate|].
  unfold edit_prompt_result, edit_prompt, bind, lift, ret.
  rewrite !(get_field env v _ N). split; [reflexivity|]. revert H.
  assert (F : forall r : Result jstring,
            fst (match r with
                 | Ok shown =>
                     (Ok (JStr (userPrompt ++ lit ", in the style of: " ++ shown)), initial)
                 | Throw t => (Throw t, initial)
                 end) = Ok p ->
            exists q, p = JStr q /\ nonempty q = true /\ nonempty (trim q) = true).
  { intros [shown|t] H; [|discriminate H]. cbn in H. inversion H.
    eexists. split; [reflexivity|]. apply fallback_valid. }
  unfold or_else.
  destruct (field v (lit "modifiedPrompt")) as [| |[|]|n|[|x q]| |] eqn:Emp;
    cbn [truthy nonempty call_trim]; try (intros H; discriminate H);
    try (change (nonempty (trim [])) with false; cbv iota; apply F).
  - destruct (num_truthy n); cbn [call_trim]; [intros H; discriminate H|].
    change (nonempty (trim [])) with false. cbv iota. apply F.
  - destruct (nonempty (trim (x :: q))) eqn:T; [|apply F].
    cbn. intros H. inversion H. exists (x :: q). auto.
Qed.

Lemma turns_effect_silent R n s t : turns_effect R n s (Throw t, s).
Proof.
  split; [reflexivity|]. exists [], []. cbn [fst snd length map].
  rewrite !app_nil_r. repeat split; auto; try lia. discriminate.
Qed.

(** One turn of the loop of [generateNewImages], whatever the entry of the
    plan is. *)
Lemma new_image_turn_effect userPrompt aspectRatio v s c :
  ai s = Some c ->
  turns_effect (is_new_render aspectRatio) 1 s
    (new_image_turn env userPrompt aspectRatio v s).
Proof.
  intros Hc. destruct (nullish v) eqn:N.
  - assert (E : exists t, new_image_turn env userPrompt aspectRatio v s = (Throw t, s))
      by (destruct v; try discriminate N; eexists; reflexivity).
    destruct E as [t ->]. apply turns_effect_silent.
  - unfold new_image_turn, try_catch, bind, lift.
    rewrite !(get_field env v _ N). rewrite (retryNewImageGeneration_run env s c _ _ Hc).
    destruct (new_render env (requests s) _ aspectRatio) as [bytes|t].
    + split; [reflexivity|]. eexists [_], [_]. cbn.
      repeat split; auto. constructor; [eexists; reflexivity|constructor].
    + destruct (toStr env (field v (lit "title"))) as [shown|t'].
      * split; [reflexivity|]. eexists [_], [_]. cbn.
        repeat split; auto. constructor; [eexists; reflexivity|constructor].
      * split; [reflexivity|]. eexists [_], []. cbn. rewrite app_nil_r.
        repeat split; auto; try discriminate.
        constructor; [eexists; reflexivity|constructor].
Qed.

(** One turn of the loop of [generateImageEdits]. *)
Lemma edit_turn_effect_for R images userPrompt v s c :
  (forall q, Forall R (edit_calls images q)) ->
  ai s = Some c ->
  turns_effect R 1 s (edit_turn env images userPrompt v s).
Proof.
  intros HR Hc.
  assert (Calls : forall q, (length (edit_calls images q) <= 1)%nat
                            /\ Forall R (edit_calls images q)).
  { intros q. split; [|apply HR]. destruct images; cbn; auto. }
  unfold edit_turn, try_catch. unfold bind at 1. rewrite edit_prompt_pure.
  destruct (edit_prompt_result env userPrompt v) as [p|t] eqn:E.
  - destruct (edit_prompt_ok userPrompt v p E) as [N [q [-> [V1 V2]]]].
    unfold bind at 1. rewrite (editImageInternal_run env s c images q Hc V1 V2).
    destruct (Calls q) as [C1 C2].
    destruct (edit_render env (requests s) images q) as [bytes|t] eqn:Rd.
    + destruct images as [|img images]; [discriminate Rd|].
      unfold bind, lift. rewrite !(get_field env v _ N).
      split; [reflexivity|]. eexists _, [_]. cbn [fst snd requests emitted map length].
      repeat split; auto.
    + unfold bind at 1. unfold lift at 1. rewrite (get_field env v _ N).
      unfold bind at 1. unfold lift at 1.
      destruct (toStr env (field v (lit "title"))) as [shown|t'].
      * unfold bind at 1. rewrite edit_prompt_pure, E.
        unfold bind, lift. rewrite !(get_field env v _ N).
        split; [reflexivity|]. eexists _, [_]. cbn [fst snd requests emitted map length].
        repeat split; auto.
      * split; [reflexivity|]. exists (edit_calls images q), [].
        cbn [fst snd requests emitted map length].
        rewrite app_nil_r. repeat split; auto; try lia; try discriminate.
  - assert (H : exists t', (logged <- lift (get env v (lit "title")) ;;
                     _ <- lift (toStr env logged) ;;
                     promptForRetry <- edit_prompt env userPrompt v ;;
                     id_ <- fresh_id env ;;
                     title_ <- lift (get env v (lit "title")) ;;
                     description_ <- lift (get env v (lit "description")) ;;
                     createdAt_ <- now env ;;
                     yield (Variation
                       {| id := id_; title := title_; description := description_;
                          imageUrl := []; createdAt := createdAt_; isError := true;
                          errorMessage := Some (error_message t);
                          retryPayload :=
                            Some {| payload_images := Some images;
                                    payload_prompt := promptForRetry;
                                    payload_aspectRatio := None |} |})) s
                    = (Throw t', s)).
    { unfold bind at 1. unfold lift at 1.
      destruct (get env v (lit "title")) as [logged|]; [|eexists; reflexivity].
      unfold bind at 1. unfold lift at 1.
      destruct (toStr env logged); [|eexists; reflexivity].
      unfold bind at 1. rewrite edit_prompt_pure, E. eexists; reflexivity. }
    destruct H as [t' ->]. apply turns_effect_silent.
Qed.

Lemma edit_turn_effect images userPrompt v s c :
  ai s = Some c ->
  turns_effect (is_edit_render images) 1 s (edit_turn env images userPrompt v s).
Proof.
  apply edit_turn_effect_for. intros q. destruct images; cbn; auto.
  constructor; [eexists; reflexivity|constructor].
Qed.

(** The loop over the plan. *)
Lemma for_of_effect R (body : JSValue -> M unit) :
  (forall v s c, ai s = Some c -> turns_effect R 1 s (body v s)) ->
  forall vs s c, ai s = Some c -> turns_effect R (length vs) s (for_of vs body s).
Proof.
  intros Hb. induction vs as [|v vs IH]; intros s c Hc.
  - split; [reflexivity|]. exists [], []. cbn. rewrite !app_nil_r. repeat split; auto.
  - cbn [for_of]. unfold bind.
    destruct (Hb v s c Hc) as [A1 [r1 [i1 [Q1 [E1 [L1 [M1 [F1 O1]]]]]]]].
    destruct (body v s) as [[[]|t] s1]; cbn [fst snd] in *.
    + assert (Hc1 : ai s1 = Some c) by congruence.
      destruct (IH s1 c Hc1) as [A2 [r2 [i2 [Q2 [E2 [L2 [M2 [F2 O2]]]]]]]].
      split; [congruence|]. exists (r1 ++ r2), (i1 ++ i2).
      rewrite Q2, Q1, E2, E1, map_app, <- !app_assoc, !length_app.
      specialize (O1 eq_refl). cbn [length].
      repeat split; auto; try lia. { apply Forall_app; auto. }
      intros H. specialize (O2 H). lia.
    + split; [exact A1|]. exists r1, i1. cbn [length].
      repeat split; auto; try lia. discriminate.
Qed.

(** Every run of [generateNewImages]. *)
Lemma generateNewImages_shape userPrompt useWebSearch aspectRatio s :
  let (r, s') := generateNewImages env userPrompt useWebSearch aspectRatio s in
  exists reqs evs,
    requests s' = requests s ++ reqs
    /\ emitted s' = emitted s ++ evs
    /\ run_shape (is_new_render (default_ratio aspectRatio))
         (new_plan_request env userPrompt aspectRatio) r reqs evs.
Proof.
  unfold generateNewImages. cbv zeta. fold (default_ratio aspectRatio).
  fold (new_plan_request env userPrompt aspectRatio).
  set (req := new_plan_request env userPrompt aspectRatio).
  assert (Early : forall (t : Thrown) reqs,
            reqs = [] \/ reqs = [req] ->
            run_shape (is_new_render (default_ratio aspectRatio)) req (Throw t) reqs []).
  { intros t reqs H. left. repeat split; auto. discriminate. }
  destruct (getAiClient_effect s) as [Q0 [E0 [A0 T0]]].
  unfold bind at 1. destruct (getAiClient env s) as [[c|t] s0]; cbn [fst snd] in *.
  2:{ lazy beta iota. exists [], []. rewrite !app_nil_r. destruct (T0 t eq_refl) as [-> _]. repeat split; auto. }
  specialize (A0 c eq_refl).
  unfold bind at 1. unfold generateContent at 1.
  change (GenerateContentRequest planner_model
            [TextPart (newImagePlanPrompt userPrompt (getCurrentLanguage env)
                         (default_ratio aspectRatio))]
            (schema_config generationPlanSchema)) with req.
  destruct (models_generateContent env (requests s0) req) as [response|t].
  2:{ lazy beta iota. exists [req], []. cbn. rewrite app_nil_r, Q0, E0. repeat split; auto. }
  unfold bind at 1.
  pose proof (parse_response_state response (log req s0)) as P.
  destruct (parse_response env response _) as [[plan|t] s1]; cbn [snd] in P; subst s1.
  2:{ lazy beta iota. exists [req], []. cbn. rewrite app_nil_r, Q0, E0. repeat split; auto. }
  unfold bind at 1.
  pose proof (check_plan_state plan (log req s0)) as K.
  pose proof (fun vs => check_plan_ok plan vs (log req s0)) as Acc.
  destruct (check_plan env plan _) as [[vs|t] s1]; cbn [fst snd] in K, Acc; subst s1.
  2:{ lazy beta iota. exists [req], []. cbn. rewrite app_nil_r, Q0, E0. repeat split; auto. }
  specialize (Acc vs eq_refl).
  unfold bind at 1. unfold yield at 1. unfold bind at 1. unfold yield at 1.
  cbn [ai requests emitted clock_reads random_draws log].
  match goal with
  | |- context [for_of vs ?body ?s3] =>
      destruct (for_of_effect (is_new_render (default_ratio aspectRatio)) body
                  (fun v s c H => new_image_turn_effect userPrompt
                                    (default_ratio aspectRatio) v s c H)
                  vs s3 c A0)
        as [A [renders [ivs [Q [E [L1 [L2 [F O]]]]]]]];
      destruct (for_of vs body s3) as [r s']
  end.
  cbn [fst snd ai requests emitted] in *. lazy beta iota.
  exists (req :: renders),
         (PlanReady plan None :: Progress (lit "Generating your new images...")
            :: map Variation ivs).
  rewrite Q, E, Q0, E0, <- !app_assoc. split; [reflexivity|]. split; [reflexivity|].
  right. exists plan, None, (lit "Generating your new images..."), vs, ivs, renders.
  repeat split; auto; apply Acc.
Qed.

(** Every run of [generateImageEdits]; the notices of the web search come
    first. *)
Lemma generateImageEdits_shape_for R images userPrompt useWebSearch aspectRatio s :
  (forall v s c, ai s = Some c ->
                 turns_effect R 1 s (edit_turn env images userPrompt v s)) ->
  let (r, s') := generateImageEdits env images userPrompt useWebSearch aspectRatio s in
  exists notices reqs evs,
    (notices = [] \/ notices = search_notices useWebSearch)
    /\ requests s' = requests s ++ reqs
    /\ emitted s' = emitted s ++ notices ++ evs
    /\ run_shape R
         (edit_plan_request env images userPrompt useWebSearch aspectRatio)
         r reqs evs.
Proof.
  intros Turn.
  unfold generateImageEdits. cbv zeta. fold (default_ratio aspectRatio).
  set (req := edit_plan_request env images userPrompt useWebSearch aspectRatio).
  assert (Early : forall (t : Thrown) reqs,
            reqs = [] \/ reqs = [req] ->
            run_shape R req (Throw t) reqs []).
  { intros t reqs H. left. repeat split; auto. discriminate. }
  destruct (getAiClient_effect s) as [Q0 [E0 [A0 T0]]].
  unfold bind at 1. destruct (getAiClient env s) as [[c|t] s0]; cbn [fst snd] in *.
  2:{ lazy beta iota. exists [], [], []. rewrite !app_nil_r. destruct (T0 t eq_refl) as [-> _]. repeat split; auto. }
  specialize (A0 c eq_refl).
  assert (Planning :
    exists s1,
      ai s1 = Some c /\ requests s1 = requests s
      /\ emitted s1 = emitted s ++ search_notices useWebSearch
      /\ forall k : GenerateContentResponse -> M unit,
           (request <-
              (if default false useWebSearch then
                 yield (Progress (lit "Searching the web for inspiration...")) ;;
                 yield (Progress (lit "Analyzing results to craft prompts...")) ;;
                 ret (web_search_config,
                      webSearchPlanPrompt images userPrompt (getCurrentLanguage env)
                        (default_ratio aspectRatio))
               else
                 ret (schema_config generationPlanSchema,
                      editPlanPrompt images userPrompt (getCurrentLanguage env)
                        (default_ratio aspectRatio))) ;;
            let (config, planPrompt) := request in
            planResponse <- generateContent env c planner_model
                              (image_parts images ++ [TextPart planPrompt]) config ;;
            k planResponse) s0
           = match models_generateContent env (requests s1) req with
             | Ok response => k response (log req s1)
             | Throw t => (Throw t, log req s1)
             end).
  { subst req. unfold edit_plan_request, search_notices.
    destruct (default false useWebSearch).
    - eexists. split; [|split; [|split]]; cycle 3.
      + intros k. unfold bind at 1. unfold bind at 1. unfold yield at 1.
        unfold bind at 1. unfold yield at 1. unfold ret at 1.
        unfold bind at 1. unfold generateContent at 1. reflexivity.
      + exact A0.
      + cbn. exact Q0.
      + cbn. rewrite E0, <- app_assoc. reflexivity.
    - exists s0. rewrite app_nil_r. repeat split; auto. }
  destruct Planning as [s1 [A1 [Q1 [E1 Run]]]].
  rewrite Run. clear Run.
  assert (Wrap : forall out : Result unit * State,
            (let (r, s') := out in
             exists reqs evs,
               requests s' = requests s ++ reqs
               /\ emitted s' = emitted s ++ search_notices useWebSearch ++ evs
               /\ run_shape R req r reqs evs) ->
            let (r, s') := out in
            exists notices reqs evs,
              (notices = [] \/ notices = search_notices useWebSearch)
              /\ requests s' = requests s ++ reqs
              /\ emitted s' = emitted s ++ notices ++ evs
              /\ run_shape R req r reqs evs).
  { intros [r s'] [reqs [evs H]]. exists (search_notices useWebSearch), reqs, evs. auto. }
  apply Wrap. clear Wrap.
  destruct (models_generateContent env (requests s1) req) as [response|t].
  2:{ lazy beta iota. exists [req], []. cbn. rewrite app_nil_r, Q1, E1. repeat split; auto. }
  unfold bind at 1.
  pose proof (parse_response_state response (log req s1)) as P.
  destruct (parse_response env response _) as [[plan|t] s2]; cbn [snd] in P; subst s2.
  2:{ lazy beta iota. exists [req], []. cbn. rewrite app_nil_r, Q1, E1. repeat split; auto. }
  unfold bind at 1.
  pose proof (check_plan_state plan (log req s1)) as K.
  pose proof (fun vs => check_plan_ok plan vs (log req s1)) as Acc.
  destruct (check_plan env plan _) as [[vs|t] s2]; cbn [fst snd] in K, Acc; subst s2.
  2:{ lazy beta iota. exists [req], []. cbn. rewrite app_nil_r, Q1, E1. repeat split; auto. }
  specialize (Acc vs eq_refl).
  unfold bind at 1. unfold yield at 1. unfold bind at 1. unfold yield at 1.
  cbn [ai requests emitted clock_reads random_draws log].
  match goal with
  | |- context [for_of vs ?body ?s3] =>
      destruct (for_of_effect R body Turn vs s3 c A1)
        as [A [renders [ivs [Q [E [L1 [L2 [F O]]]]]]]];
      destruct (for_of vs body s3) as [r s']
  end.
  cbn [fst snd ai requests emitted] in *. lazy beta iota.
  exists (req :: renders),
         (PlanReady plan (grounding_of response)
            :: Progress (lit "Remixing your image with new ideas...")
            :: map Variation ivs).
  rewrite Q, E, Q1, E1, <- !app_assoc. split; [reflexivity|]. split; [reflexivity|].
  right. exists plan, (grounding_of response),
           (lit "Remixing your image with new ideas..."), vs, ivs, renders.
  repeat split; auto; apply Acc.
Qed.

Lemma generateImageEdits_shape images userPrompt useWebSearch aspectRatio s :
  let (r, s') := generateImageEdits env images userPrompt useWebSearch aspectRatio s in
  exists notices reqs evs,
    (notices = [] \/ notices = search_notices useWebSearch)
    /\ requests s' = requests s ++ reqs
    /\ emitted s' = emitted s ++ notices ++ evs
    /\ run_shape (is_edit_render images)
         (edit_plan_request env images userPrompt useWebSearch aspectRatio)
         r reqs evs.
Proof.
  apply generateImageEdits_shape_for. intros v s0 c. apply edit_turn_effect.
Qed.

End TurnFacts.

(* ================================================================== *)
(** * Plans with entries of any kind *)
(* ================================================================== *)

Section ContainedTurns.

Variable env : Env.

Lemma spec_renderable v : is_variation_spec v = true -> renderable env v.
Proof.
  intros H. destruct (spec_fields v H) as [N [t [d [p [Et [Ed Ep]]]]]].
  split; [exact N|]. split.
  - exists t. now rewrite Et.
  - left. now rewrite Ep.
Qed.

Lemma all_specs_renderable vs : all_specs vs -> Forall (renderable env) vs.
Proof. intros H. eapply Forall_impl; [|exact H]. apply spec_renderable. Qed.










End ContainedTurns.

Section PinnedPayloads.

Variable env : Env.











End PinnedPayloads.


(** C2. A parsed plan whose text is empty or missing, or whose variations
    are not a non-empty array, makes both generators throw the planning
    error after the call to the planner: no render call is made and neither
    a plan event nor a variation event is yielded. *)
Theorem invalid_plan_is_fatal
    (env : Env) (images : list SourceImage) (userPrompt : jstring)
    (useWebSearch : option bool) (aspectRatio : option jstring)
    (s : State) (plan : JSValue) :
  client_ready env s -> rejected plan ->
  (plan_arrives env s (new_plan_request env userPrompt aspectRatio) plan ->
   new_run_rejected env userPrompt useWebSearch aspectRatio s plan)
  /\ (plan_arrives env s
        (edit_plan_request env images userPrompt useWebSearch aspectRatio) plan ->
      edit_run_rejected env images userPrompt useWebSearch aspectRatio s plan).
Proof.
  intros R J. split; intros P.
  - destruct (generateNewImages_planned env userPrompt useWebSearch aspectRatio s plan R P)
      as [c [s0 [Hc [Q [E [C [D G]]]]]]].
    destruct (check_plan_rejected env plan
                (after_planning s0 (new_plan_request env userPrompt aspectRatio) []) J)
      as [t [K T]].
    exists t, (after_planning s0 (new_plan_request env userPrompt aspectRatio) []).
    rewrite G. unfold bind at 1. rewrite K. cbn [after_planning requests emitted].
    rewrite Q, E, app_nil_r. auto.
  - destruct (generateImageEdits_planned env images userPrompt useWebSearch aspectRatio
                s plan R P) as [c [s0 [g [Hc [Q [E [C [D G]]]]]]]].
    destruct (check_plan_rejected env plan
                (after_planning s0
                   (edit_plan_request env images userPrompt useWebSearch aspectRatio)
                   (search_notices useWebSearch)) J) as [t [K T]].
    exists t, (after_planning s0
                 (edit_plan_request env images userPrompt useWebSearch aspectRatio)
                 (search_notices useWebSearch)).
    rewrite G. unfold bind at 1. rewrite K. cbn [after_planning requests emitted].
    rewrite Q, E. repeat split; auto.
    unfold search_notices. destruct (default false useWebSearch); repeat constructor.
Qed.

(** C3. A new-image turn whose plan validates with 3 variations yields
    exactly one progress event, one plan event and three variation events,
    one per planned variation in plan order, and the consumer receives them
    in the order in which they were yielded. *)
Theorem new_image_stream_of_three
    (env : Env) (userPrompt : jstring) (useWebSearch : option bool)
    (aspectRatio : option jstring) (s : State) (plan : JSValue)
    (vs : list JSValue) :
  client_ready env s ->
  plan_arrives env s (new_plan_request env userPrompt aspectRatio) plan ->
  accepted plan vs -> all_specs vs -> length vs = 3%nat ->
  new_stream env userPrompt useWebSearch aspectRatio s plan vs 3.
Proof.
  intros R P A S L.
  destruct (generateNewImages_accepted env userPrompt useWebSearch aspectRatio s plan vs
              R P A S) as [s' [ivs [G [Q [E H]]]]].
  destruct (each_reports_titles vs ivs _ _ _ H) as [T D].
  assert (N : length ivs = 3%nat) by (rewrite <- L; apply H).
  exists s', (PlanReady plan None :: Progress (lit "Generating your new images...")
                :: map Variation ivs), ivs.
  repeat split; try assumption.
  - unfold count. cbn [filter is_progress length].
    f_equal. apply (count_variations is_progress). reflexivity.
  - unfold count. cbn [filter is_plan length].
    f_equal. apply (count_variations is_plan). reflexivity.
  - unfold count. cbn [filter is_variation]. fold (count is_variation (map Variation ivs)).
    now rewrite count_is_variation.
  - cbn [length]. now rewrite length_map, N.
  - cbn [variations_of flat_map app]. apply variations_of_map.
  - unfold for_await. cbn [fold_left receive]. rewrite receive_variations. reflexivity.
Qed.

Section FallbackFacts.

Lemma flat_map_edit_calls images (f : JSValue -> jstring) vs :
  images <> [] ->
  flat_map (fun v => edit_calls images (f v)) vs
  = map (fun v => edit_request images (f v)) vs.
Proof.
  intros H. destruct images as [|img images]; [now destruct H|].
  induction vs as [|v vs IH]; [reflexivity|]. cbn [flat_map map].
  rewrite IH. reflexivity.
Qed.

Lemma nth_error_after_planning {A} (before : list A) planning (renders : list A) i :
  nth_error (before ++ planning :: renders) (length before + 1 + i)
  = nth_error renders i.
Proof.
  rewrite nth_error_app2 by lia.
  replace (length before + 1 + i - length before)%nat with (S i) by lia.
  reflexivity.
Qed.

Lemma nth_error_same_length {A B} (l : list A) (l' : list B) i a :
  length l' = length l -> nth_error l i = Some a -> exists b, nth_error l' i = Some b.
Proof.
  intros L H. destruct (nth_error l' i) as [b|] eqn:E; [eauto|].
  apply nth_error_None in E. assert (nth_error l i <> None) as N by congruence.
  apply nth_error_Some in N. lia.
Qed.

(** An error state holds the payload of its variation. *)
Lemma reports_error {A} v (outcome : Result A) url payload iv :
  reports v outcome url payload iv -> isError iv = true ->
  retryPayload iv = Some payload.
Proof.
  intros [_ [_ H]] E. destruct outcome.
  - destruct H as [H _]. congruence.
  - apply H.
Qed.

Lemma new_prompt_empty userPrompt v :
  field v (lit "modifiedPrompt") = JStr [] -> new_prompt userPrompt v = JStr userPrompt.
Proof. intros H. unfold new_prompt. now rewrite H. Qed.

Lemma planned_prompt_empty userPrompt v :
  field v (lit "modifiedPrompt") = JStr [] ->
  planned_prompt userPrompt v
  = userPrompt ++ lit ", in the style of: " ++ string_of (field v (lit "title")).
Proof. intros H. unfold planned_prompt. now rewrite H. Qed.

End FallbackFacts.

(** C4 (as the code has it). For a planned variation whose [modifiedPrompt]
    is empty, the prompt that is rendered and that the retry payload stores
    is, in the edit path, the prompt of the user followed by [", in the
    style of: "] and the title of the variation, and in the new-image path
    the prompt of the user alone. *)
Theorem empty_prompt_fallback
    (env : Env) (images : list SourceImage) (userPrompt : jstring)
    (useWebSearch : option bool) (aspectRatio : option jstring)
    (s : State) (plan : JSValue) (vs : list JSValue) (i : nat) (v : JSValue) :
  client_ready env s -> accepted plan vs -> all_specs vs ->
  nth_error vs i = Some v -> field v (lit "modifiedPrompt") = JStr [] ->
  (plan_arrives env s (new_plan_request env userPrompt aspectRatio) plan ->
   new_fallback_used env userPrompt useWebSearch aspectRatio s plan i)
  /\ (plan_arrives env s
        (edit_plan_request env images userPrompt useWebSearch aspectRatio) plan ->
      edit_fallback_used env images userPrompt useWebSearch aspectRatio s plan v i).
Proof.
  intros R A S Hv Hp. split; intros P.
  - destruct (generateNewImages_accepted env userPrompt useWebSearch aspectRatio s plan vs
                R P A S) as [s' [ivs [G [Q [E [L H]]]]]].
    destruct (nth_error_same_length vs ivs i v L Hv) as [iv Hiv].
    exists s', ivs, iv. repeat split; try assumption.
    + rewrite Q, nth_error_after_planning.
      rewrite (map_nth_error _ _ _ Hv), (new_prompt_empty userPrompt v Hp). reflexivity.
    + intros Err. rewrite (reports_error _ _ _ _ _ (H i v iv Hv Hiv) Err).
      unfold new_payload. now rewrite (new_prompt_empty userPrompt v Hp).
  - destruct (generateImageEdits_accepted env images userPrompt useWebSearch aspectRatio
                s plan vs R P A S) as [s' [ivs [g [G [Q [E [L H]]]]]]].
    destruct (nth_error_same_length vs ivs i v L Hv) as [iv Hiv].
    exists s', ivs, iv, g. repeat split; try assumption.
    + intros Hi. rewrite Q, nth_error_after_planning.
      rewrite (flat_map_edit_calls images (planned_prompt userPrompt) vs Hi).
      rewrite (map_nth_error _ _ _ Hv), (planned_prompt_empty userPrompt v Hp).
      reflexivity.
    + intros Err. rewrite (reports_error _ _ _ _ _ (H i v iv Hv Hiv) Err).
      unfold edit_payload. now rewrite (planned_prompt_empty userPrompt v Hp).
Qed.


(** C8. Two runs of [generateNewImages] that differ only in the
    [useWebSearch] argument end the same way, in the same state: they have
    made the same calls and yielded the same events. *)
Theorem new_images_ignore_web_search
    (env : Env) (userPrompt : jstring) (aspectRatio : option jstring)
    (s : State) (flag1 flag2 : option bool) :
  generateNewImages env userPrompt flag1 aspectRatio s
  = generateNewImages env userPrompt flag2 aspectRatio s.
Proof. reflexivity. Qed.

(** C10. A call of the edit render ([editImageInternal], and so
    [retryImageGeneration]) with a prompt that is no string or is empty or
    white space only, or with no image, throws a precondition error and
    leaves the state as it was: no client is built and no call is made. *)
Theorem edit_preconditions
    (env : Env) (s : State) (images : option (list SourceImage))
    (prompt : JSValue) :
  blank_or_not_string prompt = true \/ no_images images = true ->
  let message :=
    if blank_or_not_string prompt then invalid_prompt_message
    else no_image_input_message in
  editImageInternal env images prompt s = (Throw (JsError message), s)
  /\ retryImageGeneration env images prompt s = (Throw (JsError message), s).
Proof.
  intros H message. unfold retryImageGeneration.
  assert (E : editImageInternal env images prompt s = (Throw (JsError message), s));
    [|split; exact E].
  subst message. unfold editImageInternal, try_catch.
  destruct prompt as [| | | |p| |]; try reflexivity.
  cbn [blank_or_not_string] in *.
  destruct (nonempty p) eqn:Np; cbn [negb orb].
  - destruct (nonempty (trim p)) eqn:Nt; cbn [negb]; [|reflexivity].
    destruct H as [H|H]; [discriminate H|].
    destruct images as [[|img imgs]|]; try reflexivity. discriminate H.
  - destruct p; [reflexivity|discriminate Np].
Qed.

(* ================================================================== *)
(** * Properties of [extractJson] *)
(* ================================================================== *)

(** C6 (as the code has it). For an input in which the fence pattern
    captures nothing: when the input has no opening bracket or brace, or its
    last closing bracket or brace comes before the first opening one,
    [extractJson] throws an error whose message contains the input; in every
    other case it returns, with the text from the first opening to the last
    closing character. *)
Theorem extractJson_bracket_search (text : jstring) :
  fenced_group text = None ->
  (first_opening text = (-1)%Z \/ (last_closing text < first_opening text)%Z ->
   extractJson text = Throw (JsError (no_json_message text))
   /\ includes text (no_json_message text) = true)
  /\ (first_opening text <> (-1)%Z ->
      (first_opening text <= last_closing text)%Z ->
      extractJson text
      = Ok (substring text (first_opening text) (last_closing text + 1))).
Proof.
  intros F. rewrite extractJson_spec, F, bracket_search_spec. split.
  - intros H. split;
      [|unfold no_json_message; rewrite app_assoc; apply includes_middle].
    destruct (Z.eqb_spec (first_opening text) (-1)); [reflexivity|]. cbn [orb].
    destruct (Z.ltb_spec (last_closing text) (first_opening text)); [reflexivity|].
    destruct H; [contradiction|lia].
  - intros Hs Hl.
    destruct (Z.eqb_spec (first_opening text) (-1)); [contradiction|]. cbn [orb].
    destruct (Z.ltb_spec (last_closing text) (first_opening text)); [lia|reflexivity].
Qed.

(** C7 (as the code has it). For an input that wraps its JSON in a fenced
    block (the first [```json] of the input, then the body, then the first
    [```] after it: the body holds no such fence), [extractJson] returns
    the body with the white space around it trimmed; for an input in which
    the fence pattern captures nothing and the bracket search succeeds, it
    returns the text from the first opening bracket or brace to the last
    closing one. *)
Theorem extractJson_fenced_or_bracketed :
  (forall pre body post : jstring,
     find_sub open_fence (pre ++ open_fence ++ body ++ close_fence ++ post)
       = Some (length pre) ->
     find_sub close_fence (body ++ close_fence ++ post) = Some (length body) ->
     trim body <> [] ->
     extractJson (pre ++ open_fence ++ body ++ close_fence ++ post)
     = Ok (trim body))
  /\ (forall text : jstring,
        fenced_group text = None ->
        first_opening text <> (-1)%Z ->
        (first_opening text <= last_closing text)%Z ->
        extractJson text
        = Ok (substring text (first_opening text) (last_closing text + 1))).
Proof.
  split.
  - intros pre body post Ho Hc Hb. rewrite extractJson_spec. unfold fenced_group.
    rewrite (search_fenced pre body post Ho Hc Hb).
    destruct (trim body) as [|c r] eqn:E; [now destruct Hb|].
    cbn [nonempty]. rewrite <- E. now rewrite trim_trim.
  - intros text F Hs Hl. rewrite extractJson_spec, F, bracket_search_spec.
    destruct (Z.eqb_spec (first_opening text) (-1)); [contradiction|]. cbn [orb].
    destruct (Z.ltb_spec (last_closing text) (first_opening text)); [lia|reflexivity].
Qed.

(* ================================================================== *)
(** * Properties of the auxiliary calls *)
(* ================================================================== *)

Section AuxiliaryFacts.

Variable env : Env.

(** A function that gets the client, makes one call for content and goes
    on with the answer. *)
Lemma single_call_run {B} s model contents config response
    (k : GenerateContentResponse -> M B) :
  client_ready env s ->
  models_generateContent env (requests s)
    (GenerateContentRequest model contents config) = Ok response ->
  exists s0,
    (client <- getAiClient env ;;
     answer <- generateContent env client model contents config ;;
     k answer) s
    = k response s0.
Proof.
  intros R H. destruct (getAiClient_ready env s R) as [c [s0 [G [A [Q _]]]]].
  eexists. unfold bind at 1. rewrite G. unfold bind at 1.
  unfold generateContent at 1. rewrite Q, H. reflexivity.
Qed.

Lemma collect_images_none ps :
  Forall (fun part => image_data part = None) ps -> collect_images ps = [].
Proof.
  unfold collect_images. induction 1 as [|part ps H _ IH]; [reflexivity|].
  cbn [flat_map]. now rewrite H, IH.
Qed.

Lemma returned_images_no_candidates a b response :
  no_candidates response -> returned_images a b response = Throw (JsError a).
Proof. intros [H|H]; unfold returned_images; now rewrite H. Qed.

Lemma returned_images_no_image a b response :
  no_image_data response -> returned_images a b response = Throw (JsError b).
Proof.
  intros [candidate [rest [ps [Hc [Hp Hn]]]]]. unfold returned_images.
  now rewrite Hc, Hp, (collect_images_none ps Hn).
Qed.

End AuxiliaryFacts.

(** C9 (as the code has it). [editImageWithMask] and [applyRepositionEdit]
    fail when the answer has no candidates and fail when its parts hold no
    image data. [segmentObjectsInImage] looks at neither: it fails when the
    answer has no text, when no JSON can be extracted from the text, when
    the JSON extracted cannot be parsed, and when the value parsed is
    [null]; in every other case it returns the field [objects] of the value
    parsed, or the empty list when that field is missing or falsy. *)
Theorem auxiliary_failure_idioms
    (env : Env) (s : State)
    (base64Data mimeType prompt maskBase64 generatedPrompt : jstring)
    (response : GenerateContentResponse) :
  client_ready env s ->
  (models_generateContent env (requests s)
     (mask_request base64Data mimeType prompt maskBase64) = Ok response ->
   (no_candidates response ->
    fst (editImageWithMask env base64Data mimeType prompt maskBase64 s)
    = Throw (JsError mask_no_candidates_message))
   /\ (no_image_data response ->
       fst (editImageWithMask env base64Data mimeType prompt maskBase64 s)
       = Throw (JsError mask_no_image_message)))
  /\ (models_generateContent env (requests s)
        (reposition_request base64Data mimeType generatedPrompt) = Ok response ->
      (no_candidates response ->
       fst (applyRepositionEdit env base64Data mimeType generatedPrompt s)
       = Throw (JsError reposition_no_candidates_message))
      /\ (no_image_data response ->
          fst (applyRepositionEdit env base64Data mimeType generatedPrompt s)
          = Throw (JsError reposition_no_image_message)))
  /\ (models_generateContent env (requests s)
        (segment_request base64Data mimeType) = Ok response ->
      (text response = None ->
       fst (segmentObjectsInImage env base64Data mimeType s)
       = Throw (JsError (typeErrorMessage env
                           (ReadOfNullish JUndefined (lit "match")))))
      /\ (forall t e,
            text response = Some t -> extractJson t = Throw e ->
            fst (segmentObjectsInImage env base64Data mimeType s) = Throw e)
      /\ (forall t json e,
            text response = Some t -> extractJson t = Ok json ->
            JSON_parse env json = Throw e ->
            fst (segmentObjectsInImage env base64Data mimeType s) = Throw e)
      /\ (forall t json result,
            text response = Some t -> extractJson t = Ok json ->
            JSON_parse env json = Ok result -> nullish result = true ->
            fst (segmentObjectsInImage env base64Data mimeType s)
            = Throw (JsError (typeErrorMessage env
                                (ReadOfNullish result (lit "objects")))))
      /\ (forall t json result,
            text response = Some t -> extractJson t = Ok json ->
            JSON_parse env json = Ok result -> nullish result = false ->
            fst (segmentObjectsInImage env base64Data mimeType s)
            = Ok (or_else (field result (lit "objects")) (JArr [])))).
Proof.
  intros R. split; [|split]; intros H.
  - split; intros N; unfold editImageWithMask;
      destruct (single_call_run env s _ _ _ response
                  (fun r => lift (returned_images mask_no_candidates_message
                                    mask_no_image_message r)) R H) as [s0 ->];
      unfold lift; cbn [fst].
    + now apply returned_images_no_candidates.
    + now apply returned_images_no_image.
  - split; intros N; unfold applyRepositionEdit;
      destruct (single_call_run env s _ _ _ response
                  (fun r => lift (returned_images reposition_no_candidates_message
                                    reposition_no_image_message r)) R H) as [s0 ->];
      unfold lift; cbn [fst].
    + now apply returned_images_no_candidates.
    + now apply returned_images_no_image.
  - unfold segmentObjectsInImage.
    destruct (single_call_run env s _ _ _ response
                (fun r => result <- parse_response env r ;;
                          objects <- lift (get env result (lit "objects")) ;;
                          ret (or_else objects (JArr []))) R H) as [s0 ->].
    unfold bind at 1. unfold parse_response.
    split; [|split; [|split; [|split]]].
    + intros N. rewrite N. reflexivity.
    + intros t e Ht He. rewrite Ht. unfold bind, lift. now rewrite He.
    + intros t json e Ht Hj Hp. rewrite Ht. unfold bind, lift. now rewrite Hj, Hp.
    + intros t json result Ht Hj Hp Hn. rewrite Ht. unfold bind, lift.
      rewrite Hj, Hp. destruct result; try discriminate Hn; reflexivity.
    + intros t json result Ht Hj Hp Hn. rewrite Ht. unfold bind, lift, ret.
      now rewrite Hj, Hp, (get_field env result _ Hn).
Qed.

(* ================================================================== *)
(** * Runs in the sample world *)
(* ================================================================== *)


Section SampleFacts.

Lemma sample_new_plan_arrives userPrompt aspectRatio :
  plan_arrives (Sample.world Sample.plan3) initial
    (new_plan_request (Sample.world Sample.plan3) userPrompt aspectRatio)
    Sample.plan3.
Proof.
  exists (Sample.planner_answer Sample.plan3), (Sample.planner_text Sample.plan3),
    (Sample.json_text Sample.plan3).
  repeat split; vm_compute; reflexivity.
Qed.

Lemma sample_edit_plan_arrives images userPrompt useWebSearch aspectRatio :
  plan_arrives (Sample.world Sample.plan3) initial
    (edit_plan_request (Sample.world Sample.plan3) images userPrompt
       useWebSearch aspectRatio)
    Sample.plan3.
Proof.
  exists (Sample.planner_answer Sample.plan3), (Sample.planner_text Sample.plan3),
    (Sample.json_text Sample.plan3).
  unfold edit_plan_request. destruct (default false useWebSearch);
    repeat split; vm_compute; reflexivity.
Qed.

Lemma sample_empty_plan_arrives req :
  (exists contents config, req = GenerateContentRequest planner_model contents config) ->
  plan_arrives (Sample.world Sample.plan_empty) initial req Sample.plan_empty.
Proof.
  intros [contents [config ->]].
  exists (Sample.planner_answer Sample.plan_empty),
    (Sample.planner_text Sample.plan_empty), (Sample.json_text Sample.plan_empty).
  repeat split; vm_compute; reflexivity.
Qed.

Lemma sample_plan_accepted :
  accepted Sample.plan3 [Sample.red; Sample.studio; Sample.dusk].
Proof.
  split; [vm_compute; reflexivity|]. split; [vm_compute; reflexivity|discriminate].
Qed.

Lemma sample_all_specs : all_specs [Sample.red; Sample.studio; Sample.dusk].
Proof. repeat constructor. Qed.

End SampleFacts.

Section LooseFacts.




End LooseFacts.



Lemma invalid_plan_is_fatal_witness :
  new_run_rejected (Sample.world Sample.plan_empty) (lit "a red bicycle on a beach")
    (Some true) (Some (lit "16:9")) initial Sample.plan_empty
  /\ edit_run_rejected (Sample.world Sample.plan_empty) [Sample.png]
       (lit "a red bicycle on a beach") (Some true) (Some (lit "16:9")) initial
       Sample.plan_empty.
Proof.
  destruct (invalid_plan_is_fatal (Sample.world Sample.plan_empty) [Sample.png]
              (lit "a red bicycle on a beach") (Some true) (Some (lit "16:9"))
              initial Sample.plan_empty) as [N E].
  - right. reflexivity.
  - right. reflexivity.
  - split; [apply N|apply E]; apply sample_empty_plan_arrives;
      eexists _, _; reflexivity.
Defined.

Lemma new_image_stream_of_three_witness :
  new_stream (Sample.world Sample.plan3) (lit "a red bicycle on a beach")
    None (Some (lit "16:9")) initial Sample.plan3
    [Sample.red; Sample.studio; Sample.dusk] 3.
Proof.
  apply new_image_stream_of_three.
  - right. reflexivity.
  - apply sample_new_plan_arrives.
  - exact sample_plan_accepted.
  - exact sample_all_specs.
  - reflexivity.
Defined.

(** In a new-image turn the variation without a prompt is rendered with the
    prompt of the user alone, which does not mention its title, and the
    retry payload of its error state stores the same. *)
Lemma new_image_fallback_omits_title :
  let userPrompt := lit "a red bicycle on a beach" in
  let run := generateNewImages (Sample.world Sample.plan3) userPrompt None
               (Some (lit "16:9")) initial in
  field Sample.studio (lit "modifiedPrompt") = JStr []
  /\ field Sample.studio (lit "title") = JStr (lit "Studio Shot")
  /\ nth_error (requests (snd run)) 2
     = Some (imagen_request (JStr userPrompt) (lit "16:9"))
  /\ (exists iv,
        nth_error (variations_of (emitted (snd run))) 1 = Some iv
        /\ isError iv = true
        /\ option_map payload_prompt (retryPayload iv) = Some (JStr userPrompt))
  /\ includes (lit "Studio Shot") userPrompt = false.
Proof.
  vm_compute. repeat split. eexists. repeat split.
Qed.

Lemma empty_prompt_fallback_witness :
  new_fallback_used (Sample.world Sample.plan3) (lit "a red bicycle on a beach")
    None (Some (lit "16:9")) initial Sample.plan3 1
  /\ edit_fallback_used (Sample.world Sample.plan3) [Sample.png]
       (lit "a red bicycle on a beach") None (Some (lit "16:9")) initial
       Sample.plan3 Sample.studio 1.
Proof.
  destruct (empty_prompt_fallback (Sample.world Sample.plan3) [Sample.png]
              (lit "a red bicycle on a beach") None (Some (lit "16:9")) initial
              Sample.plan3 [Sample.red; Sample.studio; Sample.dusk] 1 Sample.studio)
    as [N E].
  - right. reflexivity.
  - exact sample_plan_accepted.
  - exact sample_all_specs.
  - reflexivity.
  - reflexivity.
  - split; [apply N, sample_new_plan_arrives|apply E, sample_edit_plan_arrives].
Defined.


(** An input without any bracket or brace from which [extractJson] returns
    all the same: the fenced block is looked at first. *)
Lemma fenced_scalar_without_brackets :
  let text := lit "```json
42
```" in
  first_opening text = (-1)%Z
  /\ extractJson text = Ok (lit "42").
Proof. cbv zeta. split; vm_compute; reflexivity. Qed.

Lemma extractJson_bracket_search_witness :
  (extractJson (lit "I cannot help with that.")
   = Throw (JsError (no_json_message (lit "I cannot help with that.")))
   /\ includes (lit "I cannot help with that.")
        (no_json_message (lit "I cannot help with that.")) = true)
  /\ extractJson (lit "} before {") = Throw (JsError (no_json_message (lit "} before {")))
  /\ extractJson (lit "Plan: [1, {2}] done") = Ok (lit "[1, {2}]").
Proof.
  split; [|split].
  - apply (extractJson_bracket_search (lit "I cannot help with that."));
      [vm_compute; reflexivity|left; vm_compute; reflexivity].
  - apply (extractJson_bracket_search (lit "} before {"));
      [vm_compute; reflexivity|right; vm_compute; reflexivity].
  - apply (proj2 (extractJson_bracket_search (lit "Plan: [1, {2}] done") eq_refl));
      vm_compute; congruence.
Defined.

(** JSON whose text holds three backquotes, in a fenced block: the
    pattern ends the block at the first of them and what is returned is cut
    short.  A fenced block without the [json] tag is not seen by the
    pattern at all. *)
Lemma fenced_json_is_cut_at_backquotes :
  let json :=
    lit "{" ++ quoted (lit "note") ++ lit ":" ++ quoted (lit "use ``` for code")
      ++ lit "}" in
  let text := lit "```json
" ++ json ++ lit "
```" in
  extractJson text = Ok (lit "{" ++ quoted (lit "note") ++ lit ":" ++ dquote ++ lit "use")
  /\ extractJson text <> Ok json
  /\ extractJson (lit "```
42
```") <> Ok (lit "42").
Proof. vm_compute. repeat split; discriminate. Qed.

Lemma extractJson_fenced_or_bracketed_witness :
  extractJson (lit "Sure! " ++ open_fence ++ lit "
{a: [1]}
" ++ close_fence ++ lit " Enjoy. {x}")
  = Ok (lit "{a: [1]}")
  /\ extractJson (lit "Plan: [1, {2}] done") = Ok (lit "[1, {2}]").
Proof.
  split.
  - apply (proj1 extractJson_fenced_or_bracketed (lit "Sure! ") (lit "
{a: [1]}
") (lit " Enjoy. {x}")); vm_compute; congruence.
  - apply (proj2 extractJson_fenced_or_bracketed (lit "Plan: [1, {2}] done"));
      vm_compute; congruence.
Defined.

(** Object detection on an answer whose parts hold no image data: the call
    returns the objects of the text. *)
Lemma segmentation_returns_without_image_data :
  let env := Sample.world Sample.objects_answer in
  let response := Sample.planner_answer Sample.objects_answer in
  models_generateContent env []
    (segment_request (lit "iVBORw0KGgo=") (lit "image/png")) = Ok response
  /\ no_image_data response
  /\ fst (segmentObjectsInImage env (lit "iVBORw0KGgo=") (lit "image/png") initial)
     = Ok (field Sample.objects_answer (lit "objects")).
Proof.
  cbv zeta. split; [vm_compute; reflexivity|]. split; [|vm_compute; reflexivity].
  eexists _, _, _. split; [reflexivity|]. split; [reflexivity|].
  repeat constructor.
Qed.

(** A plan whose second entry has no prompt of its own: its render, the
    second of the run, fails and is reported with the message thrown and
    the prompt made up for it; the two other variations are rendered. *)
Example entry_without_prompt_fails_alone :
  let run := generateImageEdits Loose.bare_world [Sample.png]
               (lit "a red bicycle on a beach") (Some true) (Some (lit "16:9"))
               initial in
  fst run = Ok tt
  /\ map isError (variations_of (emitted (snd run))) = [false; true; false]
  /\ map errorMessage (variations_of (emitted (snd run)))
     = [None; Some (lit "429: quota exceeded"); None]
  /\ map (option_map payload_prompt)
       (map retryPayload (variations_of (emitted (snd run))))
     = [None; Some (JStr (lit "a red bicycle on a beach, in the style of: 2")); None]
  /\ length (requests (snd run)) = 4%nat.
Proof. vm_compute. repeat split. Qed.

Lemma auxiliary_failure_idioms_witness :
  fst (editImageWithMask (Sample.fixed_world Sample.empty_answer)
         (lit "iVBORw0KGgo=") (lit "image/png") (lit "paint it red")
         (lit "TUFTSw==") initial)
  = Throw (JsError mask_no_candidates_message)
  /\ fst (applyRepositionEdit
            (Sample.fixed_world (Sample.answer None [Sample.text_part (lit "Sorry.")]))
            (lit "iVBORw0KGgo=") (lit "image/png") (lit "Move the car.") initial)
     = Throw (JsError reposition_no_image_message)
  /\ fst (segmentObjectsInImage (Sample.world Sample.objects_answer)
            (lit "iVBORw0KGgo=") (lit "image/png") initial)
     = Ok (or_else (field Sample.objects_answer (lit "objects")) (JArr []))
  /\ fst (segmentObjectsInImage
            (Sample.fixed_world
               (Sample.answer (Some (lit "I see a bicycle.")) []))
            (lit "iVBORw0KGgo=") (lit "image/png") initial)
     = Throw (JsError (no_json_message (lit "I see a bicycle.")))
  /\ fst (segmentObjectsInImage (Sample.fixed_world Sample.empty_answer)
            (lit "iVBORw0KGgo=") (lit "image/png") initial)
     = Throw (JsError (typeErrorMessage (Sample.fixed_world Sample.empty_answer)
                         (ReadOfNullish JUndefined (lit "match")))).
Proof.
  split; [|split; [|split; [|split]]].
  - destruct (auxiliary_failure_idioms (Sample.fixed_world Sample.empty_answer) initial
                (lit "iVBORw0KGgo=") (lit "image/png") (lit "paint it red")
                (lit "TUFTSw==") (lit "Move the car.") Sample.empty_answer)
      as [[M _] _]; [right; reflexivity|reflexivity|].
    apply M. right. reflexivity.
  - destruct (auxiliary_failure_idioms
                (Sample.fixed_world (Sample.answer None [Sample.text_part (lit "Sorry.")]))
                initial (lit "iVBORw0KGgo=") (lit "image/png") (lit "paint it red")
                (lit "TUFTSw==") (lit "Move the car.")
                (Sample.answer None [Sample.text_part (lit "Sorry.")]))
      as [_ [A _]]; [right; reflexivity|].
    destruct A as [_ A]; [reflexivity|].
    apply A. eexists _, _, _. split; [reflexivity|]. split; [reflexivity|].
    repeat constructor.
  - destruct (auxiliary_failure_idioms (Sample.world Sample.objects_answer) initial
                (lit "iVBORw0KGgo=") (lit "image/png") (lit "paint it red")
                (lit "TUFTSw==") (lit "Move the car.")
                (Sample.planner_answer Sample.objects_answer))
      as [_ [_ S]]; [right; reflexivity|].
    destruct S as [_ [_ [_ [_ S]]]]; [vm_compute; reflexivity|].
    apply (S (Sample.planner_text Sample.objects_answer)
             (Sample.json_text Sample.objects_answer) Sample.objects_answer);
      [reflexivity|vm_compute; reflexivity|vm_compute; reflexivity|reflexivity].
  - destruct (auxiliary_failure_idioms
                (Sample.fixed_world (Sample.answer (Some (lit "I see a bicycle.")) []))
                initial (lit "iVBORw0KGgo=") (lit "image/png") (lit "paint it red")
                (lit "TUFTSw==") (lit "Move the car.")
                (Sample.answer (Some (lit "I see a bicycle.")) []))
      as [_ [_ S]]; [right; reflexivity|].
    destruct S as [_ [S _]]; [reflexivity|].
    apply (S (lit "I see a bicycle.")); [reflexivity|vm_compute; reflexivity].
  - destruct (auxiliary_failure_idioms (Sample.fixed_world Sample.empty_answer) initial
                (lit "iVBORw0KGgo=") (lit "image/png") (lit "paint it red")
                (lit "TUFTSw==") (lit "Move the car.") Sample.empty_answer)
      as [_ [_ S]]; [right; reflexivity|].
    destruct S as [S _]; [reflexivity|].
    apply S. reflexivity.
Defined.

Lemma edit_preconditions_witness :
  (editImageInternal (Sample.world Sample.plan3) (Some [Sample.png])
     (JStr (lit "   ")) initial
   = (Throw (JsError invalid_prompt_message), initial)
   /\ retryImageGeneration (Sample.world Sample.plan3) (Some [Sample.png])
        (JStr (lit "   ")) initial
      = (Throw (JsError invalid_prompt_message), initial))
  /\ (editImageInternal (Sample.world Sample.plan3) (Some [])
        (JStr (lit "make it red")) initial
      = (Throw (JsError no_image_input_message), initial)
      /\ retryImageGeneration (Sample.world Sample.plan3) (Some [])
           (JStr (lit "make it red")) initial
         = (Throw (JsError no_image_input_message), initial)).
Proof.
  split.
  - apply (edit_preconditions (Sample.world Sample.plan3) initial
             (Some [Sample.png]) (JStr (lit "   "))).
    left. vm_compute. reflexivity.
  - apply (edit_preconditions (Sample.world Sample.plan3) initial
             (Some []) (JStr (lit "make it red"))).
    right. reflexivity.
Defined.


(** The run of the specification: three variations, the second render
    fails; the first and the third variation are successes, the second is an
    error state, and all three renders were called. *)
Example second_render_fails :
  let run := generateNewImages (Sample.world Sample.plan3)
               (lit "a red bicycle on a beach") None (Some (lit "16:9")) initial in
  fst run = Ok tt
  /\ map isError (variations_of (emitted (snd run))) = [false; true; false]
  /\ map errorMessage (variations_of (emitted (snd run)))
     = [None; Some (lit "429: quota exceeded"); None]
  /\ length (requests (snd run)) = 4%nat.
Proof. vm_compute. repeat split. Qed.

(** The properties above are about plans whose variations are objects of
    the schema.  An entry that is [null] is none: reading its prompt fails,
    the handler in turn fails on reading its title, and the run ends with
    that error, before the render of the entry after it. *)
Remark null_entry_ends_the_run :
  let env := Sample.world Sample.plan_null in
  let run := generateNewImages env (lit "a red bicycle on a beach") None
               (Some (lit "16:9")) initial in
  fst run = Throw (JsError (typeErrorMessage env (ReadOfNullish JNull (lit "title"))))
  /\ variations_of (emitted (snd run)) = []
  /\ length (requests (snd run)) = 1%nat.
Proof. vm_compute. repeat split. Qed.

(* ================================================================== *)
(** * Further facts about [extractJson] *)
(* ================================================================== *)

Section CaptureFacts.

Import Regex.

Lemma trimStart_idem s : trimStart (trimStart s) = trimStart s.
Proof.
  destruct (trimStart s) as [|c r] eqn:E; [reflexivity|].
  apply trimStart_fixed. eapply trimStart_head. exact E.
Qed.

Lemma closes_spaces ws s : forallb is_space ws = true -> closes (ws ++ s) = closes s.
Proof. intros F. unfold closes. now rewrite trimStart_spaces. Qed.

Lemma not_closes_not_fence s : closes s = false -> starts_with close_fence s = false.
Proof.
  destruct s as [|c s]; [reflexivity|]. unfold closes. cbn [trimStart].
  destruct (is_space c) eqn:Hc; [intros _|auto].
  change (starts_with close_fence (c :: s))
    with (char_eqb 96%N c && starts_with (lit "``") s).
  now rewrite (space_not_backtick c Hc).
Qed.

Lemma starts_with_split l : forall s,
  starts_with l s = true -> s = l ++ skipn (length l) s.
Proof.
  induction l as [|x l IH]; intros [|c s] H; try reflexivity; try discriminate H.
  cbn [starts_with] in H. apply andb_true_iff in H as [Hx H].
  apply char_eqb_eq in Hx. subst c. cbn [length skipn app]. f_equal. now apply IH.
Qed.

Lemma starts_with_longer l : forall s rest,
  starts_with l s = true -> starts_with l (s ++ rest) = true.
Proof.
  induction l as [|x l IH]; intros [|c s] rest H; try reflexivity; try discriminate H.
  cbn [starts_with app] in *. apply andb_true_iff in H as [-> H]. now apply IH.
Qed.

(** Whether the group and the closing fence match does not depend on what
    the group holds already. *)
Lemma run_capture_none s : forall cap cap',
  run s (GroupLazy AnyChar :: closing) cap = None ->
  run s (GroupLazy AnyChar :: closing) cap' = None.
Proof.
  induction s as [|c s IH]; intros cap cap'.
  - rewrite (run_capture [] cap), (run_capture [] cap').
    destruct (closes []); [discriminate|auto].
  - rewrite (run_capture (c :: s) cap), (run_capture (c :: s) cap').
    destruct (closes (c :: s)); [discriminate|apply IH].
Qed.

Lemma run_capture_spaces ws : forall s cap cap',
  forallb is_space ws = true ->
  run s (GroupLazy AnyChar :: closing) cap = None ->
  run (ws ++ s) (GroupLazy AnyChar :: closing) cap' = None.
Proof.
  induction ws as [|c ws IH]; intros s cap cap' F H.
  - now apply (run_capture_none s cap).
  - assert (C : closes ((c :: ws) ++ s) = false).
    { rewrite closes_spaces by exact F. rewrite run_capture in H.
      destruct (closes s); [discriminate H|reflexivity]. }
    rewrite run_capture, C. cbn [app]. cbn in F. apply andb_true_iff in F as [_ F].
    now apply (IH s cap).
Qed.

(** The greedy [\s*] before the group ends up taking all the white space
    there is: giving some back never helps. *)
Lemma star_takes_all s : forall cap,
  run s (StarGreedy Space :: GroupLazy AnyChar :: closing) cap
  = run (trimStart s) (GroupLazy AnyChar :: closing) cap.
Proof.
  induction s as [|c s IH]; intros cap; rewrite run_star; [reflexivity|].
  cbn [accepts trimStart]. destruct (is_space c) eqn:Hc; [|reflexivity].
  rewrite IH. destruct (run (trimStart s) _ cap) as [r|] eqn:E; [reflexivity|].
  destruct (trimStart_split s) as [ws [Es F]]. rewrite Es at 1.
  change (c :: ws ++ trimStart s) with ((c :: ws) ++ trimStart s).
  apply (run_capture_spaces (c :: ws) (trimStart s) cap); [|exact E].
  cbn. now rewrite Hc.
Qed.

(** What the lazy group holds: the text up to the first place that
    closes. *)
Lemma capture_shape s : forall cap r,
  run s (GroupLazy AnyChar :: closing) cap = Some r ->
  exists core rest,
    s = core ++ rest /\ r = rev cap ++ core /\ closes rest = true
    /\ forall i, (i < length core)%nat -> closes (skipn i s) = false.
Proof.
  induction s as [|c s IH]; intros cap r; rewrite run_capture.
  - destruct (closes []) eqn:C; [|discriminate]. intros H. inversion H.
    exists [], []. split; [reflexivity|]. split; [now rewrite app_nil_r|].
    split; [exact C|]. intros i Hi. cbn in Hi. lia.
  - destruct (closes (c :: s)) eqn:C.
    + intros H. inversion H. exists [], (c :: s). split; [reflexivity|].
      split; [now rewrite app_nil_r|]. split; [exact C|].
      intros i Hi. cbn in Hi. lia.
    + intros H. destruct (IH _ _ H) as [core [rest [E [R [Cl N]]]]].
      exists (c :: core), rest. subst s r. split; [reflexivity|].
      split; [cbn [rev]; now rewrite <- app_assoc|]. split; [exact Cl|].
      intros [|i] Hi; [exact C|]. cbn [skipn]. apply N. cbn in Hi. lia.
Qed.

(** The group and the closing fence match as soon as the text closes
    somewhere. *)
Lemma run_capture_closes s : forall cap,
  run s (GroupLazy AnyChar :: closing) cap = None ->
  forall k, closes (skipn k s) = false.
Proof.
  induction s as [|c s IH]; intros cap; rewrite run_capture.
  - destruct (closes []) eqn:C; [discriminate|]. intros _ k. now rewrite skipn_nil.
  - destruct (closes (c :: s)) eqn:C; [discriminate|].
    intros H [|k]; [exact C|]. cbn [skipn]. now apply (IH (c :: cap)).
Qed.

(** An opening fence starts with a closing one. *)
Lemma open_fence_closes rest : closes (open_fence ++ rest) = true.
Proof. reflexivity. Qed.

Lemma forallb_skipn (p : char -> bool) k : forall l,
  forallb p l = true -> forallb p (skipn k l) = true.
Proof.
  induction k as [|k IH]; intros [|x l] H; try reflexivity; [exact H|].
  cbn [skipn]. cbn in H. apply andb_true_iff in H as [_ H]. now apply IH.
Qed.

(** A text that starts with an opening fence and closes somewhere after
    its first character closes somewhere after that fence. *)
Lemma closes_after_fence c text k :
  starts_with open_fence (c :: text) = true ->
  closes (skipn k text) = true ->
  exists k',
    closes (skipn k' (trimStart (skipn (length open_fence) (c :: text)))) = true.
Proof.
  intros S C. pose proof (starts_with_split _ _ S) as E.
  set (r0 := skipn (length open_fence) (c :: text)) in *. clearbody r0.
  vm_compute in E. injection E as _ Et. subst text.
  do 6 (destruct k as [|k]; [vm_compute in C; discriminate C|]).
  cbn [skipn] in C.
  destruct (trimStart_split r0) as [ws [Ew F]].
  remember (trimStart r0) as t eqn:Et. clear Et. subst r0.
  rewrite skipn_app in C.
  destruct (Nat.lt_ge_cases k (length ws)) as [L|L].
  - exists 0%nat. cbn [skipn].
    replace (k - length ws)%nat with 0%nat in C by lia. cbn [skipn] in C.
    rewrite closes_spaces in C by (now apply forallb_skipn). exact C.
  - exists (k - length ws)%nat. rewrite skipn_all2 in C by exact L. exact C.
Qed.

(** Where the pattern matches: after the first opening fence.  A later
    opening fence closes the first one, so that a match at a later fence
    means one at the first. *)
Lemma search_shape text : forall g,
  search fence_re text = Some g ->
  exists pre rest,
    text = pre ++ open_fence ++ rest
    /\ (forall k, (k < length pre)%nat ->
          starts_with open_fence (skipn k text) = false)
    /\ run (trimStart rest) (GroupLazy AnyChar :: closing) [] = Some g.
Proof.
  induction text as [|c text IH]; intros g; rewrite search_eq, fence_re_eq, run_literal.
  - cbn. discriminate.
  - destruct (starts_with open_fence (c :: text)) eqn:S.
    + rewrite star_takes_all.
      destruct (run (trimStart _) _ []) as [r|] eqn:R.
      * intros H. inversion H. subst r.
        exists [], (skipn (length open_fence) (c :: text)).
        split; [now apply starts_with_split|]. split; [|exact R].
        intros k Hk. cbn in Hk. lia.
      * intros H. destruct (IH g H) as [pre [rest [E _]]].
        assert (C : closes (skipn (length pre) text) = true).
        { rewrite E, skipn_length_app. apply open_fence_closes. }
        destruct (closes_after_fence c text _ S C) as [k Ck].
        rewrite (run_capture_closes _ _ R k) in Ck. discriminate Ck.
    + intros H. destruct (IH g H) as [pre [rest [E [F R]]]].
      exists (c :: pre), rest. split; [rewrite E at 1; reflexivity|].
      split; [|exact R].
      intros [|k] Hk; [exact S|]. cbn [skipn]. apply F. cbn in Hk. lia.
Qed.

Lemma trim_fixed c r a z :
  c :: r = a ++ [z] -> is_space c = false -> is_space z = false ->
  trim (c :: r) = c :: r.
Proof.
  intros E Hc Hz. unfold trim. rewrite trimStart_fixed by exact Hc.
  unfold trimEnd. rewrite E, rev_app_distr. cbn [rev app].
  rewrite trimStart_fixed by exact Hz. cbn [rev]. now rewrite rev_involutive.
Qed.

Lemma includes_nowhere needle g rest :
  needle <> [] ->
  (forall i, (i < length g)%nat -> starts_with needle (skipn i (g ++ rest)) = false) ->
  includes needle g = false.
Proof.
  intros Hn. induction g as [|c g IH]; intros H.
  - destruct needle; [now destruct Hn|reflexivity].
  - cbn [includes]. apply orb_false_iff. split.
    + destruct (starts_with needle (c :: g)) eqn:S; [|reflexivity].
      rewrite <- (H 0%nat) by (cbn; lia). cbn [skipn].
      symmetry. now apply starts_with_longer.
    + apply IH. intros i Hi. apply (H (S i)). cbn. lia.
Qed.

(** What the fence pattern captures, when it is not empty: the text after
    the first opening fence and the white space behind it, up to the first
    closing fence; it neither starts nor ends with white space and holds no
    closing fence. *)
Lemma fenced_group_shape text g :
  fenced_group text = Some g ->
  exists pre ws rest,
    text = pre ++ open_fence ++ ws ++ g ++ rest
    /\ (forall k, (k < length pre)%nat ->
          starts_with open_fence (skipn k text) = false)
    /\ forallb is_space ws = true /\ closes rest = true
    /\ g <> [] /\ trim g = g /\ includes close_fence g = false.
Proof.
  unfold fenced_group. destruct (search fence_re text) as [g0|] eqn:S; [|discriminate].
  destruct (nonempty g0) eqn:Ng; [|discriminate]. intros H. inversion H. subst g0.
  destruct (search_shape text g S) as [pre [rest0 [E [First R]]]].
  destruct (capture_shape _ _ _ R) as [core [rest [Ec [Eg [Cl N]]]]].
  cbn [rev app] in Eg. subst core.
  destruct (trimStart_split rest0) as [ws [Ew F]].
  exists pre, ws, rest.
  split; [rewrite E, Ew at 1; now rewrite Ec|]. split; [exact First|].
  split; [exact F|]. split; [exact Cl|]. split; [|split].
  - intros ->. discriminate Ng.
  - destruct g as [|c r]; [discriminate Ng|].
    assert (Hc : is_space c = false) by (eapply trimStart_head; exact Ec).
    destruct (exists_last (l := c :: r)) as [a [z Ez]]; [discriminate|].
    apply (trim_fixed c r a z Ez Hc).
    destruct (is_space z) eqn:Hz; [|reflexivity].
    specialize (N (length a)). rewrite Ec, Ez, <- app_assoc, skipn_length_app in N.
    rewrite (closes_spaces [z] rest) in N by (cbn; now rewrite Hz).
    rewrite Cl in N. symmetry. symmetry in N. apply N. rewrite length_app. cbn. lia.
  - apply (includes_nowhere close_fence g rest); [discriminate|].
    intros i Hi. apply not_closes_not_fence. rewrite <- Ec. now apply N.
Qed.

End CaptureFacts.

Section BracketFacts.

Lemma first_index_split p s :
  first_index p s <> (-1)%Z ->
  exists pre c post,
    s = pre ++ c :: post /\ Z.of_nat (length pre) = first_index p s /\ p c = true.
Proof.
  induction s as [|x s IH]; cbn [first_index]; [intros H; now destruct H|].
  destruct (p x) eqn:Hx.
  - intros _. exists [], x, s. auto.
  - destruct (Z.eqb_spec (first_index p s) (-1)) as [E|E]; [intros H; now destruct H|].
    intros _. destruct (IH E) as [pre [c [post [Es [L Hc]]]]].
    exists (x :: pre), c, post. subst s. repeat split; auto. cbn [length]. lia.
Qed.

Lemma last_index_split p s :
  last_index p s <> (-1)%Z ->
  exists pre c post,
    s = pre ++ c :: post /\ Z.of_nat (length pre) = last_index p s /\ p c = true.
Proof.
  induction s as [|x s IH]; cbn [last_index]; [intros H; now destruct H|].
  destruct (Z.eqb_spec (last_index p s) (-1)) as [E|E].
  - destruct (p x) eqn:Hx; [|intros H; now destruct H].
    intros _. exists [], x, s. auto.
  - intros _. destruct (IH E) as [pre [c [post [Es [L Hc]]]]].
    exists (x :: pre), c, post. subst s. repeat split; auto. cbn [length]. lia.
Qed.

Lemma opening_not_space c : is_opening c = true -> is_space c = false.
Proof.
  unfold is_opening. intros H. apply orb_true_iff in H as [H|H];
    apply N.eqb_eq in H; subst c; reflexivity.
Qed.

Lemma closing_not_space c : is_closing c = true -> is_space c = false.
Proof.
  unfold is_closing. intros H. apply orb_true_iff in H as [H|H];
    apply N.eqb_eq in H; subst c; reflexivity.
Qed.

Lemma opening_not_closing c : is_opening c = true -> is_closing c = false.
Proof.
  unfold is_opening. intros H. apply orb_true_iff in H as [H|H];
    apply N.eqb_eq in H; subst c; reflexivity.
Qed.

(** What the bracket search returns: a part of the text that starts with
    an opening character and ends with a closing one. *)
Lemma bracket_search_shape text j :
  bracket_search text = Ok j ->
  exists pre o mid c post,
    text = pre ++ j ++ post /\ j = o :: mid ++ [c]
    /\ is_opening o = true /\ is_closing c = true.
Proof.
  rewrite bracket_search_spec.
  destruct (Z.eqb_spec (first_opening text) (-1)) as [E|E]; [discriminate|]. cbn [orb].
  destruct (Z.ltb_spec (last_closing text) (first_opening text)) as [L|L]; [discriminate|].
  intros H. injection H as J.
  destruct (first_index_split is_opening text E) as [p1 [o [q1 [E1 [L1 Ho]]]]].
  fold (first_opening text) in L1.
  assert (E' : last_closing text <> (-1)%Z).
  { pose proof (first_index_ge is_opening text). unfold first_opening in *. lia. }
  destruct (last_index_split is_closing text E') as [p2 [c [q2 [E2 [L2 Hc]]]]].
  fold (last_closing text) in L2.
  assert (Lt : (length p1 < length p2)%nat).
  { assert (length p1 <> length p2); [|lia]. intros Q.
    assert (X : nth_error text (length p1) = Some o)
      by (rewrite E1, nth_error_app2, Nat.sub_diag by lia; reflexivity).
    assert (Y : nth_error text (length p2) = Some c)
      by (rewrite E2, nth_error_app2, Nat.sub_diag by lia; reflexivity).
    rewrite Q in X. rewrite X in Y. inversion Y. subst c.
    rewrite (opening_not_closing o Ho) in Hc. discriminate. }
  assert (P : p2 = p1 ++ o :: skipn (S (length p1)) p2).
  { assert (F : firstn (S (length p1)) text = p1 ++ [o]).
    { rewrite E1. rewrite firstn_app, firstn_all2 by lia.
      replace (S (length p1) - length p1)%nat with 1%nat by lia. reflexivity. }
    rewrite E2 in F. rewrite firstn_app in F.
    replace (S (length p1) - length p2)%nat with 0%nat in F by lia.
    rewrite firstn_O, app_nil_r in F.
    rewrite <- (firstn_skipn (S (length p1)) p2) at 1. rewrite F, <- app_assoc.
    reflexivity. }
  set (mid := skipn (S (length p1)) p2) in *. clearbody mid.
  exists p1, o, mid, c, q2.
  assert (T : text = p1 ++ (o :: mid ++ [c]) ++ q2).
  { rewrite E2, P at 1. rewrite <- !app_assoc. cbn [app]. now rewrite <- app_assoc. }
  assert (Lm : length p2 = (length p1 + S (length mid))%nat).
  { rewrite P at 1. rewrite length_app. reflexivity. }
  assert (J' : j = o :: mid ++ [c]).
  { rewrite <- J. unfold substring. rewrite <- L1, <- L2.
    assert (Len : length text = (length p1 + (S (length mid) + 1) + length q2)%nat).
    { rewrite T at 1. rewrite !length_app. cbn [length]. rewrite length_app. cbn. lia. }
    replace (Z.min (Z.min (Z.max (Z.of_nat (length p1)) 0) (Z.of_nat (length text)))
               (Z.min (Z.max (Z.of_nat (length p2) + 1) 0) (Z.of_nat (length text))))
      with (Z.of_nat (length p1)) by lia.
    replace (Z.max (Z.min (Z.max (Z.of_nat (length p1)) 0) (Z.of_nat (length text)))
               (Z.min (Z.max (Z.of_nat (length p2) + 1) 0) (Z.of_nat (length text))))
      with (Z.of_nat (length p2) + 1)%Z by lia.
    rewrite Nat2Z.id.
    replace (Z.to_nat (Z.of_nat (length p2) + 1 - Z.of_nat (length p1)))
      with (length (o :: mid ++ [c])) by (cbn [length]; rewrite length_app; cbn; lia).
    rewrite T at 1. rewrite skipn_length_app.
    rewrite firstn_app, firstn_all, Nat.sub_diag. cbn [firstn]. now rewrite app_nil_r. }
  rewrite J'. auto.
Qed.

End BracketFacts.

(* ================================================================== *)
(** * The client, the edit render, the reposition prompt *)
(* ================================================================== *)

Section ClientFacts.

Variable env : Env.

Lemma getAiClient_missing s :
  no_key env s -> getAiClient env s = (Throw (JsError missing_key_message), s).
Proof.
  intros [A K]. unfold getAiClient. rewrite A.
  destruct (API_KEY env) as [key|]; [cbn in K; rewrite K|]; reflexivity.
Qed.

Lemma getAiClient_counters s :
  clock_reads (snd (getAiClient env s)) = clock_reads s
  /\ random_draws (snd (getAiClient env s)) = random_draws s.
Proof.
  unfold getAiClient. destruct (ai s); [auto|].
  destruct (API_KEY env) as [key|]; [destruct (nonempty key)|]; auto.
Qed.

Lemma keeps_silent {A} (m : M A) :
  (forall s, ai (snd (m s)) = ai s) -> keeps_client m.
Proof. intros H s c Hc. now rewrite H. Qed.

Lemma keeps_ret {A} (a : A) : keeps_client (ret a).
Proof. apply keeps_silent. reflexivity. Qed.

Lemma keeps_throw {A} t : keeps_client (@throw A t).
Proof. apply keeps_silent. reflexivity. Qed.

Lemma keeps_lift {A} (r : Result A) : keeps_client (lift r).
Proof. apply keeps_silent. reflexivity. Qed.

Lemma keeps_yield ev : keeps_client (yield ev).
Proof. apply keeps_silent. reflexivity. Qed.

Lemma keeps_now : keeps_client (now env).
Proof. apply keeps_silent. reflexivity. Qed.

Lemma keeps_random : keeps_client (random env).
Proof. apply keeps_silent. reflexivity. Qed.

Lemma keeps_generateContent client model contents config :
  keeps_client (generateContent env client model contents config).
Proof. apply keeps_silent. reflexivity. Qed.

Lemma keeps_generateImages client model prompt n aspectRatio :
  keeps_client (generateImages env client model prompt n aspectRatio).
Proof. apply keeps_silent. reflexivity. Qed.

Lemma keeps_getAiClient : keeps_client (getAiClient env).
Proof. intros s c Hc. unfold getAiClient. now rewrite Hc. Qed.

Lemma keeps_bind {A B} (m : M A) (k : A -> M B) :
  keeps_client m -> (forall a, keeps_client (k a)) -> keeps_client (bind m k).
Proof.
  intros Hm Hk s c Hc. unfold bind. specialize (Hm s c Hc).
  destruct (m s) as [[a|t] s1]; cbn [snd] in *; [now apply Hk|exact Hm].
Qed.

Lemma keeps_try {A} (m : M A) (handler : Thrown -> M A) :
  keeps_client m -> (forall t, keeps_client (handler t)) ->
  keeps_client (try_catch m handler).
Proof.
  intros Hm Hh s c Hc. unfold try_catch. specialize (Hm s c Hc).
  destruct (m s) as [[a|t] s1]; cbn [snd] in *; [exact Hm|now apply Hh].
Qed.

Lemma keeps_for_of {A} (l : list A) (body : A -> M unit) :
  (forall x, keeps_client (body x)) -> keeps_client (for_of l body).
Proof.
  intros H. induction l as [|x l IH]; cbn [for_of].
  - apply keeps_ret.
  - apply keeps_bind; auto.
Qed.

End ClientFacts.

Create HintDb keeps.

#[local] Hint Resolve keeps_ret keeps_throw keeps_lift keeps_yield keeps_now
  keeps_random keeps_generateContent keeps_generateImages keeps_getAiClient
  : keeps.

(** Goes through a computation as [emits_step] does. *)
Ltac keeps_step :=
  match goal with
  | |- keeps_client (bind _ _) => apply keeps_bind; [|intros]
  | |- keeps_client (try_catch _ _) => apply keeps_try; [|intros]
  | |- keeps_client (for_of _ _) => apply keeps_for_of; intros
  | |- keeps_client (match ?x with _ => _ end) => destruct x
  | |- keeps_client (let (_, _) := ?x in _) => destruct x
  | |- keeps_client _ => solve [auto with keeps]
  end.

Section KeepsService.

Variable env : Env.

Lemma keeps_editImageInternal images prompt :
  keeps_client (editImageInternal env images prompt).
Proof. unfold editImageInternal, rethrow. repeat keeps_step. Qed.

Lemma keeps_retryNewImageGeneration prompt aspectRatio :
  keeps_client (retryNewImageGeneration env prompt aspectRatio).
Proof. unfold retryNewImageGeneration. repeat keeps_step. Qed.

Lemma keeps_parse_response response : keeps_client (parse_response env response).
Proof. unfold parse_response. repeat keeps_step. Qed.

Lemma keeps_generateNewImages userPrompt useWebSearch aspectRatio :
  keeps_client (generateNewImages env userPrompt useWebSearch aspectRatio).
Proof.
  pose proof keeps_retryNewImageGeneration. pose proof keeps_parse_response.
  unfold generateNewImages, new_image_turn, check_plan, fresh_id. cbv zeta.
  repeat keeps_step.
Qed.

Lemma keeps_generateImageEdits images userPrompt useWebSearch aspectRatio :
  keeps_client (generateImageEdits env images userPrompt useWebSearch aspectRatio).
Proof.
  pose proof keeps_editImageInternal. pose proof keeps_parse_response.
  unfold generateImageEdits, edit_turn, edit_prompt, check_plan, fresh_id. cbv zeta.
  repeat keeps_step.
Qed.

Lemma keeps_segmentObjectsInImage base64Data mimeType :
  keeps_client (segmentObjectsInImage env base64Data mimeType).
Proof.
  pose proof keeps_parse_response. unfold segmentObjectsInImage. repeat keeps_step.
Qed.

Lemma keeps_editImageWithMask base64Data mimeType prompt maskBase64 :
  keeps_client (editImageWithMask env base64Data mimeType prompt maskBase64).
Proof. unfold editImageWithMask. repeat keeps_step. Qed.

Lemma keeps_applyRepositionEdit image mimeType prompt :
  keeps_client (applyRepositionEdit env image mimeType prompt).
Proof. unfold applyRepositionEdit. repeat keeps_step. Qed.

Lemma keeps_generateRepositionPrompt stringify image data :
  keeps_client (generateRepositionPrompt env stringify image data).
Proof. unfold generateRepositionPrompt. repeat keeps_step. Qed.

(* ---------------------------------------------------------------- *)
(** ** The edit render *)

Lemma last_of_cons {A} (l : list A) : forall a d, last (a :: l) d = last l a.
Proof.
  induction l as [|b l IH]; intros a d; [reflexivity|].
  change (last (a :: b :: l) d) with (last (b :: l) d). now rewrite !IH.
Qed.

Lemma last_map_Some {A} (l : list A) : forall d,
  last (map Some l) (Some d) = Some (last l d).
Proof.
  induction l as [|b l IH]; intros d; [reflexivity|].
  cbn [map]. now rewrite !last_of_cons, IH.
Qed.

(** The scan of [editImageInternal] ends with the last image among the
    parts. *)
Lemma scan_last ps : forall i t,
  fst (fold_left scan_part ps (i, t)) = last (map Some (collect_images ps)) i.
Proof.
  unfold collect_images.
  induction ps as [|part ps IH]; intros i t; [reflexivity|].
  cbn [fold_left flat_map]. unfold scan_part at 2.
  destruct (image_data part) as [d|].
  - rewrite IH. cbn [app map]. now rewrite last_of_cons.
  - destruct (some_nonempty (part_text part)); apply IH.
Qed.

Lemma editImageInternal_effect images prompt s :
  let (r, s') := editImageInternal env images prompt s in
  (forall t, r = Throw t -> exists message, t = JsError message)
  /\ emitted s' = emitted s /\ clock_reads s' = clock_reads s
  /\ random_draws s' = random_draws s
  /\ (requests s' = requests s
      \/ exists imgs p,
           images = Some imgs /\ prompt = JStr p
           /\ requests s' = requests s ++ [edit_request imgs p]).
Proof.
  assert (Early : forall message,
            (forall t, Throw (A := jstring) (JsError message) = Throw t ->
                       exists message', t = JsError message')
            /\ emitted s = emitted s /\ clock_reads s = clock_reads s
            /\ random_draws s = random_draws s
            /\ (requests s = requests s
                \/ exists imgs p,
                     images = Some imgs /\ prompt = JStr p
                     /\ requests s = requests s ++ [edit_request imgs p])).
  { intros message. repeat split; auto. intros t H. inversion H. eauto. }
  unfold editImageInternal, try_catch.
  destruct prompt as [| | | |p| |]; try apply Early.
  destruct (negb (nonempty p) || negb (nonempty (trim p))); [apply Early|].
  destruct images as [[|img imgs]|]; try apply Early.
  unfold bind at 1.
  destruct (getAiClient_effect env s) as [Q0 [E0 [_ T0]]].
  destruct (getAiClient_counters env s) as [C0 D0].
  destruct (getAiClient env s) as [[c|t] s0]; cbn [fst snd] in *.
  2:{ destruct (T0 t eq_refl) as [-> [-> _]]. apply Early. }
  unfold bind, generateContent, lift, rethrow, throw.
  fold (edit_request (img :: imgs) p).
  assert (Late : forall r : Result jstring,
            (forall t, r = Throw t -> exists message, t = JsError message) ->
            (forall t, r = Throw t -> exists message, t = JsError message)
            /\ emitted (log (edit_request (img :: imgs) p) s0) = emitted s
            /\ clock_reads (log (edit_request (img :: imgs) p) s0) = clock_reads s
            /\ random_draws (log (edit_request (img :: imgs) p) s0) = random_draws s
            /\ (requests (log (edit_request (img :: imgs) p) s0) = requests s
                \/ exists imgs0 p0,
                     Some (img :: imgs) = Some imgs0 /\ JStr p = JStr p0
                     /\ requests (log (edit_request (img :: imgs) p) s0)
                        = requests s ++ [edit_request imgs0 p0])).
  { intros r H. cbn. rewrite Q0. repeat split; auto. right. eauto. }
  destruct (models_generateContent env (requests s0) _) as [response|[message|x]].
  - destruct (read_edited_image response) as [bytes|t] eqn:R.
    + apply Late. discriminate.
    + destruct (read_edited_image_throws response t R) as [message ->].
      apply Late. intros t H. inversion H. eauto.
  - apply Late. intros t H. inversion H. eauto.
  - apply Late. intros t H. inversion H. eauto.
Qed.

End KeepsService.

Section RepositionFacts.

Variable env : Env.
Variable JSON_stringify : JSValue -> jstring.

Lemma generateRepositionPrompt_run image data s response :
  client_ready env s ->
  models_generateContent env (requests s)
    (reposition_prompt_request image (JSON_stringify data)) = Ok response ->
  exists s',
    generateRepositionPrompt env JSON_stringify image data s
    = (match text response with
       | Some t => Ok (trim t)
       | None => TypeError env (ReadOfNullish JUndefined (lit "trim"))
       end, s')
    /\ requests s' = requests s
                       ++ [reposition_prompt_request image (JSON_stringify data)]
    /\ emitted s' = emitted s.
Proof.
  intros R H. destruct (getAiClient_ready env s R) as [c [s0 [G [A [Q [E _]]]]]].
  unfold generateRepositionPrompt. unfold bind at 1. rewrite G.
  unfold bind at 1. unfold generateContent at 1.
  fold (reposition_prompt_request image (JSON_stringify data)). rewrite Q, H.
  exists (log (reposition_prompt_request image (JSON_stringify data)) s0).
  cbn [log requests emitted]. rewrite Q, E.
  destruct (text response); auto.
Qed.

End RepositionFacts.

(* ================================================================== *)
(** * The gallery and the retry of one variation *)
(* ================================================================== *)

Section GalleryFacts.

Lemma findIndex_none l :
  Forall (fun img => isLoading img = false) l -> findIndex isLoading l = (-1)%Z.
Proof.
  induction 1 as [|img l H _ IH]; [reflexivity|].
  cbn [findIndex]. now rewrite H, IH.
Qed.

Lemma findIndex_first old p rest :
  Forall (fun img => isLoading img = false) old -> isLoading p = true ->
  findIndex isLoading (old ++ p :: rest) = Z.of_nat (length old).
Proof.
  intros H Hp. induction H as [|img l H _ IH]; cbn [app findIndex length].
  - now rewrite Hp.
  - rewrite H, IH. destruct (Z.eqb_spec (Z.of_nat (length l)) (-1)); lia.
Qed.

Lemma assign_middle {A} (old : list A) p rest x :
  assign (old ++ p :: rest) (length old) x = old ++ x :: rest.
Proof. induction old as [|y old IH]; cbn; [reflexivity|]. now rewrite IH. Qed.

(** A result takes the place of the first placeholder. *)
Lemma place_first old p rest v :
  Forall (fun img => isLoading img = false) old -> isLoading p = true ->
  place (old ++ p :: rest) v = (old ++ [received_image v]) ++ rest.
Proof.
  intros H Hp. unfold place. rewrite (findIndex_first old p rest H Hp).
  destruct (Z.eqb_spec (Z.of_nat (length old)) (-1)); [lia|].
  rewrite Nat2Z.id, assign_middle, <- app_assoc. reflexivity.
Qed.

(** Without a placeholder the gallery stays as it is. *)
Lemma place_full gallery v :
  Forall (fun img => isLoading img = false) gallery -> place gallery v = gallery.
Proof. intros H. unfold place. now rewrite (findIndex_none gallery H). Qed.

Lemma variations_of_cons ev evs :
  variations_of (ev :: evs)
  = match ev with Variation v => v :: variations_of evs | _ => variations_of evs end.
Proof. destruct ev; reflexivity. Qed.

(** The loop of [handleSendPrompt], from any point on: the results go to
    the placeholders, first to first, as long as there are some. *)
Lemma receive_in_album_run evs : forall old phs t,
  Forall (fun img => isLoading img = false) old ->
  Forall (fun img => isLoading img = true) phs ->
  fold_left receive_in_album evs {| received := t; currentGallery := old ++ phs |}
  = {| received := fold_left receive evs t;
       currentGallery :=
         old ++ map received_image (firstn (length phs) (variations_of evs))
             ++ skipn (length (variations_of evs)) phs |}.
Proof.
  induction evs as [|ev evs IH]; intros old phs t Ho Hp.
  - cbn. rewrite firstn_nil. reflexivity.
  - cbn [fold_left]. unfold receive_in_album at 2. cbn [received currentGallery].
    rewrite variations_of_cons.
    destruct ev as [message|plan grounding|v]; try (now apply IH).
    destruct phs as [|p phs].
    + rewrite app_nil_r, (place_full old v Ho).
      rewrite <- (app_nil_r old) at 1. rewrite IH by auto.
      cbn [length firstn map skipn app]. now rewrite !skipn_nil.
    + inversion Hp as [|? ? Hp1 Hp2]; subst.
      rewrite (place_first old p phs v Ho Hp1).
      rewrite IH; [|apply Forall_app; split; [exact Ho|repeat constructor]|exact Hp2].
      cbn [length firstn map skipn app]. now rewrite <- app_assoc.
Qed.

Lemma filter_drops_all {A} (f : A -> bool) l :
  Forall (fun x => f x = false) l -> filter f l = [].
Proof. induction 1 as [|x l H _ IH]; [reflexivity|]. cbn. now rewrite H. Qed.

Lemma filter_keeps_all {A} (f : A -> bool) l :
  Forall (fun x => f x = true) l -> filter f l = l.
Proof. induction 1 as [|x l H _ IH]; [reflexivity|]. cbn. now rewrite H, IH. Qed.

Lemma Forall_after_skipn {A} (P : A -> Prop) n : forall l,
  Forall P l -> Forall P (skipn n l).
Proof.
  induction n as [|n IH]; intros l H; [exact H|].
  destruct H as [|x l Hx H]; [constructor|]. cbn [skipn]. now apply IH.
Qed.

Lemma for_await_variations evs : forall t,
  finalVariations (fold_left receive evs t) = finalVariations t ++ variations_of evs.
Proof.
  induction evs as [|ev evs IH]; intros t.
  - cbn. now rewrite app_nil_r.
  - cbn [fold_left]. rewrite IH, variations_of_cons.
    destruct ev; cbn [receive finalVariations]; [reflexivity|reflexivity|].
    now rewrite <- app_assoc.
Qed.

Lemma placeholderVariations_run env s :
  exists p0 p1 p2 s',
    placeholderVariations env s = (Ok [p0; p1; p2], s')
    /\ Forall (fun img => isLoading img = true) [p0; p1; p2]
    /\ emitted s' = emitted s /\ requests s' = requests s.
Proof.
  unfold placeholderVariations, placeholder, bind, now, ret. cbn.
  eexists _, _, _, _. split; [reflexivity|]. cbn. repeat constructor.
Qed.

End GalleryFacts.

Section RetryFacts.

Variable env : Env.
Variables MessageRest AlbumRest : Type.


Lemma handleRetryVariation_run (album : Album MessageRest AlbumRest) failed payload s :
  retryPayload (variation_of failed) = Some payload ->
  handleRetryVariation env album failed s =
  match retry_render env payload s with
  | (Ok (bytes, mime), s1) =>
      (Ok [updateVariationState album failed (loadingVariation failed);
           updateVariationState album failed
             (newVariation failed
                (lit "data:" ++ mime ++ lit ";base64," ++ template_opt bytes)
                (Date_now env (clock_reads s1)))],
       snd (now env s1))
  | (Throw t, s1) =>
      (Ok [updateVariationState album failed (loadingVariation failed);
           updateVariationState album failed (newErrorVariation failed t)],
       s1)
  end.
Proof.
  intros H. unfold handleRetryVariation. rewrite H. unfold try_catch, bind.
  destruct (retry_render env payload s) as [[[bytes mime]|t] s1]; reflexivity.
Qed.

Lemma retry_render_new payload s c :
  ai s = Some c -> no_images (payload_images payload) = true ->
  retry_render env payload s
  = (match new_render env (requests s) (payload_prompt payload)
             (ratio_or_square (payload_aspectRatio payload)) with
     | Ok bytes => Ok (bytes, lit "image/png")
     | Throw t => Throw t
     end,
     log (imagen_request (payload_prompt payload)
            (ratio_or_square (payload_aspectRatio payload))) s).
Proof.
  intros Hc Hn. unfold retry_render.
  destruct (payload_images payload) as [[|img imgs]|]; try discriminate Hn;
    unfold bind; rewrite (retryNewImageGeneration_run env s c _ _ Hc);
    destruct (new_render env (requests s) _ _); reflexivity.
Qed.

Lemma retry_render_edit payload s c img imgs q :
  ai s = Some c -> payload_images payload = Some (img :: imgs) ->
  payload_prompt payload = JStr q ->
  nonempty q = true -> nonempty (trim q) = true ->
  retry_render env payload s
  = (match edit_render env (requests s) (img :: imgs) q with
     | Ok bytes => Ok (Some bytes, mimeType img)
     | Throw t => Throw t
     end,
     log (edit_request (img :: imgs) q) s).
Proof.
  intros Hc Hi Hp V1 V2. unfold retry_render, retryImageGeneration. rewrite Hi, Hp.
  unfold bind. rewrite (editImageInternal_run env s c (img :: imgs) q Hc V1 V2).
  destruct (edit_render env (requests s) (img :: imgs) q); reflexivity.
Qed.




End RetryFacts.

Section RetryAfterFailure.

Variable env : Env.

Lemma not_longer_by_one {A} (l : list A) x : l = l ++ [x] -> False.
Proof.
  intros H. apply (f_equal (@length A)) in H. rewrite length_app in H. cbn in H. lia.
Qed.

(** A turn of [generateNewImages] that yields an error state has made the
    call that its payload describes. *)
Lemma new_image_turn_error userPrompt aspectRatio v s c r s1 iv :
  ai s = Some c ->
  new_image_turn env userPrompt aspectRatio v s = (r, s1) ->
  emitted s1 = emitted s ++ [Variation iv] -> isError iv = true ->
  ai s1 = Some c
  /\ requests s1 = requests s ++ [imagen_request (new_prompt userPrompt v) aspectRatio]
  /\ retryPayload iv = Some (new_payload userPrompt aspectRatio v).
Proof.
  intros Hc. destruct (nullish v) eqn:N.
  - assert (E : exists t, new_image_turn env userPrompt aspectRatio v s = (Throw t, s))
      by (destruct v; try discriminate N; eexists; reflexivity).
    destruct E as [t ->]. intros H He. inversion H. subst.
    now apply not_longer_by_one in He.
  - unfold new_image_turn, try_catch, bind, lift.
    rewrite !(get_field env v _ N). rewrite (retryNewImageGeneration_run env s c _ _ Hc).
    fold (new_prompt userPrompt v).
    destruct (new_render env (requests s) _ aspectRatio) as [bytes|t].
    + intros H He. inversion H. subst. cbn in He.
      apply app_inv_head in He. inversion He. subst iv. discriminate.
    + destruct (toStr env (field v (lit "title"))) as [shown|t'].
      * intros H He. inversion H. subst. cbn in He.
        apply app_inv_head in He. inversion He. subst iv. intros _. cbn. auto.
      * intros H He. inversion H. subst. cbn in He. now apply not_longer_by_one in He.
Qed.

(** The same for a turn of [generateImageEdits]. *)
Lemma edit_turn_error images userPrompt v s c r s1 iv :
  ai s = Some c ->
  edit_turn env images userPrompt v s = (r, s1) ->
  emitted s1 = emitted s ++ [Variation iv] -> isError iv = true ->
  exists q,
    nonempty q = true /\ nonempty (trim q) = true
    /\ ai s1 = Some c
    /\ requests s1 = requests s ++ edit_calls images q
    /\ retryPayload iv
       = Some {| payload_images := Some images; payload_prompt := JStr q;
                 payload_aspectRatio := None |}.
Proof.
  intros Hc. unfold edit_turn, try_catch. unfold bind at 1. rewrite edit_prompt_pure.
  destruct (edit_prompt_result env userPrompt v) as [p|t] eqn:E.
  - destruct (edit_prompt_ok env userPrompt v p E) as [N [q [-> [V1 V2]]]].
    unfold bind at 1. rewrite (editImageInternal_run env s c images q Hc V1 V2).
    destruct (edit_render env (requests s) images q) as [bytes|t] eqn:R.
    + destruct images as [|img images]; [discriminate R|].
      unfold bind, lift. rewrite !(get_field env v _ N).
      intros H He. inversion H. subst. cbn in He.
      apply app_inv_head in He. inversion He. subst iv. discriminate.
    + unfold bind at 1. unfold lift at 1. rewrite (get_field env v _ N).
      unfold bind at 1. unfold lift at 1.
      destruct (toStr env (field v (lit "title"))) as [shown|t'].
      * unfold bind at 1. rewrite edit_prompt_pure, E.
        unfold bind, lift. rewrite !(get_field env v _ N).
        intros H He. inversion H. subst. cbn in He.
        apply app_inv_head in He. inversion He. subst iv. intros _.
        exists q. cbn. auto.
      * intros H He. inversion H. subst. cbn in He. now apply not_longer_by_one in He.
  - assert (H : exists t', (logged <- lift (get env v (lit "title")) ;;
                     _ <- lift (toStr env logged) ;;
                     promptForRetry <- edit_prompt env userPrompt v ;;
                     id_ <- fresh_id env ;;
                     title_ <- lift (get env v (lit "title")) ;;
                     description_ <- lift (get env v (lit "description")) ;;
                     createdAt_ <- now env ;;
                     yield (Variation
                       {| id := id_; title := title_; description := description_;
                          imageUrl := []; createdAt := createdAt_; isError := true;
                          errorMessage := Some (error_message t);
                          retryPayload :=
                            Some {| payload_images := Some images;
                                    payload_prompt := promptForRetry;
                                    payload_aspectRatio := None |} |})) s
                    = (Throw t', s)).
    { unfold bind at 1. unfold lift at 1.
      destruct (get env v (lit "title")) as [logged|]; [|eexists; reflexivity].
      unfold bind at 1. unfold lift at 1.
      destruct (toStr env logged); [|eexists; reflexivity].
      unfold bind at 1. rewrite edit_prompt_pure, E. eexists; reflexivity. }
    destruct H as [t' ->]. intros H He. inversion H. subst.
    now apply not_longer_by_one in He.
Qed.

End RetryAfterFailure.

Section ConsumerFacts.

Lemma accepted_truthy plan vs : accepted plan vs -> truthy plan = true.
Proof.
  intros [H _]. destruct plan; try reflexivity; discriminate H.
Qed.

Lemma for_await_notices useWebSearch plan grounding message ivs :
  for_await (search_notices useWebSearch
               ++ PlanReady plan grounding :: Progress message :: map Variation ivs)
  = {| statusMessages :=
         flat_map (fun ev => match ev with Progress m => [m] | _ => [] end)
           (search_notices useWebSearch) ++ [message];
       planData := plan; groundingData := grounding; finalVariations := ivs |}.
Proof.
  unfold for_await, search_notices.
  destruct (default false useWebSearch); cbn [app fold_left receive];
    rewrite receive_variations; reflexivity.
Qed.

(** What the consumer holds after a run of the shape [run_shape] that ended
    normally. *)
Lemma shape_reaches_consumer R planning reqs evs notices useWebSearch :
  run_shape R planning (Ok tt) reqs evs ->
  notices = [] \/ notices = search_notices useWebSearch ->
  exists plan vs,
    accepted plan vs
    /\ planData (for_await (notices ++ evs)) = plan
    /\ truthy (planData (for_await (notices ++ evs))) = true
    /\ length (finalVariations (for_await (notices ++ evs))) = length vs
    /\ finalVariations (for_await (notices ++ evs)) = variations_of evs.
Proof.
  intros [[_ [_ H]]|[plan [g [m [vs [ivs [renders [A [E [_ [_ [_ [_ O]]]]]]]]]]]]] N;
    [now destruct H|].
  exists plan, vs. subst evs.
  assert (F : for_await (notices ++ PlanReady plan g :: Progress m :: map Variation ivs)
              = {| statusMessages :=
                     flat_map (fun ev => match ev with Progress m => [m] | _ => [] end)
                       notices ++ [m];
                   planData := plan; groundingData := g; finalVariations := ivs |}).
  { destruct N as [->| ->]; [|apply for_await_notices].
    unfold for_await. cbn [app fold_left receive]. now rewrite receive_variations. }
  rewrite F. cbn [planData finalVariations variations_of flat_map app].
  fold (variations_of (map Variation ivs)). rewrite variations_of_map.
  split; [exact A|]. split; [reflexivity|].
  split; [now apply (accepted_truthy plan vs)|]. split; [now apply O|reflexivity].
Qed.

End ConsumerFacts.

Section NoImages.

Variable env : Env.

(** A turn of [generateImageEdits] without images: the edit render refuses
    before any call. *)
Lemma edit_render_no_images q s :
  nonempty q = true -> nonempty (trim q) = true ->
  editImageInternal env (Some []) (JStr q) s
  = (Throw (JsError no_image_input_message), s).
Proof.
  intros V1 V2. unfold editImageInternal, try_catch. now rewrite V1, V2.
Qed.

Lemma emits_edit_turn_no_images userPrompt v :
  emits fails_for_no_image (edit_turn env [] userPrompt v).
Proof.
  intros s. unfold edit_turn, try_catch. unfold bind at 1. rewrite edit_prompt_pure.
  destruct (edit_prompt_result env userPrompt v) as [p|t] eqn:E.
  - destruct (edit_prompt_ok env userPrompt v p E) as [N [q [-> [V1 V2]]]].
    unfold bind at 1. rewrite (edit_render_no_images q s V1 V2).
    unfold bind at 1. unfold lift at 1. rewrite (get_field env v _ N).
    unfold bind at 1. unfold lift at 1.
    destruct (toStr env (field v (lit "title"))) as [shown|t'].
    + unfold bind at 1. rewrite edit_prompt_pure, E.
      unfold bind, lift. rewrite !(get_field env v _ N).
      eexists [_]. split; [reflexivity|]. constructor; [|constructor].
      cbn. repeat split. eexists. reflexivity.
    + exists []. cbn. rewrite app_nil_r. auto.
  - exists []. rewrite app_nil_r. split; [|constructor].
    unfold bind at 1. unfold lift at 1.
    destruct (get env v (lit "title")) as [logged|]; [|reflexivity].
    unfold bind at 1. unfold lift at 1.
    destruct (toStr env logged); [|reflexivity].
    unfold bind at 1. now rewrite edit_prompt_pure, E.
Qed.

Lemma emits_generateImageEdits_no_images userPrompt useWebSearch aspectRatio :
  emits fails_for_no_image
    (generateImageEdits env [] userPrompt useWebSearch aspectRatio).
Proof.
  pose proof (emits_edit_turn_no_images userPrompt) as T.
  unfold generateImageEdits. cbv zeta.
  repeat emits_step; try exact I.
Qed.

(** A new image whose answer holds no bytes. *)
Lemma new_render_without_bytes history prompt aspectRatio response first rest img :
  models_generateImages env history (imagen_request prompt aspectRatio) = Ok response ->
  generatedImages response = Some (first :: rest) ->
  image first = Some img -> imageBytes img = None ->
  new_render env history prompt aspectRatio = Ok None.
Proof.
  intros H G I B. unfold new_render, first_image_bytes. now rewrite H, G, I, B.
Qed.

End NoImages.

(* ================================================================== *)
(** * Further properties *)
(* ================================================================== *)

(** ** [extractJson] *)

(** X1. Whatever [extractJson] returns was cut out of the text in one
    piece, is not empty, and neither starts nor ends with white space. *)
Theorem extractJson_returns_a_trimmed_part_of_the_text (text j : jstring) :
  extractJson text = Ok j ->
  j <> [] /\ trim j = j /\ exists pre post, text = pre ++ j ++ post.
Proof.
  rewrite extractJson_spec. destruct (fenced_group text) as [g|] eqn:F.
  - destruct (fenced_group_shape text g F) as [pre [ws [rest [E [_ [_ [_ [N [T _]]]]]]]]].
    intros H. inversion H. rewrite T. split; [exact N|]. split; [exact T|].
    exists (pre ++ open_fence ++ ws), rest. rewrite E, <- !app_assoc. reflexivity.
  - intros H.
    destruct (bracket_search_shape text j H) as [pre [o [mid [c [post [E [J [Ho Hc]]]]]]]].
    split; [rewrite J; discriminate|]. split; [|exists pre, post; exact E].
    rewrite J. apply (trim_fixed o (mid ++ [c]) (o :: mid) c); [reflexivity| |].
    + now apply opening_not_space.
    + now apply closing_not_space.
Qed.

(** X2. When the fence pattern captures something, [extractJson] returns
    the capture as it is (the trim that follows removes nothing): it is the
    text that stands after the first opening fence of the text (no opening
    fence starts before it) and the white space behind that fence, white
    space and a closing fence follow it, and it holds no closing fence
    itself. *)
Theorem fenced_result_is_the_capture (text g : jstring) :
  fenced_group text = Some g ->
  extractJson text = Ok g
  /\ includes close_fence g = false
  /\ exists pre ws rest,
       text = pre ++ open_fence ++ ws ++ g ++ rest
       /\ (forall k, (k < length pre)%nat ->
             starts_with open_fence (skipn k text) = false)
       /\ forallb is_space ws = true /\ closes rest = true.
Proof.
  intros F. rewrite extractJson_spec, F.
  destruct (fenced_group_shape text g F)
    as [pre [ws [rest [E [First [W [C [_ [T I]]]]]]]]].
  rewrite T. split; [reflexivity|]. split; [exact I|]. exists pre, ws, rest. auto.
Qed.

(** X3. [extractJson] throws nothing but its own error, and only when the
    fence pattern captures nothing and the text has no opening bracket or
    brace, or none before its last closing one. *)
Theorem extractJson_fails_only_without_brackets (text : jstring) (t : Thrown) :
  extractJson text = Throw t ->
  t = JsError (no_json_message text)
  /\ fenced_group text = None
  /\ (first_opening text = (-1)%Z \/ (last_closing text < first_opening text)%Z).
Proof.
  rewrite extractJson_spec. destruct (fenced_group text) as [g|]; [discriminate|].
  rewrite bracket_search_spec.
  destruct (Z.eqb_spec (first_opening text) (-1)) as [E|E]; cbn [orb].
  - intros H. inversion H. auto.
  - destruct (Z.ltb_spec (last_closing text) (first_opening text)) as [L|L];
      [|discriminate].
    intros H. inversion H. auto.
Qed.

(** ** The client *)

(** X4. Without a client and without a key in the environment every entry
    point of the service stops on the missing key before anything else
    happens: no call is made and nothing is yielded.  For the edit render
    this holds once its own checks of the prompt and of the images have
    passed. *)
Theorem missing_key_stops_every_entry_point
    (env : Env) (stringify : JSValue -> jstring) (s : State)
    (images : list SourceImage) (userPrompt : jstring)
    (useWebSearch : option bool) (aspectRatio : option jstring)
    (prompt : JSValue) (source : option (list SourceImage))
    (ratio imageData mime instruction mask : jstring) (moved : JSValue) :
  no_key env s ->
  stops_without_key s (generateNewImages env userPrompt useWebSearch aspectRatio)
  /\ stops_without_key s
       (generateImageEdits env images userPrompt useWebSearch aspectRatio)
  /\ stops_without_key s (retryNewImageGeneration env prompt ratio)
  /\ (blank_or_not_string prompt = false -> no_images source = false ->
      stops_without_key s (editImageInternal env source prompt)
      /\ stops_without_key s (retryImageGeneration env source prompt))
  /\ stops_without_key s (segmentObjectsInImage env imageData mime)
  /\ stops_without_key s (editImageWithMask env imageData mime instruction mask)
  /\ stops_without_key s (generateRepositionPrompt env stringify imageData moved)
  /\ stops_without_key s (applyRepositionEdit env imageData mime instruction).
Proof.
  intros K. pose proof (getAiClient_missing env s K) as G.
  unfold stops_without_key.
  repeat match goal with |- _ /\ _ => split end.
  - unfold generateNewImages. cbv zeta. unfold bind at 1. now rewrite G.
  - unfold generateImageEdits. cbv zeta. unfold bind at 1. now rewrite G.
  - unfold retryNewImageGeneration. unfold bind at 1. now rewrite G.
  - intros Hp Hs. unfold retryImageGeneration.
    assert (E : editImageInternal env source prompt s
                = (Throw (JsError missing_key_message), s)); [|split; exact E].
    unfold editImageInternal, try_catch.
    destruct prompt as [| | | |p| |]; try discriminate Hp. cbn in Hp.
    apply negb_false_iff in Hp. rewrite Hp, (trim_nonempty p Hp). cbn [negb orb].
    destruct source as [[|img imgs]|]; try discriminate Hs.
    unfold bind at 1. now rewrite G.
  - unfold segmentObjectsInImage. unfold bind at 1. now rewrite G.
  - unfold editImageWithMask. unfold bind at 1. now rewrite G.
  - unfold generateRepositionPrompt. unfold bind at 1. now rewrite G.
  - unfold applyRepositionEdit. unfold bind at 1. now rewrite G.
Qed.

(** X5. The client is built once: after [getAiClient] has answered, it
    answers with the same client in the same state whatever the environment
    has become; the key is read only when there was no client, and a client
    that existed is returned as it is. *)
Theorem client_is_built_once (env env' : Env) (s s1 : State) (c : Client) :
  getAiClient env s = (Ok c, s1) ->
  ai s1 = Some c
  /\ getAiClient env' s1 = (Ok c, s1)
  /\ (ai s = None -> API_KEY env = Some (apiKey c))
  /\ (forall c0, ai s = Some c0 -> c0 = c /\ s1 = s).
Proof.
  intros G.
  assert (A : ai s1 = Some c).
  { destruct (getAiClient_effect env s) as [_ [_ [A _]]]. rewrite G in A. now apply A. }
  split; [exact A|]. split; [now apply getAiClient_cached|].
  unfold getAiClient in G. split.
  - intros N. rewrite N in G. destruct (API_KEY env) as [key|]; [|discriminate G].
    destruct (nonempty key); [|discriminate G]. inversion G. reflexivity.
  - intros c0 H. rewrite H in G. inversion G. auto.
Qed.

(** X6. No entry point of the service replaces or drops a client that
    exists. *)
Theorem entry_points_keep_the_client
    (env : Env) (stringify : JSValue -> jstring)
    (images : list SourceImage) (userPrompt : jstring)
    (useWebSearch : option bool) (aspectRatio : option jstring)
    (prompt : JSValue) (source : option (list SourceImage))
    (ratio imageData mime instruction mask : jstring) (moved : JSValue) :
  keeps_client (generateNewImages env userPrompt useWebSearch aspectRatio)
  /\ keeps_client (generateImageEdits env images userPrompt useWebSearch aspectRatio)
  /\ keeps_client (retryNewImageGeneration env prompt ratio)
  /\ keeps_client (retryImageGeneration env source prompt)
  /\ keeps_client (segmentObjectsInImage env imageData mime)
  /\ keeps_client (editImageWithMask env imageData mime instruction mask)
  /\ keeps_client (generateRepositionPrompt env stringify imageData moved)
  /\ keeps_client (applyRepositionEdit env imageData mime instruction).
Proof.
  repeat match goal with |- _ /\ _ => split end.
  - apply keeps_generateNewImages.
  - apply keeps_generateImageEdits.
  - apply keeps_retryNewImageGeneration.
  - apply keeps_editImageInternal.
  - apply keeps_segmentObjectsInImage.
  - apply keeps_editImageWithMask.
  - apply keeps_generateRepositionPrompt.
  - apply keeps_applyRepositionEdit.
Qed.

(** ** The edit render *)

(** X7. The edit render ([editImageInternal]) throws [Error]s only, never
    another value; it yields nothing and reads neither the clock nor the
    random source; and it makes no call or exactly one, the call for an
    edit of the images it was given with the prompt it was given. *)
Theorem edit_render_calls_once_and_throws_errors
    (env : Env) (images : option (list SourceImage)) (prompt : JSValue)
    (s : State) :
  (forall t, fst (editImageInternal env images prompt s) = Throw t ->
             exists message, t = JsError message)
  /\ emitted (snd (editImageInternal env images prompt s)) = emitted s
  /\ clock_reads (snd (editImageInternal env images prompt s)) = clock_reads s
  /\ random_draws (snd (editImageInternal env images prompt s)) = random_draws s
  /\ (requests (snd (editImageInternal env images prompt s)) = requests s
      \/ exists imgs p,
           images = Some imgs /\ prompt = JStr p
           /\ requests (snd (editImageInternal env images prompt s))
              = requests s ++ [edit_request imgs p]).
Proof.
  pose proof (editImageInternal_effect env images prompt s) as H.
  destruct (editImageInternal env images prompt s) as [r s']. exact H.
Qed.

(** X8. On one and the same answer of the remote model the edit render and
    the two calls that return arrays ([editImageWithMask],
    [applyRepositionEdit]) succeed together; where these return every image
    of the answer, the edit render returns the last one. *)
Theorem edit_render_keeps_the_last_image
    (no_candidates no_image : jstring) (response : GenerateContentResponse) :
  match returned_images no_candidates no_image response with
  | Ok returnedImages =>
      returnedImages <> []
      /\ read_edited_image response = Ok (last returnedImages [])
  | Throw _ => exists t, read_edited_image response = Throw t
  end.
Proof.
  unfold returned_images, read_edited_image.
  destruct (candidates response) as [[|candidate rest]|];
    try (destruct (block_reason (promptFeedback response)); eexists; reflexivity).
  destruct (content candidate) as [[[ps|]]|]; try (eexists; reflexivity).
  pose proof (scan_last ps None None) as L.
  destruct (fold_left scan_part ps (None, None)) as [img txt]. cbn [fst] in L.
  destruct (collect_images ps) as [|d l].
  - cbn in L. subst img. destruct txt; eexists; reflexivity.
  - split; [discriminate|]. cbn [map] in L. rewrite last_of_cons, last_map_Some in L.
    subst img. now rewrite last_of_cons.
Qed.

(** ** [generateRepositionPrompt] *)

(** X9. [generateRepositionPrompt] makes one call, to the planner model,
    with the instruction image as a PNG and an instruction that holds the
    data of the moved objects as JSON text, and with no configuration; it
    returns the text of the answer, trimmed, and looks at nothing else in
    the answer: an answer without text makes it fail with a type error. *)
Theorem reposition_prompt_is_the_trimmed_answer
    (env : Env) (stringify : JSValue -> jstring) (image : jstring)
    (moved : JSValue) (s : State) (response : GenerateContentResponse) :
  client_ready env s ->
  models_generateContent env (requests s)
    (reposition_prompt_request image (stringify moved)) = Ok response ->
  fst (generateRepositionPrompt env stringify image moved s)
  = match text response with
    | Some t => Ok (trim t)
    | None => Throw (JsError (typeErrorMessage env
                                (ReadOfNullish JUndefined (lit "trim"))))
    end
  /\ requests (snd (generateRepositionPrompt env stringify image moved s))
     = requests s ++ [reposition_prompt_request image (stringify moved)]
  /\ emitted (snd (generateRepositionPrompt env stringify image moved s)) = emitted s
  /\ includes (stringify moved) (repositionPrompt (stringify moved)) = true.
Proof.
  intros R H.
  destruct (generateRepositionPrompt_run env stringify image moved s response R H)
    as [s' [E [Q Y]]].
  rewrite E. cbn [fst snd]. repeat split; auto.
  unfold repositionPrompt. apply includes_middle.
Qed.

(** ** Every run of the generators *)

(** X10. Every run of [generateNewImages], whatever the environment, the
    answer of the planner and the entries of the plan are, goes one of two
    ways.  Either it stops before a plan is accepted: then it has yielded
    nothing and made no call but, at most, the one to the planner.  Or it
    yields the accepted plan, then one progress notice, then variations
    only, and makes the call to the planner and then render calls only,
    each for one image at the aspect ratio of the turn; there are no more
    variation events and no more render calls than the plan has variations
    (no render is repeated), and exactly as many events when the run ends
    normally. *)
Theorem new_image_runs_follow_the_protocol
    (env : Env) (userPrompt : jstring) (useWebSearch : option bool)
    (aspectRatio : option jstring) (s : State) :
  exists reqs evs,
    requests (snd (generateNewImages env userPrompt useWebSearch aspectRatio s))
    = requests s ++ reqs
    /\ emitted (snd (generateNewImages env userPrompt useWebSearch aspectRatio s))
       = emitted s ++ evs
    /\ run_shape (is_new_render (default_ratio aspectRatio))
         (new_plan_request env userPrompt aspectRatio)
         (fst (generateNewImages env userPrompt useWebSearch aspectRatio s))
         reqs evs.
Proof.
  pose proof (generateNewImages_shape env userPrompt useWebSearch aspectRatio s) as H.
  destruct (generateNewImages env userPrompt useWebSearch aspectRatio s) as [r s'].
  exact H.
Qed.

(** X11. The same for every run of [generateImageEdits]: after the two
    notices of the web search, when it was asked for and a client exists,
    the run stops before a plan is accepted, with no further event and at
    most the call to the planner, or yields the accepted plan, one progress
    notice and variations only, and makes after the call to the planner
    only edit renders of the images of the turn, no more of them than the
    plan has variations. *)
Theorem edit_runs_follow_the_protocol
    (env : Env) (images : list SourceImage) (userPrompt : jstring)
    (useWebSearch : option bool) (aspectRatio : option jstring) (s : State) :
  exists notices reqs evs,
    (notices = [] \/ notices = search_notices useWebSearch)
    /\ requests (snd (generateImageEdits env images userPrompt useWebSearch
                        aspectRatio s))
       = requests s ++ reqs
    /\ emitted (snd (generateImageEdits env images userPrompt useWebSearch
                       aspectRatio s))
       = emitted s ++ notices ++ evs
    /\ run_shape (is_edit_render images)
         (edit_plan_request env images userPrompt useWebSearch aspectRatio)
         (fst (generateImageEdits env images userPrompt useWebSearch aspectRatio s))
         reqs evs.
Proof.
  pose proof (generateImageEdits_shape env images userPrompt useWebSearch
                aspectRatio s) as H.
  destruct (generateImageEdits env images userPrompt useWebSearch aspectRatio s)
    as [r s'].
  exact H.
Qed.

(** X12. When a generator ends normally, the loop of [handleSendPrompt]
    that has received its events holds a plan that is truthy (its check
    for a missing plan cannot fire), the plan the generator accepted, and
    one variation for every variation of that plan. *)
Theorem completed_run_hands_over_its_plan
    (env : Env) (images : list SourceImage) (userPrompt : jstring)
    (useWebSearch : option bool) (aspectRatio : option jstring) (s : State) :
  (fst (generateNewImages env userPrompt useWebSearch aspectRatio s) = Ok tt ->
   exists evs plan vs,
     emitted (snd (generateNewImages env userPrompt useWebSearch aspectRatio s))
     = emitted s ++ evs
     /\ accepted plan vs
     /\ planData (for_await evs) = plan
     /\ truthy (planData (for_await evs)) = true
     /\ length (finalVariations (for_await evs)) = length vs)
  /\ (fst (generateImageEdits env images userPrompt useWebSearch aspectRatio s)
      = Ok tt ->
      exists evs plan vs,
        emitted (snd (generateImageEdits env images userPrompt useWebSearch
                        aspectRatio s))
        = emitted s ++ evs
        /\ accepted plan vs
        /\ planData (for_await evs) = plan
        /\ truthy (planData (for_await evs)) = true
        /\ length (finalVariations (for_await evs)) = length vs).
Proof.
  split.
  - pose proof (generateNewImages_shape env userPrompt useWebSearch aspectRatio s) as H.
    destruct (generateNewImages env userPrompt useWebSearch aspectRatio s) as [r s'].
    cbn [fst snd]. intros ->. destruct H as [reqs [evs [_ [E S]]]].
    destruct (shape_reaches_consumer _ _ _ _ [] useWebSearch S (or_introl eq_refl))
      as [plan [vs [A [P [T [L _]]]]]].
    exists evs, plan, vs. auto.
  - pose proof (generateImageEdits_shape env images userPrompt useWebSearch
                  aspectRatio s) as H.
    destruct (generateImageEdits env images userPrompt useWebSearch aspectRatio s)
      as [r s'].
    cbn [fst snd]. intros ->. destruct H as [notices [reqs [evs [N [_ [E S]]]]]].
    destruct (shape_reaches_consumer _ _ _ _ notices useWebSearch S N)
      as [plan [vs [A [P [T [L _]]]]]].
    exists (notices ++ evs), plan, vs. auto.
Qed.

(** ** The gallery of [handleSendPrompt] *)

(** X13. A turn puts three placeholders behind the images of the gallery.
    When none of those images was loading, the gallery that is published
    after the loop is the old images followed by the first three variations
    received, in the order received: placeholders left over are removed,
    and a fourth variation or a later one is not shown in the gallery,
    though the chat message holds every one received. *)
Theorem gallery_takes_the_first_three_results
    (env : Env) (s : State) (old : list AlbumImage) (evs : list GeneratorYield) :
  Forall (fun img => isLoading img = false) old ->
  exists phs s',
    placeholderVariations env s = (Ok phs, s')
    /\ length phs = 3%nat
    /\ finalGallery (for_await_in_album (old ++ phs) evs)
       = old ++ map received_image (firstn 3 (variations_of evs))
    /\ received (for_await_in_album (old ++ phs) evs) = for_await evs
    /\ finalVariations (for_await evs) = variations_of evs.
Proof.
  intros Ho. destruct (placeholderVariations_run env s) as [p0 [p1 [p2 [s' [E [L _]]]]]].
  exists [p0; p1; p2], s'. split; [exact E|]. split; [reflexivity|].
  unfold for_await_in_album, finalGallery.
  rewrite (receive_in_album_run evs old [p0; p1; p2] turn_start Ho L).
  cbn [currentGallery received length]. split; [|split; [reflexivity|]].
  - rewrite !filter_app.
    rewrite (filter_keeps_all (fun img => negb (isLoading img)) old).
    2:{ eapply Forall_impl; [|exact Ho]. cbn. intros img ->. reflexivity. }
    rewrite (filter_keeps_all (fun img => negb (isLoading img)) (map received_image _)).
    2:{ apply Forall_map. apply Forall_forall. reflexivity. }
    rewrite (filter_drops_all (fun img => negb (isLoading img)) (skipn _ _)).
    2:{ apply Forall_after_skipn. eapply Forall_impl; [|exact L]. cbn. intros img ->.
        reflexivity. }
    now rewrite app_nil_r.
  - unfold for_await. now rewrite for_await_variations.
Qed.

(** ** The retry of one variation ([handleRetryVariation]) *)




(** X17. The retry of a variation that a generator has reported as failed
    makes the call that had failed once more: for a turn of
    [generateNewImages] with an aspect ratio that is not empty, and for a
    turn of [generateImageEdits] with at least one image, the call of the
    retry is the call the turn made, with the same model, prompt, images
    and aspect ratio. *)
Theorem retry_repeats_the_failed_render
    (env : Env) (MessageRest AlbumRest : Type)
    (album : Album MessageRest AlbumRest)
    (images : list SourceImage) (userPrompt aspectRatio : jstring) (v : JSValue)
    (s s' : State) (c c' : Client) (iv : ImageVariation) :
  ai s = Some c -> ai s' = Some c' -> isError iv = true ->
  (nonempty aspectRatio = true ->
   emitted (snd (new_image_turn env userPrompt aspectRatio v s))
   = emitted s ++ [Variation iv] ->
   exists req,
     requests (snd (new_image_turn env userPrompt aspectRatio v s))
     = requests s ++ [req]
     /\ requests (snd (handleRetryVariation env album (received_image iv) s'))
        = requests s' ++ [req])
  /\ (images <> [] ->
      emitted (snd (edit_turn env images userPrompt v s))
      = emitted s ++ [Variation iv] ->
      exists req,
        requests (snd (edit_turn env images userPrompt v s)) = requests s ++ [req]
        /\ requests (snd (handleRetryVariation env album (received_image iv) s'))
           = requests s' ++ [req]).
Proof.
  intros Hc Hc' Err. split.
  - intros Ha He.
    destruct (new_image_turn env userPrompt aspectRatio v s) as [r s1] eqn:T.
    cbn [snd] in *.
    destruct (new_image_turn_error env userPrompt aspectRatio v s c r s1 iv Hc T He Err)
      as [_ [Q P]].
    exists (imagen_request (new_prompt userPrompt v) aspectRatio). split; [exact Q|].
    rewrite (handleRetryVariation_run env _ _ album (received_image iv) _ s' P).
    rewrite (retry_render_new env (new_payload userPrompt aspectRatio v) s' c' Hc'
               eq_refl).
    cbn [new_payload payload_prompt payload_aspectRatio ratio_or_square]. rewrite Ha.
    destruct (new_render env (requests s') _ aspectRatio); reflexivity.
  - intros Hi He.
    destruct (edit_turn env images userPrompt v s) as [r s1] eqn:T. cbn [snd] in *.
    destruct (edit_turn_error env images userPrompt v s c r s1 iv Hc T He Err)
      as [q [V1 [V2 [_ [Q P]]]]].
    destruct images as [|img imgs]; [now destruct Hi|].
    exists (edit_request (img :: imgs) q). split; [exact Q|].
    rewrite (handleRetryVariation_run env _ _ album (received_image iv) _ s' P).
    rewrite (retry_render_edit env
               {| payload_images := Some (img :: imgs); payload_prompt := JStr q;
                  payload_aspectRatio := None |}
               s' c' img imgs q Hc' eq_refl eq_refl V1 V2).
    destruct (edit_render env (requests s') (img :: imgs) q); reflexivity.
Qed.

(** ** Edge cases of the two paths *)

(** X18. A turn of [generateImageEdits] that is given no image still calls
    the planner, but makes no render call: the edit render refuses each
    variation before any call, and every variation it yields is an error
    state with the message of the missing image and a payload whose list of
    images is empty. *)
Theorem edit_turn_without_images_renders_nothing
    (env : Env) (userPrompt : jstring) (useWebSearch : option bool)
    (aspectRatio : option jstring) (s : State) :
  (exists reqs,
     requests (snd (generateImageEdits env [] userPrompt useWebSearch aspectRatio s))
     = requests s ++ reqs
     /\ (reqs = []
         \/ reqs = [edit_plan_request env [] userPrompt useWebSearch aspectRatio]))
  /\ exists evs,
       emitted (snd (generateImageEdits env [] userPrompt useWebSearch aspectRatio s))
       = emitted s ++ evs
       /\ Forall fails_for_no_image evs.
Proof.
  split; [|apply emits_generateImageEdits_no_images].
  pose proof (generateImageEdits_shape_for env (fun _ => False) [] userPrompt
                useWebSearch aspectRatio s) as H.
  destruct (generateImageEdits env [] userPrompt useWebSearch aspectRatio s) as [r s'].
  cbn [snd]. destruct H as [notices [reqs [evs [_ [Q [_ S]]]]]].
  { intros v s0 c. apply edit_turn_effect_for. intros q. constructor. }
  exists reqs. split; [exact Q|].
  destruct S as [[_ [S _]]|[plan [g [m [vs [ivs [renders [_ [_ [-> [_ [_ [F _]]]]]]]]]]]]].
  - exact S.
  - right. destruct renders as [|req renders]; [reflexivity|]. inversion F. contradiction.
Qed.

(** X19. The new-image path does not look at the bytes it is given: when the
    first generated image of the answer holds no bytes, the turn still
    yields a variation that is no error and has no payload, and whose
    address ends in the text [undefined]. *)
Theorem new_image_without_bytes_is_shown_as_success
    (env : Env) (userPrompt aspectRatio : jstring) (v : JSValue) (s : State)
    (c : Client) (response : GenerateImagesResponse) (first : GeneratedImage)
    (rest : list GeneratedImage) (img : Image) :
  ai s = Some c -> nullish v = false ->
  models_generateImages env (requests s)
    (imagen_request (new_prompt userPrompt v) aspectRatio) = Ok response ->
  generatedImages response = Some (first :: rest) ->
  image first = Some img -> imageBytes img = None ->
  exists iv,
    fst (new_image_turn env userPrompt aspectRatio v s) = Ok tt
    /\ emitted (snd (new_image_turn env userPrompt aspectRatio v s))
       = emitted s ++ [Variation iv]
    /\ isError iv = false /\ retryPayload iv = None
    /\ imageUrl iv = lit "data:image/png;base64,undefined".
Proof.
  intros Hc N H G I B.
  unfold new_image_turn, try_catch, bind, lift.
  rewrite !(get_field env v _ N). fold (new_prompt userPrompt v).
  rewrite (retryNewImageGeneration_run env s c _ _ Hc).
  rewrite (new_render_without_bytes env _ _ _ response first rest img H G I B).
  eexists. cbn. repeat split.
Qed.

(* ================================================================== *)
(** * The further properties in the sample world *)
(* ================================================================== *)

Lemma extractJson_returns_a_trimmed_part_of_the_text_witness :
  lit "[1, 2]" <> []
  /\ trim (lit "[1, 2]") = lit "[1, 2]"
  /\ exists pre post, lit "Sure! ```json  [1, 2] ``` Enjoy." = pre ++ lit "[1, 2]" ++ post.
Proof.
  apply (extractJson_returns_a_trimmed_part_of_the_text
           (lit "Sure! ```json  [1, 2] ``` Enjoy.") (lit "[1, 2]")).
  vm_compute. reflexivity.
Defined.

Lemma fenced_result_is_the_capture_witness :
  extractJson (lit "Sure! ```json  [1, 2] ``` or ```json [3] ```") = Ok (lit "[1, 2]")
  /\ includes close_fence (lit "[1, 2]") = false
  /\ exists pre ws rest,
       lit "Sure! ```json  [1, 2] ``` or ```json [3] ```"
       = pre ++ open_fence ++ ws ++ lit "[1, 2]" ++ rest
       /\ (forall k, (k < length pre)%nat ->
             starts_with open_fence
               (skipn k (lit "Sure! ```json  [1, 2] ``` or ```json [3] ```")) = false)
       /\ forallb is_space ws = true /\ closes rest = true.
Proof.
  apply (fenced_result_is_the_capture
           (lit "Sure! ```json  [1, 2] ``` or ```json [3] ```") (lit "[1, 2]")).
  vm_compute. reflexivity.
Defined.

Lemma extractJson_fails_only_without_brackets_witness :
  JsError (no_json_message (lit "} before {"))
  = JsError (no_json_message (lit "} before {"))
  /\ fenced_group (lit "} before {") = None
  /\ (first_opening (lit "} before {") = (-1)%Z
      \/ (last_closing (lit "} before {") < first_opening (lit "} before {"))%Z).
Proof.
  apply (extractJson_fails_only_without_brackets (lit "} before {")
           (JsError (no_json_message (lit "} before {")))).
  vm_compute. reflexivity.
Defined.

Lemma missing_key_stops_every_entry_point_witness :
  stops_without_key initial
    (generateNewImages Cases.keyless (lit "a red bicycle") None None)
  /\ stops_without_key initial
       (generateImageEdits Cases.keyless [Sample.png] (lit "a red bicycle")
          (Some true) None)
  /\ stops_without_key initial
       (retryNewImageGeneration Cases.keyless (JStr (lit "a red bicycle")) (lit "1:1"))
  /\ stops_without_key initial
       (editImageInternal Cases.keyless (Some [Sample.png]) (JStr (lit "a red bicycle")))
  /\ stops_without_key initial
       (segmentObjectsInImage Cases.keyless (lit "iVBORw0KGgo=") (lit "image/png")).
Proof.
  destruct (missing_key_stops_every_entry_point Cases.keyless Sample.json_text initial
              [Sample.png] (lit "a red bicycle") (Some true) None
              (JStr (lit "a red bicycle")) (Some [Sample.png])
              (lit "1:1") (lit "iVBORw0KGgo=") (lit "image/png")
              (lit "Move the car.") (lit "TUFTSw==") (JArr []))
    as [N [_ [R [E [S _]]]]].
  - split; reflexivity.
  - destruct (missing_key_stops_every_entry_point Cases.keyless Sample.json_text initial
                [Sample.png] (lit "a red bicycle") (Some true) None
                (JStr (lit "a red bicycle")) (Some [Sample.png])
                (lit "1:1") (lit "iVBORw0KGgo=") (lit "image/png")
                (lit "Move the car.") (lit "TUFTSw==") (JArr []))
      as [_ [G _]]; [split; reflexivity|].
    destruct E as [E _]; [vm_compute; reflexivity|reflexivity|].
    repeat split; assumption.
Defined.

Lemma client_is_built_once_witness :
  ai (snd (getAiClient (Sample.world Sample.plan3) initial))
  = Some {| apiKey := lit "secret" |}
  /\ getAiClient Cases.keyless (snd (getAiClient (Sample.world Sample.plan3) initial))
     = (Ok {| apiKey := lit "secret" |},
        snd (getAiClient (Sample.world Sample.plan3) initial)).
Proof.
  destruct (client_is_built_once (Sample.world Sample.plan3) Cases.keyless initial
              (snd (getAiClient (Sample.world Sample.plan3) initial))
              {| apiKey := lit "secret" |})
    as [A [G _]].
  - reflexivity.
  - split; assumption.
Defined.

Lemma reposition_prompt_is_the_trimmed_answer_witness :
  fst (generateRepositionPrompt
         (Sample.fixed_world (Sample.answer (Some (lit "  Move the car left. ")) []))
         Sample.json_text (lit "iVBORw0KGgo=") (JArr [JStr (lit "car")]) initial)
  = Ok (lit "Move the car left.").
Proof.
  destruct (reposition_prompt_is_the_trimmed_answer
              (Sample.fixed_world (Sample.answer (Some (lit "  Move the car left. ")) []))
              Sample.json_text (lit "iVBORw0KGgo=") (JArr [JStr (lit "car")]) initial
              (Sample.answer (Some (lit "  Move the car left. ")) []))
    as [E _].
  - right. reflexivity.
  - reflexivity.
  - rewrite E. vm_compute. reflexivity.
Defined.

Lemma completed_run_hands_over_its_plan_witness :
  (exists evs plan vs,
     emitted (snd (generateNewImages (Sample.world Sample.plan3)
                     (lit "a red bicycle on a beach") (Some true)
                     (Some (lit "16:9")) initial))
     = emitted initial ++ evs
     /\ accepted plan vs
     /\ planData (for_await evs) = plan
     /\ truthy (planData (for_await evs)) = true
     /\ length (finalVariations (for_await evs)) = length vs)
  /\ (exists evs plan vs,
        emitted (snd (generateImageEdits (Sample.world Sample.plan3) [Sample.png]
                        (lit "a red bicycle on a beach") (Some true)
                        (Some (lit "16:9")) initial))
        = emitted initial ++ evs
        /\ accepted plan vs
        /\ planData (for_await evs) = plan
        /\ truthy (planData (for_await evs)) = true
        /\ length (finalVariations (for_await evs)) = length vs).
Proof.
  destruct (completed_run_hands_over_its_plan (Sample.world Sample.plan3) [Sample.png]
              (lit "a red bicycle on a beach") (Some true) (Some (lit "16:9")) initial)
    as [N E].
  split; [apply N|apply E]; vm_compute; reflexivity.
Defined.

Lemma gallery_takes_the_first_three_results_witness :
  exists phs s',
    placeholderVariations (Sample.world Sample.plan3) initial = (Ok phs, s')
    /\ length phs = 3%nat
    /\ finalGallery
         (for_await_in_album ([received_image (Cases.shown "a")] ++ phs)
            [Progress (lit "Generating your new images...");
             Variation (Cases.shown "b")])
       = [received_image (Cases.shown "a")]
           ++ map received_image
                (firstn 3 (variations_of
                             [Progress (lit "Generating your new images...");
                              Variation (Cases.shown "b")]))
    /\ received
         (for_await_in_album ([received_image (Cases.shown "a")] ++ phs)
            [Progress (lit "Generating your new images...");
             Variation (Cases.shown "b")])
       = for_await [Progress (lit "Generating your new images...");
                    Variation (Cases.shown "b")]
    /\ finalVariations
         (for_await [Progress (lit "Generating your new images...");
                     Variation (Cases.shown "b")])
       = variations_of [Progress (lit "Generating your new images...");
                        Variation (Cases.shown "b")].
Proof.
  apply (gallery_takes_the_first_three_results (Sample.world Sample.plan3) initial
           [received_image (Cases.shown "a")]
           [Progress (lit "Generating your new images...");
            Variation (Cases.shown "b")]).
  repeat constructor.
Defined.


Lemma retry_repeats_the_failed_render_witness :
  (exists req,
     requests (snd (new_image_turn (Sample.world Sample.plan3)
                      (lit "a red bicycle") (lit "16:9") Sample.studio Cases.busy))
     = requests Cases.busy ++ [req]
     /\ requests
          (snd (handleRetryVariation (Sample.world Sample.plan3)
                  (Cases.album Cases.new_again)
                  (received_image
                     (new_image_event (Sample.world Sample.plan3)
                        (lit "a red bicycle") (lit "16:9") Sample.studio
                        (Throw (JsError (lit "429: quota exceeded"))) 0 0))
                  Cases.ready))
        = requests Cases.ready ++ [req])
  /\ (exists req,
        requests (snd (edit_turn (Sample.world Sample.plan3) [Sample.png]
                         (lit "a red bicycle") Sample.studio Cases.busy))
        = requests Cases.busy ++ [req]
        /\ requests
             (snd (handleRetryVariation (Sample.world Sample.plan3)
                     (Cases.album Cases.edit_again)
                     (received_image
                        (edit_event (Sample.world Sample.plan3) [Sample.png]
                           (lit "a red bicycle") Sample.studio
                           (Throw (JsError (lit "429: quota exceeded"))) 0 0))
                     Cases.ready))
           = requests Cases.ready ++ [req]).
Proof.
  split.
  - destruct (retry_repeats_the_failed_render (Sample.world Sample.plan3) unit unit
                (Cases.album Cases.new_again) [Sample.png] (lit "a red bicycle")
                (lit "16:9") Sample.studio Cases.busy Cases.ready
                {| apiKey := lit "secret" |} {| apiKey := lit "secret" |}
                (new_image_event (Sample.world Sample.plan3)
                   (lit "a red bicycle") (lit "16:9") Sample.studio
                   (Throw (JsError (lit "429: quota exceeded"))) 0 0))
      as [N _]; [reflexivity|reflexivity|reflexivity|].
    apply N; [reflexivity|vm_compute; reflexivity].
  - destruct (retry_repeats_the_failed_render (Sample.world Sample.plan3) unit unit
                (Cases.album Cases.edit_again) [Sample.png] (lit "a red bicycle")
                (lit "16:9") Sample.studio Cases.busy Cases.ready
                {| apiKey := lit "secret" |} {| apiKey := lit "secret" |}
                (edit_event (Sample.world Sample.plan3) [Sample.png]
                   (lit "a red bicycle") Sample.studio
                   (Throw (JsError (lit "429: quota exceeded"))) 0 0))
      as [_ E]; [reflexivity|reflexivity|reflexivity|].
    apply E; [discriminate|vm_compute; reflexivity].
Defined.

Lemma new_image_without_bytes_is_shown_as_success_witness :
  exists iv,
    fst (new_image_turn Cases.hollow (lit "a red bicycle") (lit "16:9") Sample.red
           Cases.ready) = Ok tt
    /\ emitted (snd (new_image_turn Cases.hollow (lit "a red bicycle") (lit "16:9")
                       Sample.red Cases.ready))
       = emitted Cases.ready ++ [Variation iv]
    /\ isError iv = false /\ retryPayload iv = None
    /\ imageUrl iv = lit "data:image/png;base64,undefined".
Proof.
  apply (new_image_without_bytes_is_shown_as_success Cases.hollow
           (lit "a red bicycle") (lit "16:9") Sample.red Cases.ready
           {| apiKey := lit "secret" |} Cases.hollow_answer
           {| image := Some {| imageBytes := None |} |} []
           {| imageBytes := None |}); reflexivity.
Defined.

(** The two conditions of X17 are needed.  An aspect ratio that is the
    empty string is used as it is by the turn, but is replaced by 1:1 in
    the retry; and the failed variation of an edit turn without images is
    retried as a new image. *)
Remark empty_ratio_is_retried_as_square :
  let env := Sample.world Sample.plan3 in
  let turn := new_image_turn env (lit "a red bicycle") [] Sample.studio Cases.busy in
  let iv := new_image_event env (lit "a red bicycle") [] Sample.studio
              (Throw (JsError (lit "429: quota exceeded"))) 0 0 in
  emitted (snd turn) = emitted Cases.busy ++ [Variation iv]
  /\ requests (snd turn)
     = requests Cases.busy ++ [imagen_request (JStr (lit "a red bicycle")) []]
  /\ requests (snd (handleRetryVariation env (Cases.album Cases.new_again)
                      (received_image iv) Cases.ready))
     = requests Cases.ready
         ++ [imagen_request (JStr (lit "a red bicycle")) (lit "1:1")].
Proof. vm_compute. repeat split. Qed.

Remark edit_without_images_is_retried_as_new_image :
  let env := Sample.world Sample.plan3 in
  let turn := edit_turn env [] (lit "a red bicycle") Sample.studio Cases.ready in
  let iv := edit_event env [] (lit "a red bicycle") Sample.studio
              (Throw (JsError no_image_input_message)) 0 0 in
  emitted (snd turn) = emitted Cases.ready ++ [Variation iv]
  /\ requests (snd turn) = requests Cases.ready
  /\ requests (snd (handleRetryVariation env (Cases.album Cases.edit_again)
                      (received_image iv) Cases.ready))
     = requests Cases.ready
         ++ [imagen_request
               (JStr (lit "a red bicycle, in the style of: Studio Shot"))
               (lit "1:1")].
Proof. vm_compute. repeat split. Qed.
